(** * bandw: a half-duplex bandwidth meter over raw ethernet frames

    Shallow embedding of [test5.cpp] and the properties of its protocol
    engine.  The program talks to the kernel through [malloc], [socket],
    [ioctl], [bind], [sendto], [recvfrom] and [clock_gettime]; the
    kernel is a record of oracles ([OS]), the process is a state
    transformer over a [machine] (the heap block holding the two frames,
    the number of calls made so far and the trace of calls and prints). *)

From Stdlib Require Import ZArith Lia Bool String.
From Stdlib Require Import Strings.Byte.
From Stdlib Require Import Floats.SpecFloat.
From stdpp Require Import base tactics option list.

Local Open Scope Z_scope.

(** ** Constants *)

(** Values of the macros of <linux/if_ether.h>, <net/if.h>,
    <bits/socket.h>, <net/if_arp.h> and <netpacket/packet.h>. *)
Definition ETH_ALEN : nat := 6.
Definition ETH_HLEN : nat := 14.
Definition ETH_ZLEN : nat := 60.
Definition ETH_DATA_LEN : nat := 1500.
Definition ETH_FRAME_LEN : nat := 1514.
Definition ETH_P_IP : Z := 0x0800.
Definition ETH_P_ALL : Z := 0x0003.
Definition IFNAMSIZ : nat := 16.
Definition AF_PACKET : Z := 17.
Definition ARPHRD_ETHER : Z := 1.
Definition PACKET_OTHERHOST : Z := 3.

(** static const uint32_t magic = 0x32100123; *)
Definition magic : Z := 0x32100123.

(** eth frame geometry, sans preamble and FCS/CRC *)
Definition frame_min_size : nat := ETH_ZLEN.
Definition frame_max_size : nat := ETH_FRAME_LEN.
Definition packet_size : nat := ETH_DATA_LEN.

Global Arguments frame_min_size : simpl never.
Global Arguments frame_max_size : simpl never.
Global Arguments packet_size : simpl never.
Global Arguments ETH_HLEN : simpl never.
Global Arguments ETH_ALEN : simpl never.

(** ** Machine integers and bytes *)

Definition u8 (z : Z) : byte :=
  match Byte.of_N (Z.to_N (z mod 2 ^ 8)) with
  | Some b => b
  | None => x00
  end.

Definition Zu8 (b : byte) : Z := Z.of_N (Byte.to_N b).

Definition u16 (z : Z) : Z := z mod 2 ^ 16.
Definition u32 (z : Z) : Z := z mod 2 ^ 32.
Definition u64 (z : Z) : Z := z mod 2 ^ 64.

(** Conversion of an [ssize_t] to [size_t], as the usual arithmetic
    conversions do when the two are compared. *)
Definition size_t_of_ssize_t (z : Z) : Z := u64 z.

Inductive byte_order := LittleEndian | BigEndian.

(** The [w] low-order octets of [x], least significant first. *)
Definition le_bytes (w : nat) (x : Z) : list byte :=
  (λ k, u8 (Z.shiftr x (8 * Z.of_nat k))) <$> seq 0 w.

Fixpoint le_value (bs : list byte) : Z :=
  match bs with
  | [] => 0
  | b :: bs' => Zu8 b + 2 ^ 8 * le_value bs'
  end.

(** In-memory representation of an unsigned integer of [w] octets. *)
Definition native_bytes (bo : byte_order) (w : nat) (x : Z) : list byte :=
  match bo with
  | LittleEndian => le_bytes w x
  | BigEndian => reverse (le_bytes w x)
  end.

Definition native_value (bo : byte_order) (bs : list byte) : Z :=
  match bo with
  | LittleEndian => le_value bs
  | BigEndian => le_value (reverse bs)
  end.

(** uint16_t htons(uint16_t) *)
Definition htons (bo : byte_order) (x : Z) : Z :=
  match bo with
  | LittleEndian => Z.lor (Z.shiftl (Z.land x 0xff) 8) (Z.shiftr (u16 x) 8)
  | BigEndian => u16 x
  end.

(** ** Kernel structures *)

Record timespec := Timespec { tv_sec : Z; tv_nsec : Z }.

(** struct sockaddr_ll of <netpacket/packet.h> *)
Record sockaddr_ll := SockaddrLL {
  sll_family : Z;
  sll_protocol : Z;
  sll_ifindex : Z;
  sll_hatype : Z;
  sll_pkttype : Z;
  sll_halen : Z;
  sll_addr : list byte   (* unsigned char sll_addr[8] *)
}.

(** memset(&saddr, 0, sizeof(saddr)) *)
Definition saddr_zero : sockaddr_ll :=
  SockaddrLL 0 0 0 0 0 0 (replicate 8 x00).

Definition set_sll_family v sa :=
  SockaddrLL v (sll_protocol sa) (sll_ifindex sa) (sll_hatype sa) (sll_pkttype sa) (sll_halen sa) (sll_addr sa).
Definition set_sll_protocol v sa :=
  SockaddrLL (sll_family sa) v (sll_ifindex sa) (sll_hatype sa) (sll_pkttype sa) (sll_halen sa) (sll_addr sa).
Definition set_sll_ifindex v sa :=
  SockaddrLL (sll_family sa) (sll_protocol sa) v (sll_hatype sa) (sll_pkttype sa) (sll_halen sa) (sll_addr sa).
Definition set_sll_hatype v sa :=
  SockaddrLL (sll_family sa) (sll_protocol sa) (sll_ifindex sa) v (sll_pkttype sa) (sll_halen sa) (sll_addr sa).
Definition set_sll_pkttype v sa :=
  SockaddrLL (sll_family sa) (sll_protocol sa) (sll_ifindex sa) (sll_hatype sa) v (sll_halen sa) (sll_addr sa).
Definition set_sll_halen v sa :=
  SockaddrLL (sll_family sa) (sll_protocol sa) (sll_ifindex sa) (sll_hatype sa) (sll_pkttype sa) v (sll_addr sa).
Definition set_sll_addr (i : nat) (b : byte) sa :=
  SockaddrLL (sll_family sa) (sll_protocol sa) (sll_ifindex sa) (sll_hatype sa) (sll_pkttype sa) (sll_halen sa)
    (<[i:=b]> (sll_addr sa)).

(** The two requests [main] makes through [ioctl]. *)
Inductive ioctl_request := SIOCGIFINDEX | SIOCGIFHWADDR.

(** Result of an [ioctl]: the field of [ifreq] it fills in, or -1 with
    [errno] set. *)
Inductive ioctl_result (A : Type) :=
  | ioctl_ok (a : A)
  | ioctl_fail (errno : Z).
Arguments ioctl_ok {A} a.
Arguments ioctl_fail {A} errno.

(** The kernel and the platform, as seen by one run of the process.
    Calls that are made once answer by argument; [sendto], [recvfrom]
    and [clock_gettime] answer by the position of the call among the
    calls of that kind. *)
Record OS := {
  (** byte order of the processor *)
  os_byte_order : byte_order;
  (** malloc: [None] is a null pointer, [Some g] a block whose octet at
      offset [k] initially holds [g k] *)
  os_malloc : nat → option (nat → byte);
  (** socket(AF_PACKET, SOCK_RAW, htons(ETH_P_ALL)): the descriptor,
      negative on failure *)
  os_socket : Z;
  (** ioctl(fd, SIOCGIFINDEX, &ifr): ifr.ifr_ifindex *)
  os_ifindex : string → ioctl_result Z;
  (** ioctl(fd, SIOCGIFHWADDR, &ifr): ifr.ifr_hwaddr.sa_data *)
  os_ifhwaddr : string → ioctl_result (list byte);
  (** bind: 0, or -1 *)
  os_bind : sockaddr_ll → Z;
  (** the [ssize_t] returned by the k-th sendto *)
  os_sendto : nat → Z;
  (** the datagram delivered to the k-th recvfrom, [None] when the call
      fails with -1 *)
  os_recvfrom : nat → option (list byte);
  (** the k-th reading of CLOCK_MONOTONIC_RAW *)
  os_clock : nat → timespec
}.

(** ** Output of the process *)

(** IEEE 754 binary64, the [double] of the platform. *)
Definition double := spec_float.
Definition dprec : Z := 53.
Definition demax : Z := 1024.

Definition double_of_Z (z : Z) : double := binary_normalize dprec demax z 0 false.
Definition dmul : double → double → double := SFmul dprec demax.
Definition ddiv : double → double → double := SFdiv dprec demax.

(** The literals 2.0 and 1e-9. *)
Definition two_point_0 : double := S754_finite false 0x10000000000000 (-51).
Definition one_e_minus_9 : double := S754_finite false 0x112e0be826d695 (-82).

(** One constructor per [printf]/[fprintf] of the program, holding the
    arguments of its format. *)
Inductive message :=
  | msg_cannot_allocate            (* "error: cannot allocate buffer\n" *)
  | msg_cannot_create_socket       (* "error: cannot create socket\n" *)
  | msg_cannot_obtain_iface_name (errno : Z)
                                   (* "error: cannot obtain iface name (errno %s)\n" *)
  | msg_cannot_obtain_iface_hwaddr (errno : Z)
                                   (* "error: cannot obtain iface hw addr (errno %s)\n" *)
  | msg_cannot_bind                (* "error: cannot bind to iface\n" *)
  | msg_transmitter_at (iface : string)
                                   (* "transmitter at interface %s\n" *)
  | msg_responder_at (iface : string)
                                   (* "responder at interface %s\n" *)
  | msg_sendto_failed              (* "error: sendto() failed to send requested byte count\n" *)
  | msg_recvfrom_unexpected        (* "error: recvfrom() got unexpected byte count\n" *)
  | msg_bad_response (i : Z)       (* "error: bad response package %u\n" *)
  | msg_bad_request (i : Z)        (* "error: bad request package %u\n" *)
  | msg_statistics (s transcieved bandwidth : double)
      (* "elapsed time %f s\ntransceived %.0f bytes\nbandwidth %f bytes/s\n" *)
  | msg_session_failed.            (* "session failed\n" *)

Inductive event :=
  | ev_malloc (size : nat) (ok : bool)
  | ev_socket (fd : Z)
  | ev_ioctl (req : ioctl_request) (iface : string) (ret : Z)
  | ev_bind (sa : sockaddr_ll) (ret : Z)
  | ev_sendto (frame : list byte) (sa : sockaddr_ll) (ret : Z)
  | ev_recvfrom (len : nat) (ret : Z)
  | ev_clock_gettime (t : timespec)
  | ev_stdout (m : message)
  | ev_stderr (m : message).

(** ** The process *)

Record machine := Machine {
  heap : list byte;      (* the block obtained from malloc *)
  sent : nat;            (* calls of sendto so far *)
  received : nat;        (* calls of recvfrom so far *)
  clock_reads : nat;     (* calls of clock_gettime so far *)
  trace : list event     (* calls and prints so far, oldest first *)
}.

Definition boot : machine := Machine [] 0 0 0 [].

(** How a piece of [main] ends: it falls through with a value, it
    executes [return status;], or an [assert] fails. *)
Inductive step (A : Type) :=
  | Next (a : A)
  | Return (status : Z)
  | Aborted.
Arguments Next {A} a.
Arguments Return {A} status.
Arguments Aborted {A}.

Definition prog (A : Type) : Type := machine → step A * machine.

Global Instance prog_ret : MRet prog := λ A a m, (Next a, m).
Global Instance prog_bind : MBind prog := λ A B f c m,
  match c m with
  | (Next a, m') => f a m'
  | (Return st, m') => (Return st, m')
  | (Aborted, m') => (Aborted, m')
  end.

Definition return_ {A} (status : Z) : prog A := λ m, (Return status, m).
Definition abort {A} : prog A := λ m, (Aborted, m).

Definition emit (e : event) : prog unit := λ m,
  (Next (), Machine (heap m) (sent m) (received m) (clock_reads m) (trace m ++ [e])).

Definition printf (msg : message) : prog unit := emit (ev_stdout msg).
Definition fprintf_stderr (msg : message) : prog unit := emit (ev_stderr msg).

Definition get_heap : prog (list byte) := λ m, (Next (heap m), m).
Definition set_heap (h : list byte) : prog unit := λ m,
  (Next (), Machine h (sent m) (received m) (clock_reads m) (trace m)).

Definition when_ (c : bool) (p : prog unit) : prog unit :=
  if c then p else mret ().

(** assert(c) *)
Definition assert (c : bool) : prog unit :=
  if c then mret () else abort.

(** for (uint32_t i = first; i < first + n; ++i) body(i): the body changes
    neither [i] nor the bound, and the bound is a [uint32_t], so [++i]
    does not wrap. *)
Fixpoint for_range (i : Z) (n : nat) (body : Z → prog unit) : prog unit :=
  match n with
  | O => mret ()
  | S n' => body i;; for_range (i + 1) n' body
  end.

(** for (uint32_t i = 0; i < bound; ++i) body(i) *)
Definition for_u32 (bound : Z) (body : Z → prog unit) : prog unit :=
  for_range 0 (Z.to_nat bound) body.

(** reinterpret_cast< uint32_t* >(p)[idx] = x *)
Definition store_u32 (bo : byte_order) (p idx : nat) (x : Z) : prog unit :=
  h ← get_heap;
  set_heap (list_inserts (p + 4 * idx)%nat (native_bytes bo 4 (u32 x)) h).

(** reinterpret_cast< uint32_t* >(p)[idx] *)
Definition peek_u32 (bo : byte_order) (p idx : nat) (h : list byte) : Z :=
  native_value bo (take 4 (drop (p + 4 * idx)%nat h)).

Definition load_u32 (bo : byte_order) (p idx : nat) : prog Z :=
  h ← get_heap; mret (peek_u32 bo p idx h).

(** p[i] = b, for a [uint8_t* p] *)
Definition store_u8 (p : nat) (i : nat) (b : byte) : prog unit :=
  h ← get_heap; set_heap (<[(p + i)%nat := b]> h).

(** *reinterpret_cast< uint16_t* >(p) = x *)
Definition store_u16 (bo : byte_order) (p : nat) (x : Z) : prog unit :=
  h ← get_heap; set_heap (list_inserts p (native_bytes bo 2 (u16 x)) h).

Section SystemCalls.
Context (os : OS).

Definition malloc (size : nat) : prog (option nat) := λ m,
  match os_malloc os size with
  | None =>
      (Next None,
       Machine (heap m) (sent m) (received m) (clock_reads m)
               (trace m ++ [ev_malloc size false]))
  | Some g =>
      (Next (Some 0%nat),
       Machine (g <$> seq 0 size) (sent m) (received m) (clock_reads m)
               (trace m ++ [ev_malloc size true]))
  end.

Definition socket : prog Z :=
  emit (ev_socket (os_socket os));; mret (os_socket os).

Definition ioctl_SIOCGIFINDEX (fd : Z) (ifr_name : string) : prog (ioctl_result Z) :=
  match os_ifindex os ifr_name with
  | ioctl_ok idx => emit (ev_ioctl SIOCGIFINDEX ifr_name 0);; mret (ioctl_ok idx)
  | ioctl_fail e => emit (ev_ioctl SIOCGIFINDEX ifr_name (-1));; mret (ioctl_fail e)
  end.

Definition ioctl_SIOCGIFHWADDR (fd : Z) (ifr_name : string) : prog (ioctl_result (list byte)) :=
  match os_ifhwaddr os ifr_name with
  | ioctl_ok hw => emit (ev_ioctl SIOCGIFHWADDR ifr_name 0);; mret (ioctl_ok hw)
  | ioctl_fail e => emit (ev_ioctl SIOCGIFHWADDR ifr_name (-1));; mret (ioctl_fail e)
  end.

Definition bind (fd : Z) (sa : sockaddr_ll) : prog Z :=
  emit (ev_bind sa (os_bind os sa));; mret (os_bind os sa).

(** sendto(fd, heap + buf, len, 0, &sa, sizeof(sa)) *)
Definition sendto (fd : Z) (buf len : nat) (sa : sockaddr_ll) : prog Z := λ m,
  let ret := os_sendto os (sent m) in
  (Next ret,
   Machine (heap m) (S (sent m)) (received m) (clock_reads m)
           (trace m ++ [ev_sendto (take len (drop buf (heap m))) sa ret])).

(** recvfrom(fd, heap + buf, len, 0, 0, 0): the datagram is copied to
    the buffer, cut to [len] octets, and the number of octets copied
    is returned; nothing is copied when the call fails. *)
Definition recvfrom (fd : Z) (buf len : nat) : prog Z := λ m,
  match os_recvfrom os (received m) with
  | None =>
      (Next (-1),
       Machine (heap m) (sent m) (S (received m)) (clock_reads m)
               (trace m ++ [ev_recvfrom len (-1)]))
  | Some d =>
      let ret := Z.of_nat (length (take len d)) in
      (Next ret,
       Machine (list_inserts buf (take len d) (heap m))
               (sent m) (S (received m)) (clock_reads m)
               (trace m ++ [ev_recvfrom len ret]))
  end.

Definition clock_gettime : prog timespec := λ m,
  let t := os_clock os (clock_reads m) in
  (Next t,
   Machine (heap m) (sent m) (received m) (S (clock_reads m))
           (trace m ++ [ev_clock_gettime t])).

(** static uint64_t timer_nsec() *)
Definition timer_nsec : prog Z :=
  t ← clock_gettime;
  mret (u64 (u64 (u64 (tv_sec t) * 1000000000) + u64 (tv_nsec t))).
End SystemCalls.

Global Instance byte_inhabited : Inhabited byte := populate x00.

(** A loop over [i, i + n) that also updates a local variable. *)
Fixpoint for_fold {A} (i : nat) (n : nat) (body : nat → A → prog A) (a : A) : prog A :=
  match n with
  | O => mret a
  | S n' => a' ← body i a; for_fold (S i) n' body a'
  end.

(** Offsets of the fields of struct ethhdr. *)
Definition h_dest (ethhead : nat) : nat := ethhead.
Definition h_source (ethhead : nat) : nat := (ethhead + ETH_ALEN)%nat.
Definition h_proto (ethhead : nat) : nat := (ethhead + 2 * ETH_ALEN)%nat.

(** static bool init_ethhdr_and_saddr(fd, iface_name, iface_namelen,
    target, ethhead, saddr): the frame header lives in the heap at
    [ethhead], the socket address is returned next to the flag. *)
Definition init_ethhdr_and_saddr (os : OS) (fd : Z) (iface_name : string)
    (iface_namelen : nat) (target : list byte) (ethhead : nat)
    : prog (bool * sockaddr_ll) :=
  let bo := os_byte_order os in
  assert (iface_namelen <? IFNAMSIZ)%nat;;
  (* pretend we're an established protocol type *)
  let proto := ETH_P_IP in
  (* simultaneously fill-in socket address and eth frame header *)
  let saddr := saddr_zero in
  let saddr := set_sll_family AF_PACKET saddr in
  let saddr := set_sll_protocol (htons bo proto) saddr in
  let saddr := set_sll_hatype ARPHRD_ETHER saddr in
  let saddr := set_sll_pkttype PACKET_OTHERHOST saddr in
  let saddr := set_sll_halen (Z.of_nat ETH_ALEN) saddr in
  saddr ← for_fold 0 ETH_ALEN (λ i sa,
      store_u8 (h_dest ethhead) i (target !!! i);;
      mret (set_sll_addr i (target !!! i) sa)) saddr;
  let ifr_name := substring 0 iface_namelen iface_name in
  (* ioctl about iface index *)
  r ← ioctl_SIOCGIFINDEX os fd ifr_name;
  match r with
  | ioctl_fail errno =>
      fprintf_stderr (msg_cannot_obtain_iface_name errno);;
      mret (false, saddr)
  | ioctl_ok ifr_ifindex =>
      let saddr := set_sll_ifindex ifr_ifindex saddr in
      (* ioctl about iface hwaddr *)
      r ← ioctl_SIOCGIFHWADDR os fd ifr_name;
      match r with
      | ioctl_fail errno =>
          fprintf_stderr (msg_cannot_obtain_iface_hwaddr errno);;
          mret (false, saddr)
      | ioctl_ok sa_data =>
          for_fold 0 ETH_ALEN (λ i (_ : unit),
              store_u8 (h_source ethhead) i (sa_data !!! i)) ();;
          store_u16 bo (h_proto ethhead) (htons bo proto);;
          mret (true, saddr)
      end
  end.

(** The command line, once parsed by the first part of [main]. *)
Record config := Config {
  iface : string;          (* argv[iface_nameidx] *)
  target : list byte;      (* uint8_t target[8], last two octets unused *)
  packet_count : Z;        (* uint32_t packet_count *)
  flags : Z                (* uint32_t flags *)
}.

Definition flag_transmitter : Z := 1.
Definition flag_target : Z := 2.

Section Main.
Context (os : OS).
Let bo := os_byte_order os.

(** Body of the two sending loops (lines 262-271 and 327-335). *)
Definition send_step (fd : Z) (frame0 payload0 : nat) (saddr : sockaddr_ll)
    (i : Z) : prog unit :=
  store_u32 bo payload0 0 magic;;
  store_u32 bo payload0 1 i;;
  sent ← sendto os fd frame0 frame_max_size saddr;
  when_ (negb (Z.of_nat frame_max_size =? size_t_of_ssize_t sent))
    (fprintf_stderr msg_sendto_failed;;
     return_ (-1)).

(** Body of the two receiving loops (lines 275-287 and 310-323), which
    differ in the diagnostic only. *)
Definition recv_step (fd : Z) (frame1 payload1 : nat) (bad : Z → message)
    (i : Z) : prog unit :=
  recv ← recvfrom os fd frame1 frame_max_size;
  when_ (negb (Z.of_nat frame_max_size =? size_t_of_ssize_t recv))
    (fprintf_stderr msg_recvfrom_unexpected;;
     return_ (-1));;
  w0 ← load_u32 bo payload1 0;
  w1 ← load_u32 bo payload1 1;
  when_ (negb (w0 =? magic) || negb (w1 =? i))
    (fprintf_stderr (bad i);;
     return_ (-1)).

(** Lines 290-303. *)
Definition report (dt : Z) (packet_count : Z) : prog unit :=
  if negb (0 =? dt) then
    let transcieved :=
      dmul (dmul (double_of_Z (Z.of_nat packet_size)) (double_of_Z packet_count))
           two_point_0 in
    let s := dmul (double_of_Z dt) one_e_minus_9 in
    let bandwidth := ddiv transcieved s in
    printf (msg_statistics s transcieved bandwidth)
  else
    printf msg_session_failed.

Definition transmitter (cfg : config) (fd : Z) (frame0 frame1 payload0 payload1 : nat)
    (saddr : sockaddr_ll) : prog unit :=
  printf (msg_transmitter_at (iface cfg));;
  t0 ← timer_nsec os;
  for_u32 (packet_count cfg) (send_step fd frame0 payload0 saddr);;
  for_u32 (packet_count cfg) (recv_step fd frame1 payload1 msg_bad_response);;
  t1 ← timer_nsec os;
  let dt := u64 (t1 - t0) in
  report dt (packet_count cfg).

Definition responder (cfg : config) (fd : Z) (frame0 frame1 payload0 payload1 : nat)
    (saddr : sockaddr_ll) : prog unit :=
  printf (msg_responder_at (iface cfg));;
  for_u32 (packet_count cfg) (recv_step fd frame1 payload1 msg_bad_request);;
  for_u32 (packet_count cfg) (send_step fd frame0 payload0 saddr).

(** [main], from line 219 on. *)
Definition main_prog (cfg : config) : prog Z :=
  let iface_namelen := String.length (iface cfg) in
  (* room for two ethernet frames, plase *)
  frame ← malloc os (frame_max_size * 2);
  match frame with
  | None =>
      fprintf_stderr msg_cannot_allocate;;
      return_ (-1)
  | Some frame =>
      (* frame0 - outgoing, frame1 - incoming *)
      let frame0 := frame in
      let frame1 := (frame + frame_max_size)%nat in
      let payload0 := (frame0 + ETH_HLEN)%nat in
      let payload1 := (frame1 + ETH_HLEN)%nat in
      (* get an ethernet socket *)
      fd ← socket os;
      when_ (fd <? 0)
        (fprintf_stderr msg_cannot_create_socket;;
         return_ (-1));;
      '(ok, saddr) ← init_ethhdr_and_saddr os fd (iface cfg) iface_namelen
                        (target cfg) frame0;
      when_ (negb ok) (return_ (-1));;
      (* bind socket to specified iface (for the receiving part) *)
      r ← bind os fd saddr;
      when_ (r <? 0)
        (fprintf_stderr msg_cannot_bind;;
         return_ (-1));;
      (if negb (Z.land (flags cfg) flag_transmitter =? 0)
       then transmitter cfg fd frame0 frame1 payload0 payload1 saddr
       else responder cfg fd frame0 frame1 payload0 payload1 saddr);;
      mret 0
  end.

(** One run of the process: how it ends, and the machine it leaves. *)
Definition main (cfg : config) : step Z * machine := main_prog cfg boot.
End Main.

(** ** Vocabulary of the properties *)

Section Observations.
Context (os : OS).
Let bo := os_byte_order os.

(** What the k-th [recvfrom] of the run returns. *)
Definition recv_ret (k : nat) : Z :=
  match os_recvfrom os k with
  | None => -1
  | Some d => Z.of_nat (length (take frame_max_size d))
  end.

(** The k-th [sendto], resp. [recvfrom], transfers a whole frame. *)
Definition sendto_full (k : nat) : bool :=
  Z.of_nat frame_max_size =? size_t_of_ssize_t (os_sendto os k).
Definition recv_full (k : nat) : bool :=
  Z.of_nat frame_max_size =? size_t_of_ssize_t (recv_ret k).

(** The [idx]-th 32-bit word of the payload of a frame [d], read in
    the byte order of the processor. *)
Definition payload_word (idx : nat) (d : list byte) : Z :=
  native_value bo (take 4 (drop (ETH_HLEN + 4 * idx) d)).

Definition payload_ok (i : Z) (d : list byte) : bool :=
  (payload_word 0 d =? magic) && (payload_word 1 d =? i).

(** The buffer once [(magic, i)] is written at [p0]. *)
Definition stamp (p0 : nat) (i : Z) (h : list byte) : list byte :=
  list_inserts (p0 + 4 * 1) (native_bytes bo 4 (u32 i))
    (list_inserts (p0 + 4 * 0) (native_bytes bo 4 (u32 magic)) h).

(** The buffer once the k-th [recvfrom] has copied its datagram to
    [f1]. *)
Definition recv_heap (k : nat) (f1 : nat) (h : list byte) : list byte :=
  match os_recvfrom os k with
  | None => h
  | Some d => list_inserts f1 (take frame_max_size d) h
  end.

(** The datagram delivered to the k-th [recvfrom] is a whole frame
    whose payload starts with [(magic, i)]. *)
Definition accepts (k : nat) (i : Z) : bool :=
  match os_recvfrom os k with
  | None => false
  | Some d => (frame_max_size <=? length d)%nat && payload_ok i d
  end.

(** The buffer after [n] iterations of a sending loop that starts at
    index [i0], and the calls these iterations make. *)
Definition stamps (p0 : nat) (i0 : Z) (n : nat) (h : list byte) : list byte :=
  match n with
  | O => h
  | S n' => stamp p0 (i0 + Z.of_nat n') h
  end.

Definition send_event (f0 p0 : nat) (sa : sockaddr_ll) (h : list byte)
    (i0 : Z) (k0 : nat) (j : nat) : event :=
  ev_sendto (take frame_max_size (drop f0 (stamp p0 (i0 + Z.of_nat j) h))) sa
            (os_sendto os (k0 + j)).

Definition send_events (f0 p0 : nat) (sa : sockaddr_ll) (h : list byte)
    (i0 : Z) (k0 n : nat) : list event :=
  send_event f0 p0 sa h i0 k0 <$> seq 0 n.

(** The same for a receiving loop whose first call is the [k0]-th. *)
Fixpoint recv_heaps (f1 : nat) (k0 n : nat) (h : list byte) : list byte :=
  match n with
  | O => h
  | S n' => recv_heaps f1 (S k0) n' (recv_heap k0 f1 h)
  end.

Definition recv_event (k0 : nat) (j : nat) : event :=
  ev_recvfrom frame_max_size (recv_ret (k0 + j)).

Definition recv_events (k0 n : nat) : list event :=
  recv_event k0 <$> seq 0 n.
End Observations.

(** The first [ETH_ALEN] octets of an array. *)
Definition mac_of (l : list byte) : list byte :=
  (λ j, l !!! j) <$> seq 0 ETH_ALEN.

(** The socket address that [init_ethhdr_and_saddr] fills in for the
    interface index [idx], and the buffer it leaves: with the
    destination only, and with the whole header for the hardware
    address [hw] of the interface. *)
Definition init_saddr (bo : byte_order) (target : list byte) (idx : Z) : sockaddr_ll :=
  SockaddrLL AF_PACKET (htons bo ETH_P_IP) idx ARPHRD_ETHER PACKET_OTHERHOST
             (Z.of_nat ETH_ALEN)
             (list_inserts 0 (mac_of target) (replicate 8 x00)).

Definition init_dest (target : list byte) (ethhead : nat) (h : list byte) : list byte :=
  list_inserts (h_dest ethhead) (mac_of target) h.

Definition init_header (bo : byte_order) (target hw : list byte) (ethhead : nat)
    (h : list byte) : list byte :=
  list_inserts (h_proto ethhead) (native_bytes bo 2 (u16 (htons bo ETH_P_IP)))
    (list_inserts (h_source ethhead) (mac_of hw) (init_dest target ethhead h)).

Section Setup.
Context (os : OS) (cfg : config).
Let bo := os_byte_order os.

Definition setup_saddr (idx : Z) : sockaddr_ll :=
  init_saddr bo (target cfg) idx.

(** The block as [malloc] hands it out, with contents [g]. *)
Definition fresh_heap (g : nat → byte) : list byte :=
  g <$> seq 0 (frame_max_size * 2).

(** The block once the setup of [main] is over. *)
Definition setup_heap (g : nat → byte) (hw : list byte) : list byte :=
  init_header bo (target cfg) hw 0 (fresh_heap g).

(** The setup of [main] succeeds. *)
Definition setup_done (g : nat → byte) (idx : Z) (hw : list byte) : Prop :=
  os_malloc os (frame_max_size * 2) = Some g
  ∧ 0 <= os_socket os
  ∧ (String.length (iface cfg) < IFNAMSIZ)%nat
  ∧ os_ifindex os (iface cfg) = ioctl_ok idx
  ∧ os_ifhwaddr os (iface cfg) = ioctl_ok hw
  ∧ 0 <= os_bind os (setup_saddr idx).

Definition setup_trace (idx : Z) : list event :=
  [ev_malloc (frame_max_size * 2) true;
   ev_socket (os_socket os);
   ev_ioctl SIOCGIFINDEX (iface cfg) 0;
   ev_ioctl SIOCGIFHWADDR (iface cfg) 0;
   ev_bind (setup_saddr idx) (os_bind os (setup_saddr idx))].

Definition is_transmitter : bool :=
  negb (Z.land (flags cfg) flag_transmitter =? 0).

(** Number of iterations of each loop. *)
Definition rounds : nat := Z.to_nat (packet_count cfg).

(** The calls of the sending and of the receiving loop of [main]. *)
Definition sends (g : nat → byte) (idx : Z) (hw : list byte) (n : nat) : list event :=
  send_events os 0 ETH_HLEN (setup_saddr idx) (setup_heap g hw) 0 0 n.

Definition recvs (n : nat) : list event := recv_events os 0 n.

(** The value of [timer_nsec] at the k-th reading of the clock, and
    the duration [dt] measured by the transmitter. *)
Definition timestamp (k : nat) : Z :=
  let t := os_clock os k in
  u64 (u64 (u64 (tv_sec t) * 1000000000) + u64 (tv_nsec t)).

Definition elapsed : Z := u64 (timestamp 1 - timestamp 0).

Definition transceived : double :=
  dmul (dmul (double_of_Z (Z.of_nat packet_size)) (double_of_Z (packet_count cfg)))
       two_point_0.

Definition seconds : double := dmul (double_of_Z elapsed) one_e_minus_9.

Definition report_message : message :=
  if 0 =? elapsed then msg_session_failed
  else msg_statistics seconds transceived (ddiv transceived seconds).
End Setup.

(** ** The shape of a run

    Every run of [main] ends in one of the ways listed by [run_shape],
    which gives the status, the number of calls of [sendto], [recvfrom]
    and [clock_gettime], and the whole trace. *)
Section Shape.
Context (os : OS) (cfg : config).

Definition ends_with (m : machine) (s r c : nat) (t : list event) : Prop :=
  sent m = s ∧ received m = r ∧ clock_reads m = c ∧ trace m = t.

(** How [main] ends when the branch of its role ends with [r]. *)
Definition finish (r : step unit) : step Z :=
  match r with
  | Next _ => Next 0
  | Return status => Return status
  | Aborted => Aborted
  end.

Section Roles.
(** The trace and the buffer when the role starts, and the socket
    address. *)
Context (t0 : list event) (h0 : list byte) (sa : sockaddr_ll).
Let n := rounds cfg.
Let tx_sends k := send_events os 0 ETH_HLEN sa h0 0 0 k.
Let rx_recvs k := recv_events os 0 k.

Definition tx_prologue : list event :=
  [ev_stdout (msg_transmitter_at (iface cfg)); ev_clock_gettime (os_clock os 0)].

Inductive tx_shape : step unit → machine → Prop :=
  | tx_short_send j m :
      (j < n)%nat →
      (∀ j', (j' < j)%nat → sendto_full os j' = true) →
      sendto_full os j = false →
      ends_with m (S j) 0 1
        (t0 ++ tx_prologue ++ tx_sends (S j) ++ [ev_stderr msg_sendto_failed]) →
      tx_shape (Return (-1)) m
  | tx_short_recv j m :
      (∀ j', (j' < n)%nat → sendto_full os j' = true) →
      (j < n)%nat →
      (∀ j', (j' < j)%nat → accepts os j' (Z.of_nat j') = true) →
      recv_full os j = false →
      ends_with m n (S j) 1
        (t0 ++ tx_prologue ++ tx_sends n ++ rx_recvs (S j)
            ++ [ev_stderr msg_recvfrom_unexpected]) →
      tx_shape (Return (-1)) m
  | tx_mismatch j d m :
      (∀ j', (j' < n)%nat → sendto_full os j' = true) →
      (j < n)%nat →
      (∀ j', (j' < j)%nat → accepts os j' (Z.of_nat j') = true) →
      os_recvfrom os j = Some d →
      (frame_max_size ≤ length d)%nat →
      payload_ok os (Z.of_nat j) d = false →
      ends_with m n (S j) 1
        (t0 ++ tx_prologue ++ tx_sends n ++ rx_recvs (S j)
            ++ [ev_stderr (msg_bad_response (Z.of_nat j))]) →
      tx_shape (Return (-1)) m
  | tx_done m :
      (∀ j', (j' < n)%nat → sendto_full os j' = true) →
      (∀ j', (j' < n)%nat → accepts os j' (Z.of_nat j') = true) →
      ends_with m n n 2
        (t0 ++ tx_prologue ++ tx_sends n ++ rx_recvs n
            ++ [ev_clock_gettime (os_clock os 1);
                ev_stdout (report_message os cfg)]) →
      tx_shape (Next ()) m.

Definition rx_prologue : list event :=
  [ev_stdout (msg_responder_at (iface cfg))].

Inductive rx_shape : step unit → machine → Prop :=
  | rx_short_recv j m :
      (j < n)%nat →
      (∀ j', (j' < j)%nat → accepts os j' (Z.of_nat j') = true) →
      recv_full os j = false →
      ends_with m 0 (S j) 0
        (t0 ++ rx_prologue ++ rx_recvs (S j)
            ++ [ev_stderr msg_recvfrom_unexpected]) →
      rx_shape (Return (-1)) m
  | rx_mismatch j d m :
      (j < n)%nat →
      (∀ j', (j' < j)%nat → accepts os j' (Z.of_nat j') = true) →
      os_recvfrom os j = Some d →
      (frame_max_size ≤ length d)%nat →
      payload_ok os (Z.of_nat j) d = false →
      ends_with m 0 (S j) 0
        (t0 ++ rx_prologue ++ rx_recvs (S j)
            ++ [ev_stderr (msg_bad_request (Z.of_nat j))]) →
      rx_shape (Return (-1)) m
  | rx_short_send j m :
      (∀ j', (j' < n)%nat → accepts os j' (Z.of_nat j') = true) →
      (j < n)%nat →
      (∀ j', (j' < j)%nat → sendto_full os j' = true) →
      sendto_full os j = false →
      ends_with m (S j) n 0
        (t0 ++ rx_prologue ++ rx_recvs n ++ tx_sends (S j)
            ++ [ev_stderr msg_sendto_failed]) →
      rx_shape (Return (-1)) m
  | rx_done m :
      (∀ j', (j' < n)%nat → accepts os j' (Z.of_nat j') = true) →
      (∀ j', (j' < n)%nat → sendto_full os j' = true) →
      ends_with m n n 0 (t0 ++ rx_prologue ++ rx_recvs n ++ tx_sends n) →
      rx_shape (Next ()) m.
End Roles.

Let size := (frame_max_size * 2)%nat.

Inductive run_shape : step Z → machine → Prop :=
  | run_no_memory m :
      os_malloc os size = None →
      ends_with m 0 0 0 [ev_malloc size false; ev_stderr msg_cannot_allocate] →
      run_shape (Return (-1)) m
  | run_no_socket g m :
      os_malloc os size = Some g →
      os_socket os < 0 →
      ends_with m 0 0 0
        [ev_malloc size true; ev_socket (os_socket os);
         ev_stderr msg_cannot_create_socket] →
      run_shape (Return (-1)) m
  | run_assert_fails g m :
      os_malloc os size = Some g →
      0 <= os_socket os →
      (IFNAMSIZ ≤ String.length (iface cfg))%nat →
      ends_with m 0 0 0 [ev_malloc size true; ev_socket (os_socket os)] →
      run_shape Aborted m
  | run_no_ifindex g errno m :
      os_malloc os size = Some g →
      0 <= os_socket os →
      (String.length (iface cfg) < IFNAMSIZ)%nat →
      os_ifindex os (iface cfg) = ioctl_fail errno →
      ends_with m 0 0 0
        [ev_malloc size true; ev_socket (os_socket os);
         ev_ioctl SIOCGIFINDEX (iface cfg) (-1);
         ev_stderr (msg_cannot_obtain_iface_name errno)] →
      run_shape (Return (-1)) m
  | run_no_ifhwaddr g idx errno m :
      os_malloc os size = Some g →
      0 <= os_socket os →
      (String.length (iface cfg) < IFNAMSIZ)%nat →
      os_ifindex os (iface cfg) = ioctl_ok idx →
      os_ifhwaddr os (iface cfg) = ioctl_fail errno →
      ends_with m 0 0 0
        [ev_malloc size true; ev_socket (os_socket os);
         ev_ioctl SIOCGIFINDEX (iface cfg) 0;
         ev_ioctl SIOCGIFHWADDR (iface cfg) (-1);
         ev_stderr (msg_cannot_obtain_iface_hwaddr errno)] →
      run_shape (Return (-1)) m
  | run_no_bind g idx hw m :
      os_malloc os size = Some g →
      0 <= os_socket os →
      (String.length (iface cfg) < IFNAMSIZ)%nat →
      os_ifindex os (iface cfg) = ioctl_ok idx →
      os_ifhwaddr os (iface cfg) = ioctl_ok hw →
      os_bind os (setup_saddr os cfg idx) < 0 →
      ends_with m 0 0 0 (setup_trace os cfg idx ++ [ev_stderr msg_cannot_bind]) →
      run_shape (Return (-1)) m
  | run_transmitter g idx hw r m :
      setup_done os cfg g idx hw →
      is_transmitter cfg = true →
      tx_shape (setup_trace os cfg idx) (setup_heap os cfg g hw)
               (setup_saddr os cfg idx) r m →
      run_shape (finish r) m
  | run_responder g idx hw r m :
      setup_done os cfg g idx hw →
      is_transmitter cfg = false →
      rx_shape (setup_trace os cfg idx) (setup_heap os cfg g hw)
               (setup_saddr os cfg idx) r m →
      run_shape (finish r) m.
End Shape.

(** ** Reading a trace *)

Definition is_sendto (e : event) : bool :=
  match e with ev_sendto _ _ _ => true | _ => false end.

Definition is_recvfrom (e : event) : bool :=
  match e with ev_recvfrom _ _ => true | _ => false end.

(** Reading the clock, and printing the statistics or their absence. *)
Definition is_timing (e : event) : bool :=
  match e with
  | ev_clock_gettime _ => true
  | ev_stdout (msg_statistics _ _ _) => true
  | ev_stdout msg_session_failed => true
  | _ => false
  end.

(** The frames handed to [sendto], in the order of the calls. *)
Definition sent_frames (t : list event) : list (list byte) :=
  omap (λ e, match e with ev_sendto f _ _ => Some f | _ => None end) t.

(** Number of calls of [recvfrom] in a trace. *)
Definition recv_count (t : list event) : nat :=
  length (List.filter is_recvfrom t).

(** The diagnostic of a role for a bad payload at index [i]. *)
Definition mismatch_message (cfg : config) (i : Z) : message :=
  if is_transmitter cfg then msg_bad_response i else msg_bad_request i.

(** The two directions of a transfer, the calls made in each one, what
    the k-th call returns and the diagnostic of a short transfer. *)
Inductive direction := Sending | Receiving.

Definition calls (dir : direction) (m : machine) : nat :=
  match dir with Sending => sent m | Receiving => received m end.

Definition returned (os : OS) (dir : direction) (k : nat) : Z :=
  match dir with Sending => os_sendto os k | Receiving => recv_ret os k end.

Definition short_message (dir : direction) : message :=
  match dir with
  | Sending => msg_sendto_failed
  | Receiving => msg_recvfrom_unexpected
  end.

Definition transfer (dir : direction) (ret : Z) (e : event) : Prop :=
  match dir, e with
  | Sending, ev_sendto _ _ r => r = ret
  | Receiving, ev_recvfrom _ r => r = ret
  | _, _ => False
  end.

(** ** A laboratory

    A little-endian host with one interface, "eth0"; what [sendto]
    returns, what [recvfrom] delivers and what the clock shows are left
    open. *)
Definition lab (snd : nat → Z) (rcv : nat → option (list byte))
    (clk : nat → timespec) : OS := {|
  os_byte_order := LittleEndian;
  os_malloc := λ _, Some (λ _, x00);
  os_socket := 3;
  os_ifindex := λ name, if String.eqb name "eth0" then ioctl_ok 2 else ioctl_fail 19;
  os_ifhwaddr := λ name,
    if String.eqb name "eth0"
    then ioctl_ok [x02; x00; x00; xaa; xbb; xcc; x00; x00; x00; x00; x00; x00; x00; x00]
    else ioctl_fail 19;
  os_bind := λ _, 0;
  os_sendto := snd;
  os_recvfrom := rcv;
  os_clock := clk
|}.

(** A whole frame with the header [hdr] whose payload starts with
    [(w0, w1)] and goes on with the octet [fill]. *)
Definition lab_frame_with (hdr : list byte) (fill : byte) (w0 w1 : Z) : list byte :=
  hdr ++ native_bytes LittleEndian 4 w0 ++ native_bytes LittleEndian 4 w1
      ++ replicate (packet_size - 8) fill.

(** Such a frame as the peer of the laboratory sends it. *)
Definition lab_frame (w0 w1 : Z) : list byte :=
  lab_frame_with
    [x02; x00; x00; xaa; xbb; xcc; x02; x00; x00; x11; x22; x33; x08; x00] x00 w0 w1.

Definition lab_config (name : string) (count : Z) (flags : Z) : config :=
  Config name [x02; x00; x00; x11; x22; x33; x00; x00] count flags.

(** A peer that answers every frame as the protocol asks, and a clock
    that advances by a quarter of a second at each reading. *)
Definition lab_peer (k : nat) : option (list byte) :=
  Some (lab_frame magic (Z.of_nat k)).

Definition lab_clock (k : nat) : timespec :=
  Timespec (Z.of_nat k) (250000000 * Z.of_nat k).

(** A stranger that sends the same payloads from another address, with
    the protocol type of IPv6 and another filling. *)
Definition lab_stranger (k : nat) : option (list byte) :=
  Some (lab_frame_with
          [xff; xff; xff; xff; xff; xff; x06; x05; x04; x03; x02; x01; x86; xdd] xee
          magic (Z.of_nat k)).

(** The diagnostic of a failed interface query. *)
Definition lookup_message (req : ioctl_request) (errno : Z) : message :=
  match req with
  | SIOCGIFINDEX => msg_cannot_obtain_iface_name errno
  | SIOCGIFHWADDR => msg_cannot_obtain_iface_hwaddr errno
  end.

Definition is_failed_ioctl (e : event) : bool :=
  match e with ev_ioctl _ _ ret => ret <? 0 | _ => false end.

(** The event is a call of [sendto] or of [recvfrom]. *)
Definition is_io (e : event) : bool := is_sendto e || is_recvfrom e.

(** The frame a sending loop hands to [sendto] at index [k] when the
    setup left the buffer [h]. *)
Definition out_frame (os : OS) (h : list byte) (k : nat) : list byte :=
  take frame_max_size (stamp os ETH_HLEN (Z.of_nat k) h).

(** ** Doubles that stand for integers *)

(** The integer a double stands for, when it stands for one. *)
Definition integer_value (x : double) : option Z :=
  match x with
  | S754_zero _ => Some 0
  | S754_finite s m e =>
      if 0 <=? e then Some (cond_Zopp s (Zpos m * 2 ^ e))
      else if Zpos m mod 2 ^ (- e) =? 0
           then Some (cond_Zopp s (Zpos m / 2 ^ (- e)))
           else None
  | _ => None
  end.

(** The normal double whose value is the positive integer [n], for an
    [n] of at most 53 binary digits. *)
Definition canon (n : positive) : double :=
  let d := Zpos (digits2_pos n) in
  S754_finite false (Z.to_pos (Zpos n * 2 ^ (dprec - d))) (d - dprec).

(** The event prints the statistics of a session. *)
Definition is_statistics (e : event) : bool :=
  match e with ev_stdout (msg_statistics _ _ _) => true | _ => false end.

(** ** Two kernels that differ in the frames they deliver *)

(** The kernel [os] with [rcv] in place of its deliveries. *)
Definition with_recvfrom (os : OS) (rcv : nat → option (list byte)) : OS := {|
  os_byte_order := os_byte_order os;
  os_malloc := os_malloc os;
  os_socket := os_socket os;
  os_ifindex := os_ifindex os;
  os_ifhwaddr := os_ifhwaddr os;
  os_bind := os_bind os;
  os_sendto := os_sendto os;
  os_recvfrom := rcv;
  os_clock := os_clock os
|}.

(** Two deliveries copy the same number of octets and, when that is a
    whole frame, agree on the first 8 octets of the payload.  Nothing is
    asked of the 14 octets of the header nor of the rest of the
    payload. *)
Definition same_count_and_stamp (a b : option (list byte)) : Prop :=
  match a, b with
  | None, None => True
  | Some d, Some d' =>
      length (take frame_max_size d) = length (take frame_max_size d')
      ∧ ((frame_max_size ≤ length d)%nat →
         take 8 (drop ETH_HLEN d) = take 8 (drop ETH_HLEN d'))
  | _, _ => False
  end.

(** The first index below [n] where a test fails. *)
Fixpoint first_bad (P : nat → bool) (n : nat) : option nat :=
  match n with
  | O => None
  | S n' =>
      match first_bad P n' with
      | Some j => Some j
      | None => if P n' then None else Some n'
      end
  end.

(** ** What a run shows, in closed form *)

(** The observable part of a machine: the counters and the trace. *)
Definition observation : Type := nat * nat * nat * list event.

Definition observe (m : machine) : observation :=
  (sent m, received m, clock_reads m, trace m).

Section Expected.
Context (os : OS) (cfg : config).

Section ExpectedRoles.
Context (t0 : list event) (h0 : list byte) (sa : sockaddr_ll).
Let n := rounds cfg.
Let tx_sends k := send_events os 0 ETH_HLEN sa h0 0 0 k.
Let rx_recvs k := recv_events os 0 k.
Let bad_send := first_bad (sendto_full os) n.
Let bad_recv := first_bad (λ j, accepts os j (Z.of_nat j)) n.

(** The diagnostic of a frame that is not accepted. *)
Definition refusal (bad : Z → message) (j : nat) : message :=
  if recv_full os j then bad (Z.of_nat j) else msg_recvfrom_unexpected.

Definition tx_expected : step unit * observation :=
  match bad_send with
  | Some j =>
      (Return (-1),
       (S j, 0%nat, 1%nat,
        t0 ++ tx_prologue os cfg ++ tx_sends (S j) ++ [ev_stderr msg_sendto_failed]))
  | None =>
      match bad_recv with
      | Some j =>
          (Return (-1),
           (n, S j, 1%nat,
            t0 ++ tx_prologue os cfg ++ tx_sends n ++ rx_recvs (S j)
               ++ [ev_stderr (refusal msg_bad_response j)]))
      | None =>
          (Next (),
           (n, n, 2%nat,
            t0 ++ tx_prologue os cfg ++ tx_sends n ++ rx_recvs n
               ++ [ev_clock_gettime (os_clock os 1);
                   ev_stdout (report_message os cfg)]))
      end
  end.

Definition rx_expected : step unit * observation :=
  match bad_recv with
  | Some j =>
      (Return (-1),
       (0%nat, S j, 0%nat,
        t0 ++ rx_prologue cfg ++ rx_recvs (S j)
           ++ [ev_stderr (refusal msg_bad_request j)]))
  | None =>
      match bad_send with
      | Some j =>
          (Return (-1),
           (S j, n, 0%nat,
            t0 ++ rx_prologue cfg ++ rx_recvs n ++ tx_sends (S j)
               ++ [ev_stderr msg_sendto_failed]))
      | None =>
          (Next (), (n, n, 0%nat, t0 ++ rx_prologue cfg ++ rx_recvs n ++ tx_sends n))
      end
  end.
End ExpectedRoles.

Definition run_expected : step Z * observation :=
  let size := (frame_max_size * 2)%nat in
  match os_malloc os size with
  | None =>
      (Return (-1),
       (0%nat, 0%nat, 0%nat, [ev_malloc size false; ev_stderr msg_cannot_allocate]))
  | Some g =>
      if os_socket os <? 0 then
        (Return (-1),
         (0%nat, 0%nat, 0%nat,
          [ev_malloc size true; ev_socket (os_socket os);
           ev_stderr msg_cannot_create_socket]))
      else if (IFNAMSIZ <=? String.length (iface cfg))%nat then
        (Aborted,
         (0%nat, 0%nat, 0%nat, [ev_malloc size true; ev_socket (os_socket os)]))
      else
        match os_ifindex os (iface cfg) with
        | ioctl_fail errno =>
            (Return (-1),
             (0%nat, 0%nat, 0%nat,
              [ev_malloc size true; ev_socket (os_socket os);
               ev_ioctl SIOCGIFINDEX (iface cfg) (-1);
               ev_stderr (msg_cannot_obtain_iface_name errno)]))
        | ioctl_ok idx =>
            match os_ifhwaddr os (iface cfg) with
            | ioctl_fail errno =>
                (Return (-1),
                 (0%nat, 0%nat, 0%nat,
                  [ev_malloc size true; ev_socket (os_socket os);
                   ev_ioctl SIOCGIFINDEX (iface cfg) 0;
                   ev_ioctl SIOCGIFHWADDR (iface cfg) (-1);
                   ev_stderr (msg_cannot_obtain_iface_hwaddr errno)]))
            | ioctl_ok hw =>
                if os_bind os (setup_saddr os cfg idx) <? 0 then
                  (Return (-1),
                   (0%nat, 0%nat, 0%nat,
                    setup_trace os cfg idx ++ [ev_stderr msg_cannot_bind]))
                else
                  let role :=
                    if is_transmitter cfg
                    then tx_expected (setup_trace os cfg idx) (setup_heap os cfg g hw)
                                     (setup_saddr os cfg idx)
                    else rx_expected (setup_trace os cfg idx) (setup_heap os cfg g hw)
                                     (setup_saddr os cfg idx) in
                  (finish role.1, role.2)
            end
        end
  end.
End Expected.
(** ** What a run prints, and when *)

(** The lines written to the standard output, resp. the standard error,
    in the order of the calls. *)
Definition stdout_of (t : list event) : list message :=
  omap (λ e, match e with ev_stdout msg => Some msg | _ => None end) t.

Definition stderr_of (t : list event) : list message :=
  omap (λ e, match e with ev_stderr msg => Some msg | _ => None end) t.

(** The first line of a role (lines 257 and 307). *)
Definition banner (cfg : config) : message :=
  if is_transmitter cfg
  then msg_transmitter_at (iface cfg)
  else msg_responder_at (iface cfg).

(** The socket address of a call of [bind] or [sendto]. *)
Definition address_of (e : event) : option sockaddr_ll :=
  match e with
  | ev_bind sa _ => Some sa
  | ev_sendto _ sa _ => Some sa
  | _ => None
  end.

(** The time shown by a reading of the clock, in nanoseconds and
    without any bound. *)
Definition nanoseconds (t : timespec) : Z :=
  tv_sec t * 1000000000 + tv_nsec t.

(** ** Two hosts on one link *)

(** The frames of the list arrive in order: the k-th [recvfrom] of the
    host delivers the k-th of them. *)
Definition delivers (os : OS) (frames : list (list byte)) : Prop :=
  ∀ k f, frames !! k = Some f → os_recvfrom os k = Some f.

(** The other host of the laboratory: the peer of [lab], whose
    interface "eth1" has the address that [lab_config] targets.  Its byte
    order is left open. *)
Definition lab_other (bo : byte_order) (snd : nat → Z)
    (rcv : nat → option (list byte)) : OS := {|
  os_byte_order := bo;
  os_malloc := λ _, Some (λ _, x00);
  os_socket := 4;
  os_ifindex := λ name, if String.eqb name "eth1" then ioctl_ok 3 else ioctl_fail 19;
  os_ifhwaddr := λ name,
    if String.eqb name "eth1"
    then ioctl_ok [x02; x00; x00; x11; x22; x33; x00; x00; x00; x00; x00; x00; x00; x00]
    else ioctl_fail 19;
  os_bind := λ _, 0;
  os_sendto := snd;
  os_recvfrom := rcv;
  os_clock := lab_clock
|}.

Definition lab_other_config (count : Z) (flags : Z) : config :=
  Config "eth1" [x02; x00; x00; xaa; xbb; xcc; x00; x00] count flags.

(** The k-th frame each of the two hosts sends once its setup is
    over. *)
Definition lab_sends (k : nat) : list byte :=
  out_frame (lab (λ _, 1514) (λ _, None) lab_clock)
    (setup_heap (lab (λ _, 1514) (λ _, None) lab_clock) (lab_config "eth0" 1 1)
                (λ _, x00)
                [x02; x00; x00; xaa; xbb; xcc; x00; x00; x00; x00; x00; x00; x00; x00])
    k.

Definition lab_other_sends (bo : byte_order) (k : nat) : list byte :=
  out_frame (lab_other bo (λ _, 1514) (λ _, None))
    (setup_heap (lab_other bo (λ _, 1514) (λ _, None)) (lab_other_config 1 0)
                (λ _, x00)
                [x02; x00; x00; x11; x22; x33; x00; x00; x00; x00; x00; x00; x00; x00])
    k.

(** The laboratory with a kernel that may be short of memory or of
    descriptors, or refuse to bind. *)
Definition lab_kernel (memory : bool) (fd : Z) (bound : Z) : OS := {|
  os_byte_order := LittleEndian;
  os_malloc := λ _, if memory then Some (λ _, x00) else None;
  os_socket := fd;
  os_ifindex := λ name, if String.eqb name "eth0" then ioctl_ok 2 else ioctl_fail 19;
  os_ifhwaddr := λ name,
    if String.eqb name "eth0"
    then ioctl_ok [x02; x00; x00; xaa; xbb; xcc; x00; x00; x00; x00; x00; x00; x00; x00]
    else ioctl_fail 19;
  os_bind := λ _, bound;
  os_sendto := λ _, 1514;
  os_recvfrom := lab_peer;
  os_clock := lab_clock
|}.

(** ** The command line (lines 145-217) *)

Definition argInterface : string := "-interface".
Definition argTarget : string := "-target".
Definition argPacketCount : string := "-packetcount".
Definition argTransmitter : string := "-transmitter".

(** The two conversions [main] asks of [sscanf], which belong to the C
    library and are left open like the calls of the kernel. *)
Record Libc := {
  (** sscanf(s, "%hhx:%hhx:%hhx:%hhx:%hhx:%hhx", ...): the octets
      converted and stored, in order; the call returns their number (or
      [EOF] when there is none) *)
  sscanf_hhx6 : string → list byte;
  (** sscanf(s, "%u", &count): the value stored, [None] when the call
      does not return 1 *)
  sscanf_u : string → option Z
}.

Global Instance string_inhabited : Inhabited string := populate EmptyString.

(** The local variables of [main] that hold the command line. *)
Record args := Args {
  iface_nameidx : nat;      (* uint32_t iface_nameidx *)
  iface_namelen : Z;        (* uint32_t iface_namelen *)
  arg_target : list byte;   (* uint8_t target[8] *)
  arg_packet_count : Z;     (* uint32_t packet_count *)
  arg_flags : Z;            (* uint32_t flags *)
  cmd_err : bool
}.

(** Lines 145-156. *)
Definition args_init : args := Args 0 0 (replicate 8 x00) 0 0 false.

Definition set_iface_nameidx v a :=
  Args v (iface_namelen a) (arg_target a) (arg_packet_count a) (arg_flags a) (cmd_err a).
Definition set_iface_namelen v a :=
  Args (iface_nameidx a) v (arg_target a) (arg_packet_count a) (arg_flags a) (cmd_err a).
Definition set_arg_target v a :=
  Args (iface_nameidx a) (iface_namelen a) v (arg_packet_count a) (arg_flags a) (cmd_err a).
Definition set_arg_packet_count v a :=
  Args (iface_nameidx a) (iface_namelen a) (arg_target a) v (arg_flags a) (cmd_err a).
Definition set_arg_flags v a :=
  Args (iface_nameidx a) (iface_namelen a) (arg_target a) (arg_packet_count a) v (cmd_err a).
Definition set_cmd_err v a :=
  Args (iface_nameidx a) (iface_namelen a) (arg_target a) (arg_packet_count a) (arg_flags a) v.

(** The body of the loop over the arguments (lines 159-206), entered
    with [i < argc]: the index as the body leaves it, before the [++i]
    of the loop, and the variables.  [argc] is the length of [argv]. *)
Definition parse_step (libc : Libc) (argv : list string) (i : nat) (a : args)
    : nat * args :=
  let argc := length argv in
  let a := set_cmd_err true a in
  if String.eqb (argv !!! i) argInterface then
    let i := S i in
    if (i <? argc)%nat && (iface_nameidx a =? 0)%nat then
      let a := set_iface_namelen (u32 (Z.of_nat (String.length (argv !!! i)))) a in
      if iface_namelen a <? Z.of_nat IFNAMSIZ
      then (i, set_cmd_err false (set_iface_nameidx i a))
      else (i, a)
    else (i, a)
  else if String.eqb (argv !!! i) argTarget then
    let i := S i in
    if (i <? argc)%nat && (Z.land (arg_flags a) flag_target =? 0) then
      let octets := sscanf_hhx6 libc (argv !!! i) in
      let a := set_arg_target (list_inserts 0 octets (arg_target a)) a in
      if (length octets =? 6)%nat
      then (i, set_cmd_err false (set_arg_flags (Z.lor (arg_flags a) flag_target) a))
      else (i, a)
    else (i, a)
  else if String.eqb (argv !!! i) argPacketCount then
    let i := S i in
    if (i <? argc)%nat && (arg_packet_count a =? 0) then
      match sscanf_u libc (argv !!! i) with
      | Some v =>
          let count := u32 v in
          if negb (count =? 0)
          then (i, set_cmd_err false (set_arg_packet_count count a))
          else (i, a)
      | None => (i, a)
      end
    else (i, a)
  else if String.eqb (argv !!! i) argTransmitter then
    (i, set_cmd_err false (set_arg_flags (Z.lor (arg_flags a) flag_transmitter) a))
  else (i, a).

(** for (uint32_t i = ...; i < argc && !cmd_err; ++i): every iteration
    moves [i] forward, so [argc] iterations are never exceeded; [fuel]
    bounds their number. *)
Fixpoint parse_loop (libc : Libc) (argv : list string) (fuel : nat) (i : nat)
    (a : args) : args :=
  match fuel with
  | O => a
  | S fuel' =>
      if (i <? length argv)%nat && negb (cmd_err a) then
        let '(i', a') := parse_step libc argv i a in
        parse_loop libc argv fuel' (S i') a'
      else a
  end.

Definition parse (libc : Libc) (argv : list string) : args :=
  parse_loop libc argv (length argv) 1 args_init.

(** The test of line 209. *)
Definition usage_needed (a : args) : bool :=
  cmd_err a || (iface_nameidx a =? 0)%nat
  || (Z.land (arg_flags a) flag_target =? 0) || (arg_packet_count a =? 0).

(** The configuration the rest of [main] works with, [None] when [main]
    prints the usage and returns -1.  [main_prog] takes the length of the
    interface name for [iface_namelen], which is what [strlen] has given
    unless the name has 2^32 characters or more. *)
Definition command_line (libc : Libc) (argv : list string) : option config :=
  let a := parse libc argv in
  if usage_needed a then None
  else Some (Config (argv !!! iface_nameidx a) (arg_target a)
                    (arg_packet_count a) (arg_flags a)).

(** An option with its value, and the words it takes on the command
    line. *)
Inductive option_group :=
  | opt_interface (name : string)
  | opt_target (mac : string)
  | opt_packetcount (count : string)
  | opt_transmitter.

Definition words (g : option_group) : list string :=
  match g with
  | opt_interface name => [argInterface; name]
  | opt_target mac => [argTarget; mac]
  | opt_packetcount count => [argPacketCount; count]
  | opt_transmitter => [argTransmitter]
  end.

Definition interfaces (gs : list option_group) : list string :=
  omap (λ g, match g with opt_interface name => Some name | _ => None end) gs.
Definition targets (gs : list option_group) : list string :=
  omap (λ g, match g with opt_target mac => Some mac | _ => None end) gs.
Definition counts (gs : list option_group) : list string :=
  omap (λ g, match g with opt_packetcount count => Some count | _ => None end) gs.
Definition is_opt_transmitter (g : option_group) : bool :=
  match g with opt_transmitter => true | _ => false end.
Definition transmitters (gs : list option_group) : bool :=
  existsb is_opt_transmitter gs.

(** The value [sscanf] stores for a count, 0 when it stores none. *)
Definition count_value (libc : Libc) (count : string) : Z :=
  match sscanf_u libc count with
  | Some v => u32 v
  | None => 0
  end.

(** The value of an option is well formed: the name is short enough,
    the address has six octets, the count is a number other than 0. *)
Definition well_formed (libc : Libc) (g : option_group) : bool :=
  match g with
  | opt_interface name => u32 (Z.of_nat (String.length name)) <? Z.of_nat IFNAMSIZ
  | opt_target mac => (length (sscanf_hhx6 libc mac) =? 6)%nat
  | opt_packetcount count => negb (count_value libc count =? 0)
  | opt_transmitter => true
  end.

(** The option has not been given before. *)
Definition fresh (a : args) (g : option_group) : bool :=
  match g with
  | opt_interface _ => (iface_nameidx a =? 0)%nat
  | opt_target _ => Z.land (arg_flags a) flag_target =? 0
  | opt_packetcount _ => arg_packet_count a =? 0
  | opt_transmitter => true
  end.

(** An option the loop takes without raising [cmd_err]. *)
Definition admissible (libc : Libc) (a : args) (g : option_group) : bool :=
  fresh a g && well_formed libc g.

(** The variables once the loop has taken such an option whose first
    word is [argv[i]]. *)
Definition apply_group (libc : Libc) (i : nat) (g : option_group) (a : args) : args :=
  match g with
  | opt_interface name =>
      Args (S i) (u32 (Z.of_nat (String.length name))) (arg_target a)
           (arg_packet_count a) (arg_flags a) false
  | opt_target mac =>
      Args (iface_nameidx a) (iface_namelen a)
           (list_inserts 0 (sscanf_hhx6 libc mac) (arg_target a))
           (arg_packet_count a) (Z.lor (arg_flags a) flag_target) false
  | opt_packetcount count =>
      Args (iface_nameidx a) (iface_namelen a) (arg_target a)
           (count_value libc count) (arg_flags a) false
  | opt_transmitter =>
      Args (iface_nameidx a) (iface_namelen a) (arg_target a)
           (arg_packet_count a) (Z.lor (arg_flags a) flag_transmitter) false
  end.

Fixpoint apply_groups (libc : Libc) (i : nat) (gs : list option_group) (a : args) : args :=
  match gs with
  | [] => a
  | g :: gs' => apply_groups libc (i + length (words g)) gs' (apply_group libc i g a)
  end.

Fixpoint admissible_all (libc : Libc) (i : nat) (gs : list option_group) (a : args) : bool :=
  match gs with
  | [] => true
  | g :: gs' =>
      admissible libc a g
      && admissible_all libc (i + length (words g)) gs' (apply_group libc i g a)
  end.

(** The option has been given in the sequence. *)
Definition repeated (gs : list option_group) (g : option_group) : bool :=
  match g with
  | opt_interface _ => negb (bool_decide (interfaces gs = []))
  | opt_target _ => negb (bool_decide (targets gs = []))
  | opt_packetcount _ => negb (bool_decide (counts gs = []))
  | opt_transmitter => false
  end.

(** What can be wrong with a command line after the options [gs]: a
    word that is no option, an option without its value, a value that
    is not well formed, an option given twice, or the end of the command
    line when a required option has not been given. *)
Inductive malformed (libc : Libc) (gs : list option_group) : list string → Prop :=
  | unknown_word w rest :
      w ∉ [argInterface; argTarget; argPacketCount; argTransmitter] →
      malformed libc gs (w :: rest)
  | missing_value w :
      w ∈ [argInterface; argTarget; argPacketCount] →
      malformed libc gs [w]
  | ill_formed_value g rest :
      well_formed libc g = false →
      malformed libc gs (words g ++ rest)
  | repeated_option g rest :
      repeated gs g = true →
      malformed libc gs (words g ++ rest)
  | missing_option :
      interfaces gs = [] ∨ targets gs = [] ∨ counts gs = [] →
      malformed libc gs [].

(** A C library for the laboratory, which knows three strings. *)
Definition lab_libc : Libc := {|
  sscanf_hhx6 := λ s,
    if String.eqb s "02:00:00:11:22:33" then [x02; x00; x00; x11; x22; x33]
    else if String.eqb s "02:00:00" then [x02; x00; x00]
    else [];
  sscanf_u := λ s,
    if String.eqb s "1000" then Some 1000
    else if String.eqb s "0" then Some 0
    else None
|}.

(** ** The two scoped objects of [main] (lines 46-76, 220 and 235) *)

(** What a destructor does. *)
Inductive release :=
  | ev_close (fd : Z)
  | ev_free (ptr : nat).

(** struct generic_free: [ptr] is [None] for a null pointer. *)
Definition generic_free (ptr : option nat) : list release :=
  match ptr with
  | Some p => [ev_free p]
  | None => []
  end.

(** struct close_file_descriptor *)
Definition close_file_descriptor (fd : Z) : list release :=
  if 0 <=? fd then [ev_close fd] else [].

(** A piece of [main] together with the destructors it runs. *)
Definition scoped_prog (A : Type) : Type := machine → step A * machine * list release.

Definition unscoped {A} (p : prog A) : scoped_prog A := λ m, (p m, []).

Definition then_ {A B} (p : prog A) (k : A → scoped_prog B) : scoped_prog B := λ m,
  match p m with
  | (Next a, m') => k a m'
  | (Return st, m') => (Return st, m', [])
  | (Aborted, m') => (Aborted, m', [])
  end.

(** const scoped< T, FTOR_T > x(v); body: the destructor of [x] applies
    the functor to [v] when the block is left, by reaching its end or by
    a [return]; a failed [assert] ends the process without unwinding. *)
Definition scoped {T A} (FTOR_T : T → list release) (v : T) (body : scoped_prog A)
    : scoped_prog A := λ m,
  let '(r, m', released) := body m in
  match r with
  | Aborted => (r, m', released)
  | _ => (r, m', released ++ FTOR_T v)
  end.

Section Scoped.
Context (os : OS).

(** [main] from line 238 on, once [fd] is constructed. *)
Definition after_socket (cfg : config) (frame : nat) (fd : Z) : prog Z :=
  let iface_namelen := String.length (iface cfg) in
  let frame0 := frame in
  let frame1 := (frame + frame_max_size)%nat in
  let payload0 := (frame0 + ETH_HLEN)%nat in
  let payload1 := (frame1 + ETH_HLEN)%nat in
  when_ (fd <? 0)
    (fprintf_stderr msg_cannot_create_socket;;
     return_ (-1));;
  '(ok, saddr) ← init_ethhdr_and_saddr os fd (iface cfg) iface_namelen
                    (target cfg) frame0;
  when_ (negb ok) (return_ (-1));;
  r ← bind os fd saddr;
  when_ (r <? 0)
    (fprintf_stderr msg_cannot_bind;;
     return_ (-1));;
  (if negb (Z.land (flags cfg) flag_transmitter =? 0)
   then transmitter os cfg fd frame0 frame1 payload0 payload1 saddr
   else responder os cfg fd frame0 frame1 payload0 payload1 saddr);;
  mret 0.

(** [main] from line 219 on, with its two scoped objects. *)
Definition main_scoped (cfg : config) : scoped_prog Z :=
  then_ (malloc os (frame_max_size * 2)) (λ frame,
  scoped generic_free frame
    match frame with
    | None =>
        unscoped (fprintf_stderr msg_cannot_allocate;;
                  return_ (-1))
    | Some frame0 =>
        then_ (socket os) (λ fd,
        scoped close_file_descriptor fd
          (unscoped (after_socket cfg frame0 fd)))
    end).
End Scoped.

(** The resources a trace shows to have been obtained, as the calls
    that give them back. *)
Definition acquired (t : list event) : list release :=
  omap (λ e, match e with
             | ev_malloc _ true => Some (ev_free 0)
             | ev_socket fd => if 0 <=? fd then Some (ev_close fd) else None
             | _ => None
             end) t.

(** ** The whole process *)

(** How the process ends: with the usage line for [argv[0]] and -1, or
    with a session. *)
Inductive outcome :=
  | usage (argv0 : option string)
  | session (run : step Z * machine) (released : list release).

Definition program (os : OS) (libc : Libc) (argv : list string) : outcome :=
  match command_line libc argv with
  | None => usage (argv !! 0%nat)
  | Some cfg =>
      let '(r, m, released) := main_scoped os cfg boot in
      session (r, m) released
  end.

(** * Properties *)

(** ** Octets and words *)

Lemma Zu8_range (b : byte) : 0 <= Zu8 b < 2 ^ 8.
Proof.
  unfold Zu8. pose proof (Byte.to_N_bounded b). lia.
Qed.

Lemma Zu8_u8 (z : Z) : Zu8 (u8 z) = z mod 2 ^ 8.
Proof.
  unfold Zu8, u8.
  assert (Hr : 0 <= z mod 2 ^ 8 < 2 ^ 8) by (apply Z.mod_pos_bound; lia).
  destruct (Byte.of_N (Z.to_N (z mod 2 ^ 8))) as [b|] eqn:E.
  - apply Byte.to_of_N in E. rewrite E. lia.
  - apply Byte.of_N_None_iff in E. lia.
Qed.

Lemma u8_Zu8 (b : byte) : u8 (Zu8 b) = b.
Proof.
  unfold u8. rewrite Z.mod_small by apply Zu8_range.
  unfold Zu8. rewrite N2Z.id, Byte.of_to_N. reflexivity.
Qed.

Lemma le_bytes_length (w : nat) (x : Z) : length (le_bytes w x) = w.
Proof. unfold le_bytes. by rewrite length_fmap, length_seq. Qed.

Lemma le_bytes_S (w : nat) (x : Z) :
  le_bytes (S w) x = u8 x :: le_bytes w (Z.shiftr x 8).
Proof.
  unfold le_bytes. cbn [seq fmap list_fmap]. f_equal.
  rewrite <- fmap_S_seq, <- list_fmap_compose.
  apply list_fmap_ext. intros _ k _. cbn. f_equal.
  rewrite Z.shiftr_shiftr by lia. f_equal. lia.
Qed.

Lemma le_value_le_bytes (w : nat) (x : Z) :
  0 <= x < 2 ^ (8 * Z.of_nat w) → le_value (le_bytes w x) = x.
Proof.
  revert x. induction w as [|w IH]; intros x Hx.
  - cbn in *. lia.
  - rewrite le_bytes_S. cbn [le_value]. rewrite Zu8_u8, IH.
    + rewrite Z.shiftr_div_pow2 by lia. pose proof (Z.div_mod x (2 ^ 8)). lia.
    + rewrite Z.shiftr_div_pow2 by lia.
      replace (8 * Z.of_nat (S w)) with (8 + 8 * Z.of_nat w) in Hx by lia.
      rewrite Z.pow_add_r in Hx by lia.
      split; [apply Z.div_pos; lia | apply Z.div_lt_upper_bound; lia].
Qed.

Lemma native_bytes_length (bo : byte_order) (w : nat) (x : Z) :
  length (native_bytes bo w x) = w.
Proof.
  destruct bo; cbn; [|rewrite length_reverse]; apply le_bytes_length.
Qed.

(** Reading back a word stored in memory gives the word, whatever the
    byte order of the processor. *)
Lemma native_value_native_bytes (bo : byte_order) (w : nat) (x : Z) :
  0 <= x < 2 ^ (8 * Z.of_nat w) → native_value bo (native_bytes bo w x) = x.
Proof.
  intros Hx. destruct bo; unfold native_value, native_bytes;
    [|rewrite reverse_involutive]; by apply le_value_le_bytes.
Qed.

Lemma u32_range (z : Z) : 0 <= u32 z < 2 ^ 32.
Proof. apply Z.mod_pos_bound. lia. Qed.

Lemma u32_small (z : Z) : 0 <= z < 2 ^ 32 → u32 z = z.
Proof. apply Z.mod_small. Qed.

(** The protocol field holds 0x0800 in network order on either kind of
    processor. *)
Lemma h_proto_octets (bo : byte_order) :
  native_bytes bo 2 (u16 (htons bo ETH_P_IP)) = [x08; x00].
Proof. destruct bo; reflexivity. Qed.

(** ** Windows of a buffer *)

Section Windows.
Context {A : Type}.
Implicit Types (l k : list A) (i j n w : nat).
Local Open Scope nat_scope.

Lemma lookup_inserts_window l i k j :
  list_inserts i k l !! j =
    if decide (i ≤ j < i + length k ∧ j < length l) then k !! (j - i) else l !! j.
Proof.
  case_decide as H.
  - destruct H. by apply list_lookup_inserts.
  - destruct (decide (j < i)); [by apply list_lookup_inserts_lt|].
    destruct (decide (i + length k ≤ j)); [by apply list_lookup_inserts_ge|].
    rewrite (lookup_ge_None_2 l) by lia.
    apply lookup_ge_None_2. rewrite length_inserts. lia.
Qed.

(** Writing twice over the same window keeps the second write. *)
Lemma list_inserts_absorb l i k k' :
  length k = length k' →
  list_inserts i k (list_inserts i k' l) = list_inserts i k l.
Proof.
  intros Hlen. apply list_eq. intros j.
  rewrite !lookup_inserts_window, !length_inserts.
  repeat case_decide; try done; lia.
Qed.

Lemma take_list_inserts_ge l i k n :
  n ≤ i → take n (list_inserts i k l) = take n l.
Proof.
  intros Hn. apply list_eq. intros j.
  rewrite !lookup_take, lookup_inserts_window.
  repeat case_decide; try done; lia.
Qed.

Lemma drop_list_inserts_le l i k n :
  i + length k ≤ n → drop n (list_inserts i k l) = drop n l.
Proof.
  intros Hn. apply list_eq. intros j.
  rewrite !lookup_drop, lookup_inserts_window.
  repeat case_decide; try done; lia.
Qed.

Lemma take_list_inserts_le l i k n :
  i + length k ≤ n → take n (list_inserts i k l) = list_inserts i k (take n l).
Proof.
  intros Hn. apply list_eq. intros j.
  rewrite lookup_take, !lookup_inserts_window, lookup_take, length_take.
  repeat case_decide; try done; lia.
Qed.

(** Reading inside a window that was just written. *)
Lemma read_list_inserts l i k x w :
  x + w ≤ length k → i + length k ≤ length l →
  take w (drop (i + x) (list_inserts i k l)) = take w (drop x k).
Proof.
  intros Hx Hl. apply list_eq. intros j.
  rewrite !lookup_take, !lookup_drop, lookup_inserts_window.
  repeat case_decide; try done; try lia.
  f_equal. lia.
Qed.

Lemma take_drop_take l x w n :
  x + w ≤ n → take w (drop x (take n l)) = take w (drop x l).
Proof.
  intros Hx. apply list_eq. intros j.
  rewrite !lookup_take, !lookup_drop, lookup_take.
  repeat case_decide; try done; lia.
Qed.

Lemma list_inserts_two l i k k' :
  list_inserts (i + length k) k' (list_inserts i k l) = list_inserts i (k ++ k') l.
Proof. rewrite list_inserts_app_l. f_equal. lia. Qed.
End Windows.

(** ** One iteration of the loops *)

(** Unfolds the monad and the primitive operations of the process. *)
Ltac exec :=
  cbv beta iota zeta delta
    [mbind prog_bind mret prog_ret return_ abort emit printf fprintf_stderr
     get_heap set_heap when_ assert store_u32 load_u32 store_u16
     sendto recvfrom clock_gettime timer_nsec socket bind malloc
     ioctl_SIOCGIFINDEX ioctl_SIOCGIFHWADDR];
  cbn [heap sent received clock_reads trace].

Section Steps.
Context (os : OS).
Implicit Types (m : machine) (i : Z).

Lemma send_step_run fd f0 p0 sa i m :
  send_step os fd f0 p0 sa i m =
    let h := stamp os p0 i (heap m) in
    let e := ev_sendto (take frame_max_size (drop f0 h)) sa (os_sendto os (sent m)) in
    if sendto_full os (sent m)
    then (Next (),
          Machine h (S (sent m)) (received m) (clock_reads m) (trace m ++ [e]))
    else (Return (-1),
          Machine h (S (sent m)) (received m) (clock_reads m)
                  ((trace m ++ [e]) ++ [ev_stderr msg_sendto_failed])).
Proof.
  unfold send_step, sendto_full, stamp. destruct m as [h s r c t]. exec.
  destruct (Z.of_nat frame_max_size =? _); reflexivity.
Qed.

Lemma recv_full_length k d :
  os_recvfrom os k = Some d →
  recv_full os k = (frame_max_size <=? length d)%nat.
Proof.
  intros E. unfold recv_full, recv_ret, size_t_of_ssize_t, u64. rewrite E.
  rewrite length_take. unfold frame_max_size, ETH_FRAME_LEN.
  rewrite Z.mod_small by lia.
  destruct (Nat.leb_spec 1514 (length d)); [apply Z.eqb_eq | apply Z.eqb_neq]; lia.
Qed.

Lemma recv_full_None k : os_recvfrom os k = None → recv_full os k = false.
Proof.
  intros E. unfold recv_full, recv_ret. rewrite E. reflexivity.
Qed.

Lemma recv_ret_full k : recv_full os k = true → recv_ret os k = Z.of_nat frame_max_size.
Proof.
  unfold recv_full, recv_ret, size_t_of_ssize_t, u64.
  destruct (os_recvfrom os k) as [d|]; [|discriminate].
  rewrite length_take. unfold frame_max_size, ETH_FRAME_LEN.
  rewrite Z.mod_small by lia. intros H%Z.eqb_eq. lia.
Qed.

Lemma recv_step_run fd f1 p1 bad i m :
  recv_step os fd f1 p1 bad i m =
    let k := received m in
    let h := recv_heap os k f1 (heap m) in
    let tr := trace m ++ [ev_recvfrom frame_max_size (recv_ret os k)] in
    if negb (recv_full os k)
    then (Return (-1),
          Machine h (sent m) (S k) (clock_reads m)
                  (tr ++ [ev_stderr msg_recvfrom_unexpected]))
    else if negb (peek_u32 (os_byte_order os) p1 0 h =? magic)
              || negb (peek_u32 (os_byte_order os) p1 1 h =? i)
    then (Return (-1),
          Machine h (sent m) (S k) (clock_reads m) (tr ++ [ev_stderr (bad i)]))
    else (Next (), Machine h (sent m) (S k) (clock_reads m) tr).
Proof.
  unfold recv_step, recv_full, recv_ret, recv_heap.
  destruct m as [h s r c t]. exec.
  destruct (os_recvfrom os r) as [d|]; exec.
  - destruct (Z.of_nat frame_max_size =? _); exec; [|reflexivity].
    cbv beta iota delta [negb].
    destruct (_ || _); reflexivity.
  - reflexivity.
Qed.

(** What the validation reads is the payload of the datagram. *)
Lemma peek_recv_heap k d f1 idx h :
  os_recvfrom os k = Some d →
  (frame_max_size ≤ length d)%nat →
  (f1 + frame_max_size ≤ length h)%nat →
  (idx < 2)%nat →
  peek_u32 (os_byte_order os) (f1 + ETH_HLEN) idx (recv_heap os k f1 h)
  = payload_word os idx d.
Proof.
  intros E Hd Hh Hidx. unfold peek_u32, payload_word, recv_heap. rewrite E.
  f_equal. rewrite <- Nat.add_assoc.
  unfold frame_max_size, ETH_FRAME_LEN, ETH_HLEN in *.
  rewrite read_list_inserts by (rewrite length_take; lia).
  apply take_drop_take. lia.
Qed.

Lemma recv_step_accept fd f1 bad i m :
  accepts os (received m) i = true →
  (f1 + frame_max_size ≤ length (heap m))%nat →
  recv_step os fd f1 (f1 + ETH_HLEN) bad i m =
    (Next (),
     Machine (recv_heap os (received m) f1 (heap m)) (sent m) (S (received m))
             (clock_reads m)
             (trace m ++ [ev_recvfrom frame_max_size (recv_ret os (received m))])).
Proof.
  unfold accepts. intros Hacc Hh.
  destruct (os_recvfrom os (received m)) as [d|] eqn:E; [|discriminate].
  apply andb_prop in Hacc as [Hfull Hpay].
  rewrite recv_step_run. cbv zeta.
  rewrite (recv_full_length _ d E), Hfull. cbn [negb].
  apply Nat.leb_le in Hfull.
  rewrite !(peek_recv_heap _ d) by (done || lia).
  by apply andb_prop in Hpay as [-> ->].
Qed.

Lemma recv_step_short fd f1 p1 bad i m :
  recv_full os (received m) = false →
  recv_step os fd f1 p1 bad i m =
    (Return (-1),
     Machine (recv_heap os (received m) f1 (heap m)) (sent m) (S (received m))
             (clock_reads m)
             (trace m ++ [ev_recvfrom frame_max_size (recv_ret os (received m));
                          ev_stderr msg_recvfrom_unexpected])).
Proof.
  intros H. rewrite recv_step_run. cbv zeta. rewrite H. cbn [negb].
  by rewrite <- app_assoc.
Qed.

Lemma recv_step_mismatch fd f1 bad i m d :
  os_recvfrom os (received m) = Some d →
  (frame_max_size ≤ length d)%nat →
  payload_ok os i d = false →
  (f1 + frame_max_size ≤ length (heap m))%nat →
  recv_step os fd f1 (f1 + ETH_HLEN) bad i m =
    (Return (-1),
     Machine (recv_heap os (received m) f1 (heap m)) (sent m) (S (received m))
             (clock_reads m)
             (trace m ++ [ev_recvfrom frame_max_size (recv_ret os (received m));
                          ev_stderr (bad i)])).
Proof.
  intros E Hd Hpay Hh.
  assert (Hfull : recv_full os (received m) = true).
  { rewrite (recv_full_length _ d E). by apply Nat.leb_le. }
  rewrite recv_step_run. cbv zeta. rewrite Hfull. cbn [negb].
  rewrite !(peek_recv_heap _ d) by (done || lia).
  unfold payload_ok in Hpay. rewrite <- negb_andb, Hpay. cbn [negb].
  by rewrite <- app_assoc.
Qed.

Lemma recv_heap_length k f1 h : length (recv_heap os k f1 h) = length h.
Proof.
  unfold recv_heap. destruct (os_recvfrom os k); [apply length_inserts|done].
Qed.

Lemma recv_heap_frame0 k f1 h n :
  (n ≤ f1)%nat → take n (recv_heap os k f1 h) = take n h.
Proof.
  intros Hn. unfold recv_heap.
  destruct (os_recvfrom os k); [by apply take_list_inserts_ge|done].
Qed.

Lemma accepts_full k i : accepts os k i = true → recv_full os k = true.
Proof.
  unfold accepts. destruct (os_recvfrom os k) as [d|] eqn:E; [|discriminate].
  rewrite (recv_full_length _ d E). by intros [? _]%andb_prop.
Qed.

(** The three ways an iteration of a receiving loop can go. *)
Lemma recv_cases k i :
  accepts os k i = true
  ∨ recv_full os k = false
  ∨ ∃ d, os_recvfrom os k = Some d ∧ (frame_max_size ≤ length d)%nat
         ∧ payload_ok os i d = false.
Proof.
  unfold accepts. destruct (os_recvfrom os k) as [d|] eqn:E.
  - rewrite (recv_full_length _ d E).
    destruct (Nat.leb_spec frame_max_size (length d)); [|by right; left].
    destruct (payload_ok os i d) eqn:Hp; [by left|].
    right; right. by exists d.
  - right; left. by apply recv_full_None.
Qed.
End Steps.

(** ** The loops *)

Lemma bind_run {A B} (c : prog A) (f : A → prog B) (m : machine) :
  (c ≫= f) m =
    match c m with
    | (Next a, m') => f a m'
    | (Return st, m') => (Return st, m')
    | (Aborted, m') => (Aborted, m')
    end.
Proof. reflexivity. Qed.

(** A loop of [a + b] iterations is a loop of [a] iterations followed,
    unless it returned, by a loop of [b] iterations. *)
Lemma for_range_add (body : Z → prog unit) (a b : nat) (i : Z) (m : machine) :
  for_range i (a + b) body m =
    match for_range i a body m with
    | (Next _, m') => for_range (i + Z.of_nat a) b body m'
    | other => other
    end.
Proof.
  revert i m. induction a as [|a IH]; intros i m.
  - cbn. by rewrite Z.add_0_r.
  - cbn [for_range Nat.add]. rewrite !bind_run.
    destruct (body i m) as [[[]|st|] m1]; [|done..].
    rewrite IH. by replace (i + 1 + Z.of_nat a) with (i + Z.of_nat (S a)) by lia.
Qed.

(** Either a test holds at every index below [n], or there is a first
    index where it fails. *)
Lemma first_failure (P : nat → bool) (n : nat) :
  (∀ j, (j < n)%nat → P j = true)
  ∨ ∃ j, (j < n)%nat ∧ (∀ j', (j' < j)%nat → P j' = true) ∧ P j = false.
Proof.
  induction n as [|n [IH|(j & Hj & Hlt & Hf)]].
  - left. intros j Hj. lia.
  - destruct (P n) eqn:E.
    + left. intros j Hj. destruct (decide (j = n)) as [->|]; [done|].
      apply IH. lia.
    + right. exists n. eauto.
  - right. exists j. split; [lia|done].
Qed.

Section Loops.
Context (os : OS).
Implicit Types (m : machine) (i : Z) (h : list byte).

Lemma stamp_eq p0 i h :
  stamp os p0 i h =
    list_inserts p0 (native_bytes (os_byte_order os) 4 (u32 magic)
                     ++ native_bytes (os_byte_order os) 4 (u32 i)) h.
Proof.
  unfold stamp. rewrite <- list_inserts_two, native_bytes_length.
  by rewrite Nat.mul_0_r, Nat.add_0_r.
Qed.

Lemma stamp_absorb p0 i i' h :
  stamp os p0 i (stamp os p0 i' h) = stamp os p0 i h.
Proof.
  rewrite !stamp_eq. apply list_inserts_absorb.
  by rewrite !length_app, !native_bytes_length.
Qed.

Lemma stamp_length p0 i h : length (stamp os p0 i h) = length h.
Proof. unfold stamp. by rewrite !length_inserts. Qed.

Lemma stamps_length p0 i n h : length (stamps os p0 i n h) = length h.
Proof. destruct n; [done|apply stamp_length]. Qed.

Lemma send_events_S f0 p0 sa h i k n :
  send_events os f0 p0 sa h i k (S n) =
    send_event os f0 p0 sa h i k 0
    :: send_events os f0 p0 sa (stamp os p0 i h) (i + 1) (S k) n.
Proof.
  unfold send_events. cbn [seq fmap list_fmap]. f_equal.
  rewrite <- fmap_S_seq, <- list_fmap_compose.
  apply list_fmap_ext. intros _ j _. cbv [compose send_event].
  rewrite stamp_absorb. f_equal; [do 3 f_equal|f_equal]; lia.
Qed.

Lemma send_loop_done fd f0 p0 sa n i m :
  (∀ j, (j < n)%nat → sendto_full os (sent m + j) = true) →
  for_range i n (send_step os fd f0 p0 sa) m =
    (Next (),
     Machine (stamps os p0 i n (heap m)) (sent m + n) (received m) (clock_reads m)
             (trace m ++ send_events os f0 p0 sa (heap m) i (sent m) n)).
Proof.
  revert i m. induction n as [|n IH]; intros i m Hfull.
  - destruct m. cbn. by rewrite Nat.add_0_r, app_nil_r.
  - cbn [for_range]. rewrite bind_run, send_step_run. cbv zeta.
    specialize (Hfull 0%nat ltac:(lia)) as H0. rewrite Nat.add_0_r in H0.
    rewrite H0, IH; cbn [heap sent received clock_reads trace].
    + rewrite send_events_S, <- app_assoc. cbn [app]. f_equal. f_equal.
      * destruct n as [|n]; cbn [stamps].
        -- f_equal. lia.
        -- rewrite stamp_absorb. f_equal. lia.
      * lia.
      * do 3 f_equal. unfold send_event. by rewrite Z.add_0_r, Nat.add_0_r.
    + intros j Hj. rewrite <- (Hfull (S j)) by lia. f_equal. lia.
Qed.

Lemma send_loop_fail fd f0 p0 sa n j i m :
  (j < n)%nat →
  (∀ j', (j' < j)%nat → sendto_full os (sent m + j') = true) →
  sendto_full os (sent m + j) = false →
  for_range i n (send_step os fd f0 p0 sa) m =
    (Return (-1),
     Machine (stamp os p0 (i + Z.of_nat j) (heap m)) (sent m + S j) (received m)
             (clock_reads m)
             (trace m ++ send_events os f0 p0 sa (heap m) i (sent m) (S j)
                      ++ [ev_stderr msg_sendto_failed])).
Proof.
  intros Hj Hfull Hfail.
  replace n with (j + S (n - S j))%nat by lia.
  rewrite for_range_add, send_loop_done by done.
  cbn [for_range]. rewrite bind_run, send_step_run. cbv zeta.
  cbn [heap sent received clock_reads trace]. rewrite Hfail.
  f_equal. f_equal.
  - destruct j; cbn [stamps]; [done|]. by rewrite stamp_absorb.
  - lia.
  - rewrite <- !app_assoc. f_equal.
    unfold send_events. rewrite seq_S, fmap_app. cbn [fmap list_fmap app].
    rewrite <- app_assoc. cbn [app]. do 2 f_equal.
    unfold send_event. cbn. do 3 f_equal.
    destruct j; cbn [stamps]; [done|]. by rewrite stamp_absorb.
Qed.

Lemma recv_heaps_length f1 k n h : length (recv_heaps os f1 k n h) = length h.
Proof.
  revert k h. induction n as [|n IH]; intros k h; cbn [recv_heaps]; [done|].
  by rewrite IH, recv_heap_length.
Qed.

(** Receiving leaves the outgoing frame alone. *)
Lemma recv_heaps_frame0 f1 k n h w :
  (w ≤ f1)%nat → take w (recv_heaps os f1 k n h) = take w h.
Proof.
  intros Hw. revert k h. induction n as [|n IH]; intros k h; cbn [recv_heaps]; [done|].
  by rewrite IH, recv_heap_frame0.
Qed.

Lemma recv_heaps_S f1 k n h :
  recv_heaps os f1 k (S n) h = recv_heap os (k + n) f1 (recv_heaps os f1 k n h).
Proof.
  revert k h. induction n as [|n IH]; intros k h.
  - cbn. by rewrite Nat.add_0_r.
  - change (recv_heaps os f1 k (S (S n)) h)
      with (recv_heaps os f1 (S k) (S n) (recv_heap os k f1 h)).
    rewrite IH. cbn [recv_heaps]. f_equal. lia.
Qed.

Lemma recv_events_S k n :
  recv_events os k (S n) = recv_event os k 0 :: recv_events os (S k) n.
Proof.
  unfold recv_events. cbn [seq fmap list_fmap]. f_equal.
  rewrite <- fmap_S_seq, <- list_fmap_compose.
  apply list_fmap_ext. intros _ j _. cbv [compose recv_event].
  do 2 f_equal. lia.
Qed.

Lemma recv_loop_done fd f1 bad n i m :
  (f1 + frame_max_size ≤ length (heap m))%nat →
  (∀ j, (j < n)%nat → accepts os (received m + j) (i + Z.of_nat j) = true) →
  for_range i n (recv_step os fd f1 (f1 + ETH_HLEN) bad) m =
    (Next (),
     Machine (recv_heaps os f1 (received m) n (heap m)) (sent m) (received m + n)
             (clock_reads m) (trace m ++ recv_events os (received m) n)).
Proof.
  revert i m. induction n as [|n IH]; intros i m Hh Hacc.
  - destruct m. cbn. by rewrite Nat.add_0_r, app_nil_r.
  - cbn [for_range]. rewrite bind_run.
    specialize (Hacc 0%nat ltac:(lia)) as H0.
    rewrite Nat.add_0_r, Z.add_0_r in H0.
    rewrite recv_step_accept by done.
    rewrite IH; cbn [heap sent received clock_reads trace].
    + rewrite recv_events_S, <- app_assoc. cbn [app recv_heaps].
      do 2 f_equal; [lia|]. do 3 f_equal. unfold recv_event.
      by rewrite Nat.add_0_r.
    + by rewrite recv_heap_length.
    + intros j Hj. rewrite <- (Hacc (S j)) by lia. f_equal; lia.
Qed.

Lemma recv_loop_short fd f1 bad n j i m :
  (f1 + frame_max_size ≤ length (heap m))%nat →
  (j < n)%nat →
  (∀ j', (j' < j)%nat → accepts os (received m + j') (i + Z.of_nat j') = true) →
  recv_full os (received m + j) = false →
  for_range i n (recv_step os fd f1 (f1 + ETH_HLEN) bad) m =
    (Return (-1),
     Machine (recv_heaps os f1 (received m) (S j) (heap m)) (sent m)
             (received m + S j) (clock_reads m)
             (trace m ++ recv_events os (received m) (S j)
                      ++ [ev_stderr msg_recvfrom_unexpected])).
Proof.
  intros Hh Hj Hacc Hshort.
  replace n with (j + S (n - S j))%nat by lia.
  rewrite for_range_add, recv_loop_done by done.
  cbn [for_range]. rewrite bind_run, recv_step_short by done.
  cbn [heap sent received clock_reads trace].
  rewrite recv_heaps_S. do 2 f_equal; [lia|].
  rewrite <- !app_assoc. f_equal.
  unfold recv_events. rewrite seq_S, fmap_app. cbn [fmap list_fmap app].
  by rewrite <- app_assoc.
Qed.

Lemma recv_loop_mismatch fd f1 bad n j i m d :
  (f1 + frame_max_size ≤ length (heap m))%nat →
  (j < n)%nat →
  (∀ j', (j' < j)%nat → accepts os (received m + j') (i + Z.of_nat j') = true) →
  os_recvfrom os (received m + j) = Some d →
  (frame_max_size ≤ length d)%nat →
  payload_ok os (i + Z.of_nat j) d = false →
  for_range i n (recv_step os fd f1 (f1 + ETH_HLEN) bad) m =
    (Return (-1),
     Machine (recv_heaps os f1 (received m) (S j) (heap m)) (sent m)
             (received m + S j) (clock_reads m)
             (trace m ++ recv_events os (received m) (S j)
                      ++ [ev_stderr (bad (i + Z.of_nat j))])).
Proof.
  intros Hh Hj Hacc E Hd Hpay.
  replace n with (j + S (n - S j))%nat by lia.
  rewrite for_range_add, recv_loop_done by done.
  cbn [for_range]. rewrite bind_run.
  rewrite (recv_step_mismatch _ _ _ _ _ _ d);
    cbn [heap sent received clock_reads trace]; try done.
  - rewrite recv_heaps_S. do 2 f_equal; [lia|].
    rewrite <- !app_assoc. f_equal.
    unfold recv_events. rewrite seq_S, fmap_app. cbn [fmap list_fmap app].
    by rewrite <- app_assoc.
  - by rewrite recv_heaps_length.
Qed.
End Loops.

(** ** Setup *)

Lemma substring_full (s : string) : substring 0 (String.length s) s = s.
Proof. induction s as [|c s IH]; [done|]. cbn. by rewrite IH. Qed.

Section InitEthhdr.
Context (os : OS).
Implicit Types (m : machine) (l : list byte).

Lemma fill_h_source p l n i m :
  for_fold i n (λ i (_ : unit), store_u8 p i (l !!! i)) () m =
    (Next (),
     Machine (list_inserts (p + i) ((λ j, l !!! j) <$> seq i n) (heap m))
             (sent m) (received m) (clock_reads m) (trace m)).
Proof.
  revert i m. induction n as [|n IH]; intros i m.
  - by destruct m.
  - cbn [for_fold]. rewrite bind_run. unfold store_u8 at 1. exec. cbv [get_heap set_heap]. cbn [heap sent received clock_reads trace].
    rewrite IH. cbn [heap sent received clock_reads trace seq fmap list_fmap list_inserts].
    do 2 f_equal. rewrite <- list_insert_inserts_lt by lia.
    do 2 f_equal. lia.
Qed.

Lemma fill_h_dest p l n i sa m :
  for_fold i n (λ i sa, store_u8 p i (l !!! i);; mret (set_sll_addr i (l !!! i) sa)) sa m =
    (Next (SockaddrLL (sll_family sa) (sll_protocol sa) (sll_ifindex sa) (sll_hatype sa)
                      (sll_pkttype sa) (sll_halen sa)
                      (list_inserts i ((λ j, l !!! j) <$> seq i n) (sll_addr sa))),
     Machine (list_inserts (p + i) ((λ j, l !!! j) <$> seq i n) (heap m))
             (sent m) (received m) (clock_reads m) (trace m)).
Proof.
  revert i sa m. induction n as [|n IH]; intros i sa m.
  - by destruct m, sa.
  - cbn [for_fold]. rewrite bind_run. unfold store_u8 at 1. exec. cbv [get_heap set_heap]. cbn [heap sent received clock_reads trace].
    rewrite IH. unfold set_sll_addr.
    cbn [heap sent received clock_reads trace seq fmap list_fmap list_inserts
         sll_family sll_protocol sll_ifindex sll_hatype sll_pkttype sll_halen sll_addr].
    rewrite <- !list_insert_inserts_lt by lia.
    do 4 f_equal. lia.
Qed.

Lemma init_assert_fails fd name namelen tg ethhead m :
  (IFNAMSIZ ≤ namelen)%nat →
  init_ethhdr_and_saddr os fd name namelen tg ethhead m = (Aborted, m).
Proof.
  intros H. unfold init_ethhdr_and_saddr. rewrite bind_run.
  apply Nat.ltb_ge in H. by rewrite H.
Qed.

Lemma init_no_ifindex fd name namelen tg ethhead m e :
  (namelen < IFNAMSIZ)%nat →
  os_ifindex os (substring 0 namelen name) = ioctl_fail e →
  init_ethhdr_and_saddr os fd name namelen tg ethhead m =
    (Next (false, init_saddr (os_byte_order os) tg 0),
     Machine (init_dest tg ethhead (heap m)) (sent m) (received m) (clock_reads m)
             (trace m ++ [ev_ioctl SIOCGIFINDEX (substring 0 namelen name) (-1);
                          ev_stderr (msg_cannot_obtain_iface_name e)])).
Proof.
  intros H E. unfold init_ethhdr_and_saddr. rewrite bind_run.
  apply Nat.ltb_lt in H. rewrite H. cbn [assert mret prog_ret].
  rewrite bind_run, fill_h_dest. unfold ioctl_SIOCGIFINDEX. rewrite E. exec.
  rewrite <- app_assoc, Nat.add_0_r. reflexivity.
Qed.

Lemma init_no_ifhwaddr fd name namelen tg ethhead m idx e :
  (namelen < IFNAMSIZ)%nat →
  os_ifindex os (substring 0 namelen name) = ioctl_ok idx →
  os_ifhwaddr os (substring 0 namelen name) = ioctl_fail e →
  init_ethhdr_and_saddr os fd name namelen tg ethhead m =
    (Next (false, init_saddr (os_byte_order os) tg idx),
     Machine (init_dest tg ethhead (heap m)) (sent m) (received m) (clock_reads m)
             (trace m ++ [ev_ioctl SIOCGIFINDEX (substring 0 namelen name) 0;
                          ev_ioctl SIOCGIFHWADDR (substring 0 namelen name) (-1);
                          ev_stderr (msg_cannot_obtain_iface_hwaddr e)])).
Proof.
  intros H E1 E2. unfold init_ethhdr_and_saddr. rewrite bind_run.
  apply Nat.ltb_lt in H. rewrite H. cbn [assert mret prog_ret].
  rewrite bind_run, fill_h_dest.
  unfold ioctl_SIOCGIFINDEX, ioctl_SIOCGIFHWADDR. rewrite E1. exec. rewrite E2. exec.
  rewrite <- !app_assoc, Nat.add_0_r. reflexivity.
Qed.

Lemma init_succeeds fd name namelen tg ethhead m idx hw :
  (namelen < IFNAMSIZ)%nat →
  os_ifindex os (substring 0 namelen name) = ioctl_ok idx →
  os_ifhwaddr os (substring 0 namelen name) = ioctl_ok hw →
  init_ethhdr_and_saddr os fd name namelen tg ethhead m =
    (Next (true, init_saddr (os_byte_order os) tg idx),
     Machine (init_header (os_byte_order os) tg hw ethhead (heap m))
             (sent m) (received m) (clock_reads m)
             (trace m ++ [ev_ioctl SIOCGIFINDEX (substring 0 namelen name) 0;
                          ev_ioctl SIOCGIFHWADDR (substring 0 namelen name) 0])).
Proof.
  intros H E1 E2. unfold init_ethhdr_and_saddr. rewrite bind_run.
  apply Nat.ltb_lt in H. rewrite H. cbn [assert mret prog_ret].
  rewrite bind_run, fill_h_dest.
  unfold ioctl_SIOCGIFINDEX, ioctl_SIOCGIFHWADDR. rewrite E1. exec. rewrite E2. exec.
  rewrite fill_h_source. exec.
  rewrite <- !app_assoc, !Nat.add_0_r. reflexivity.
Qed.
End InitEthhdr.

(** ** The two roles *)

Section RoleShapes.
Context (os : OS) (cfg : config).
Implicit Types (h : list byte) (t : list event).

Lemma transmitter_shape fd sa h0 t0 :
  (frame_max_size + frame_max_size ≤ length h0)%nat →
  let run := transmitter os cfg fd 0 frame_max_size ETH_HLEN
               (frame_max_size + ETH_HLEN) sa (Machine h0 0 0 0 t0) in
  tx_shape os cfg t0 h0 sa run.1 run.2.
Proof.
  intros Hh. cbv zeta. unfold transmitter, for_u32. exec.
  fold (rounds cfg).
  destruct (first_failure (sendto_full os) (rounds cfg))
    as [Hs|(j & Hj & Hpre & Hfail)].
  2: { rewrite (send_loop_fail _ _ _ _ _ _ j) by done. cbn [fst snd].
       apply (tx_short_send _ _ _ _ _ j); try done.
       exec. repeat split; try done.
       by rewrite <- !app_assoc. }
  rewrite send_loop_done by done. exec.
  assert (Hlen : (frame_max_size + frame_max_size
                  ≤ length (stamps os ETH_HLEN 0 (rounds cfg) h0))%nat)
    by by rewrite stamps_length.
  destruct (first_failure (λ j, accepts os j (Z.of_nat j)) (rounds cfg))
    as [Hr|(j & Hj & Hpre & Hfail)].
  - rewrite recv_loop_done by (done || intros; by apply Hr).
    unfold report. exec.
    destruct (0 =? _) eqn:Edt; cbn [negb]; exec; cbn [fst snd];
      (apply tx_done; [done..|]);
      unfold report_message, seconds, transceived, elapsed, timestamp;
      rewrite Edt;
      repeat split; cbn [sent received clock_reads trace]; try lia;
      by rewrite <- !app_assoc.
  - destruct (recv_cases os j (Z.of_nat j)) as [Hacc|[Hshort|(d & E & Hd & Hpay)]].
    + congruence.
    + rewrite (recv_loop_short _ _ _ _ _ j) by (done || intros; by apply Hpre).
      cbn [fst snd]. apply (tx_short_recv _ _ _ _ _ j); try done.
      repeat split; cbn [sent received clock_reads trace]; try lia.
      by rewrite <- !app_assoc.
    + rewrite (recv_loop_mismatch _ _ _ _ _ j _ _ d)
        by (done || intros; by apply Hpre).
      cbn [fst snd]. apply (tx_mismatch _ _ _ _ _ j d); try done.
      repeat split; cbn [sent received clock_reads trace]; try lia.
      by rewrite <- !app_assoc.
Qed.

(** The frames a sending loop puts on the wire depend on the outgoing
    frame only. *)
Lemma send_events_frame0 sa h h' i k n :
  take frame_max_size h = take frame_max_size h' →
  send_events os 0 ETH_HLEN sa h i k n = send_events os 0 ETH_HLEN sa h' i k n.
Proof.
  intros Hh. unfold send_events. apply list_fmap_ext. intros _ j _.
  unfold send_event. f_equal. rewrite !drop_0.
  rewrite !stamp_eq, !take_list_inserts_le; [by rewrite Hh|..];
    rewrite length_app, !native_bytes_length; unfold frame_max_size, ETH_FRAME_LEN, ETH_HLEN; lia.
Qed.

Lemma responder_shape fd sa h0 t0 :
  (frame_max_size + frame_max_size ≤ length h0)%nat →
  let run := responder os cfg fd 0 frame_max_size ETH_HLEN
               (frame_max_size + ETH_HLEN) sa (Machine h0 0 0 0 t0) in
  rx_shape os cfg t0 h0 sa run.1 run.2.
Proof.
  intros Hh. cbv zeta. unfold responder, for_u32. exec.
  fold (rounds cfg).
  destruct (first_failure (λ j, accepts os j (Z.of_nat j)) (rounds cfg))
    as [Hr|(j & Hj & Hpre & Hfail)].
  - rewrite recv_loop_done by (done || intros; by apply Hr).
    pose proof (send_events_frame0 sa
      (recv_heaps os frame_max_size 0 (rounds cfg) h0) h0) as Hev.
    specialize (Hev 0 0%nat). cbn [heap sent received clock_reads trace].
    destruct (first_failure (sendto_full os) (rounds cfg))
      as [Hs|(j & Hj & Hpre & Hfail)].
    + rewrite send_loop_done by done. cbn [fst snd].
      apply rx_done; [done..|].
      repeat split; cbn [sent received clock_reads trace]; try lia.
      rewrite Hev by by apply recv_heaps_frame0.
      by rewrite <- !app_assoc.
    + rewrite (send_loop_fail _ _ _ _ _ _ j) by done. cbn [fst snd].
      apply (rx_short_send _ _ _ _ _ j); try done.
      repeat split; cbn [sent received clock_reads trace]; try lia.
      rewrite Hev by by apply recv_heaps_frame0.
      by rewrite <- !app_assoc.
  - destruct (recv_cases os j (Z.of_nat j)) as [Hacc|[Hshort|(d & E & Hd & Hpay)]].
    + congruence.
    + rewrite (recv_loop_short _ _ _ _ _ j) by (done || intros; by apply Hpre).
      cbn [fst snd]. apply (rx_short_recv _ _ _ _ _ j); try done.
      repeat split; cbn [sent received clock_reads trace]; try lia.
      by rewrite <- !app_assoc.
    + rewrite (recv_loop_mismatch _ _ _ _ _ j _ _ d)
        by (done || intros; by apply Hpre).
      cbn [fst snd]. apply (rx_mismatch _ _ _ _ _ j d); try done.
      repeat split; cbn [sent received clock_reads trace]; try lia.
      by rewrite <- !app_assoc.
Qed.
End RoleShapes.

(** ** Every run has one of the shapes *)

Lemma setup_heap_length os cfg g hw :
  length (setup_heap os cfg g hw) = (frame_max_size + frame_max_size)%nat.
Proof.
  unfold setup_heap, init_header, init_dest, fresh_heap.
  rewrite !length_inserts, length_fmap, length_seq. lia.
Qed.

Theorem main_shape (os : OS) (cfg : config) :
  run_shape os cfg (main os cfg).1 (main os cfg).2.
Proof.
  unfold main, main_prog. rewrite bind_run. unfold malloc, boot.
  cbn [heap sent received clock_reads trace app].
  destruct (os_malloc os (frame_max_size * 2)) as [g|] eqn:Emalloc.
  2: { exec. cbn [fst snd app]. by apply run_no_memory. }
  rewrite bind_run. unfold socket at 1. exec. cbn [app].
  destruct (Z.ltb_spec (os_socket os) 0) as [Hfd|Hfd].
  { exec. cbn [fst snd app]. by apply (run_no_socket _ _ g). }
  cbn [Nat.add].
  destruct (Nat.le_gt_cases IFNAMSIZ (String.length (iface cfg))) as [Hlen|Hlen].
  { rewrite init_assert_fails by done. cbn [fst snd].
    by apply (run_assert_fails _ _ g). }
  destruct (os_ifindex os (iface cfg)) as [idx|e] eqn:Eidx.
  2: { rewrite (init_no_ifindex _ _ _ _ _ _ _ e) by (by rewrite ?substring_full).
       rewrite substring_full. exec. cbn [fst snd app].
       by apply (run_no_ifindex _ _ g e). }
  destruct (os_ifhwaddr os (iface cfg)) as [hw|e] eqn:Ehw.
  2: { rewrite (init_no_ifhwaddr _ _ _ _ _ _ _ idx e) by (by rewrite ?substring_full).
       rewrite substring_full. exec. cbn [fst snd app].
       by apply (run_no_ifhwaddr _ _ g idx e). }
  rewrite (init_succeeds _ _ _ _ _ _ _ idx hw) by (by rewrite ?substring_full).
  rewrite substring_full. exec. cbn [app negb].
  fold (fresh_heap g). fold (setup_heap os cfg g hw). fold (setup_saddr os cfg idx).
  destruct (Z.ltb_spec (os_bind os (setup_saddr os cfg idx)) 0) as [Hb|Hb].
  { cbn [fst snd heap sent received clock_reads trace app].
    by apply (run_no_bind _ _ g idx hw). }
  cbn [heap sent received clock_reads trace app].
  assert (Hdone : setup_done os cfg g idx hw) by done.
  pose proof (setup_heap_length os cfg g hw) as Hh.
  fold (setup_trace os cfg idx). fold (is_transmitter cfg).
  destruct (is_transmitter cfg) eqn:Erole.
  - pose proof (transmitter_shape os cfg (os_socket os) (setup_saddr os cfg idx)
                  (setup_heap os cfg g hw) (setup_trace os cfg idx)) as Hrole.
    cbv zeta in Hrole.
    destruct (transmitter _ _ _ _ _ _ _ _ _) as [r m].
    apply (run_transmitter _ _ g idx hw) in Hrole; [|done|done|lia].
    by destruct r.
  - pose proof (responder_shape os cfg (os_socket os) (setup_saddr os cfg idx)
                  (setup_heap os cfg g hw) (setup_trace os cfg idx)) as Hrole.
    cbv zeta in Hrole.
    destruct (responder _ _ _ _ _ _ _ _ _) as [r m].
    apply (run_responder _ _ g idx hw) in Hrole; [|done|done|lia].
    by destruct r.
Qed.

(** ** The observations of a run in closed form *)

Lemma first_bad_None (P : nat → bool) (n : nat) :
  (∀ j, (j < n)%nat → P j = true) → first_bad P n = None.
Proof.
  induction n as [|n IH]; intros H; [done|]. cbn.
  rewrite IH by auto with lia. by rewrite H by lia.
Qed.

Lemma first_bad_Some (P : nat → bool) (n j : nat) :
  (j < n)%nat → (∀ j', (j' < j)%nat → P j' = true) → P j = false →
  first_bad P n = Some j.
Proof.
  intros Hj Hpre Hfail. induction n as [|n IH]; [lia|]. cbn.
  destruct (decide (j = n)) as [->|Hne].
  - by rewrite first_bad_None, Hfail.
  - by rewrite IH by lia.
Qed.

Section Functional.
Context (os : OS) (cfg : config).
Implicit Types (m : machine) (r : step unit).

Lemma not_accepted_short j i : recv_full os j = false → accepts os j i = false.
Proof.
  intros H. destruct (accepts os j i) eqn:E; [|done].
  apply accepts_full in E. congruence.
Qed.

Lemma not_accepted_mismatch j i d :
  os_recvfrom os j = Some d → payload_ok os i d = false → accepts os j i = false.
Proof.
  intros E H. unfold accepts. rewrite E, H. apply andb_false_r.
Qed.

Lemma full_of_datagram j d :
  os_recvfrom os j = Some d → (frame_max_size ≤ length d)%nat →
  recv_full os j = true.
Proof.
  intros E H. rewrite (recv_full_length _ _ d E). by apply Nat.leb_le.
Qed.

Lemma tx_shape_expected t0 h0 sa r m :
  tx_shape os cfg t0 h0 sa r m → (r, observe m) = tx_expected os cfg t0 h0 sa.
Proof.
  intros H. unfold tx_expected, observe, refusal.
  destruct H as [j m Hj Hpre Hfail Hend|j m Hs Hj Hpre Hfail Hend
                |j d m Hs Hj Hpre E Hd Hpay Hend|m Hs Hr Hend];
    destruct Hend as (-> & -> & -> & ->).
  - by rewrite (first_bad_Some _ _ j).
  - rewrite first_bad_None, (first_bad_Some _ _ j), Hfail;
      auto using not_accepted_short.
  - rewrite first_bad_None, (first_bad_Some _ _ j), (full_of_datagram j d);
      eauto using not_accepted_mismatch.
  - by rewrite !first_bad_None.
Qed.

Lemma rx_shape_expected t0 h0 sa r m :
  rx_shape os cfg t0 h0 sa r m → (r, observe m) = rx_expected os cfg t0 h0 sa.
Proof.
  intros H. unfold rx_expected, observe, refusal.
  destruct H as [j m Hj Hpre Hfail Hend|j d m Hj Hpre E Hd Hpay Hend
                |j m Hr Hj Hpre Hfail Hend|m Hr Hs Hend];
    destruct Hend as (-> & -> & -> & ->).
  - rewrite (first_bad_Some _ _ j), Hfail; auto using not_accepted_short.
  - rewrite (first_bad_Some _ _ j), (full_of_datagram j d);
      eauto using not_accepted_mismatch.
  - by rewrite first_bad_None, (first_bad_Some _ _ j).
  - by rewrite !first_bad_None.
Qed.

Lemma run_shape_expected (r : step Z) m :
  run_shape os cfg r m → (r, observe m) = run_expected os cfg.
Proof.
  intros H. unfold run_expected.
  destruct H as [m Hm Hend|g m Hm Hfd Hend|g m Hm Hfd Hlen Hend
                |g e m Hm Hfd Hlen Hidx Hend|g idx e m Hm Hfd Hlen Hidx Hhw Hend
                |g idx hw m Hm Hfd Hlen Hidx Hhw Hbind Hend
                |g idx hw r m Hdone Hrole Hr|g idx hw r m Hdone Hrole Hr].
  1-6: destruct Hend as (Hs & Hr & Hc & Ht); unfold observe; rewrite Hs, Hr, Hc, Ht, Hm.
  7-8: destruct Hdone as (Hm & Hfd & Hlen & Hidx & Hhw & Hbind); rewrite Hm.
  1: done.
  all: try (apply Z.ltb_lt in Hfd as Hfd'; rewrite Hfd'; done).
  all: apply Z.ltb_ge in Hfd as Hfd'; rewrite Hfd'.
  1: by apply Nat.leb_le in Hlen as ->.
  all: apply Nat.leb_gt in Hlen as Hlen'; rewrite Hlen', Hidx; try done.
  all: rewrite Hhw; try done.
  1: by apply Z.ltb_lt in Hbind as ->.
  all: apply Z.ltb_ge in Hbind as Hbind'; rewrite Hbind', Hrole; cbv zeta.
  - by rewrite <- (tx_shape_expected _ _ _ _ _ Hr).
  - by rewrite <- (rx_shape_expected _ _ _ _ _ Hr).
Qed.

(** The status and the observations of a run are those of the closed
    form. *)
Theorem main_expected :
  ((main os cfg).1, observe (main os cfg).2) = run_expected os cfg.
Proof. apply run_shape_expected, main_shape. Qed.

Lemma main_status : (main os cfg).1 = (run_expected os cfg).1.
Proof. by rewrite <- main_expected. Qed.

Lemma main_sent : sent (main os cfg).2 = (run_expected os cfg).2.1.1.1.
Proof. by rewrite <- main_expected. Qed.

Lemma main_received : received (main os cfg).2 = (run_expected os cfg).2.1.1.2.
Proof. by rewrite <- main_expected. Qed.

Lemma main_trace : trace (main os cfg).2 = (run_expected os cfg).2.2.
Proof. by rewrite <- main_expected. Qed.
End Functional.


(** * The properties of the protocol engine *)

Section TraceFacts.
Context (os : OS).

Lemma recv_events_snoc k n :
  recv_events os k (S n) =
    recv_events os k n ++ [ev_recvfrom frame_max_size (recv_ret os (k + n))].
Proof. unfold recv_events. by rewrite seq_S, fmap_app. Qed.

Lemma send_events_snoc f0 p0 sa h i k n :
  send_events os f0 p0 sa h i k (S n) =
    send_events os f0 p0 sa h i k n ++ [send_event os f0 p0 sa h i k n].
Proof. unfold send_events. by rewrite seq_S, fmap_app. Qed.

Lemma accepts_payload k i d :
  accepts os k i = true →
  os_recvfrom os k = Some d →
  (frame_max_size ≤ length d)%nat
  ∧ payload_word os 0 d = magic ∧ payload_word os 1 d = i.
Proof.
  unfold accepts, payload_ok. intros H E. rewrite E in H.
  apply andb_prop in H as [Hlen [H0 H1]%andb_prop].
  apply Nat.leb_le in Hlen. apply Z.eqb_eq in H0, H1. done.
Qed.

Lemma payload_bad i d :
  payload_ok os i d = false ↔
  payload_word os 0 d ≠ magic ∨ payload_word os 1 d ≠ i.
Proof.
  unfold payload_ok. rewrite andb_false_iff, !Z.eqb_neq. done.
Qed.
End TraceFacts.

(** Brings the run of [main] and its shape into the context. *)
Ltac run_cases os cfg r m H :=
  pose proof (main_shape os cfg) as H;
  destruct (main os cfg) as [r m]; cbn [fst snd] in *.

Ltac ends :=
  repeat match goal with
  | H : ends_with _ _ _ _ _ |- _ =>
      let Hs := fresh "Hsent" in let Hr := fresh "Hrecv" in
      let Hc := fresh "Hclock" in let Ht := fresh "Htrace" in
      destruct H as (Hs & Hr & Hc & Ht)
  end.

(** C1. In both roles, a full-length frame received at index [i] whose
    payload is not [(magic, i)] ends the run at once: [main] returns -1
    right after that call of [recvfrom] and the diagnostic of the role,
    no further frame is received or sent, and in particular the frame is
    neither accepted nor taken as a new position in the sequence. *)
Theorem sequence_mismatch_is_fatal (os : OS) (cfg : config) (i : nat) (d : list byte) :
  let run := main os cfg in
  (i < received run.2)%nat →
  os_recvfrom os i = Some d →
  (frame_max_size ≤ length d)%nat →
  payload_word os 0 d ≠ magic ∨ payload_word os 1 d ≠ Z.of_nat i →
  run.1 = Return (-1)
  ∧ received run.2 = S i
  ∧ sent run.2 = (if is_transmitter cfg then rounds cfg else 0%nat)
  ∧ ∃ pre, trace run.2 =
      pre ++ [ev_recvfrom frame_max_size (Z.of_nat frame_max_size);
              ev_stderr (mismatch_message cfg (Z.of_nat i))].
Proof.
  cbv zeta. run_cases os cfg r m Hshape. intros Hi E Hd Hbad.
  assert (Hfull : recv_full os i = true).
  { rewrite (recv_full_length _ _ d E). by apply Nat.leb_le. }
  assert (Hnacc : accepts os i (Z.of_nat i) ≠ true).
  { intros Hacc. destruct (accepts_payload _ _ _ _ Hacc E) as (_ & ? & ?).
    destruct Hbad; congruence. }
  unfold mismatch_message.
  assert (Hprefix : ∀ j, (i < S j)%nat →
            (∀ j', (j' < j)%nat → accepts os j' (Z.of_nat j') = true) → i = j).
  { intros j Hij Hpre. destruct (decide (i = j)); [done|].
    exfalso. apply Hnacc, Hpre. lia. }
  destruct Hshape as [| | | | | |g idx hw r m Hdone Hrole Hr|g idx hw r m Hdone Hrole Hr];
    ends; try lia; rewrite Hrole; destruct Hr; ends; try lia.
  - (* transmitter, short receive *)
    assert (i = j) as -> by (apply Hprefix; [lia|done]). congruence.
  - (* transmitter, bad payload *)
    assert (i = j) as -> by (apply Hprefix; [lia|done]).
    repeat split; [done..|].
    rewrite Htrace, recv_events_snoc, (recv_ret_full os (0 + j)) by done.
    rewrite <- !app_assoc. cbn [app]. rewrite !app_assoc. by eexists.
  - (* transmitter, all frames accepted *)
    exfalso. apply Hnacc. auto with lia.
  - (* responder, short receive *)
    assert (i = j) as -> by (apply Hprefix; [lia|done]). congruence.
  - (* responder, bad payload *)
    assert (i = j) as -> by (apply Hprefix; [lia|done]).
    repeat split; [done..|].
    rewrite Htrace, recv_events_snoc, (recv_ret_full os (0 + j)) by done.
    rewrite <- !app_assoc. cbn [app]. rewrite !app_assoc. by eexists.
  - (* responder, short send *)
    exfalso. apply Hnacc. auto with lia.
  - (* responder, done *)
    exfalso. apply Hnacc. auto with lia.
Qed.

(** The run of the laboratory where the second frame the responder
    receives carries the index 7. *)
Lemma sequence_mismatch_is_fatal_witness :
  let os := lab (λ _, 1514)
                (λ k, Some (lab_frame magic (if (k =? 1)%nat then 7 else Z.of_nat k)))
                lab_clock in
  let run := main os (lab_config "eth0" 3 flag_target) in
  ((1 < received run.2)%nat
   ∧ os_recvfrom os 1 = Some (lab_frame magic 7)
   ∧ (frame_max_size ≤ length (lab_frame magic 7))%nat
   ∧ (payload_word os 0 (lab_frame magic 7) ≠ magic
      ∨ payload_word os 1 (lab_frame magic 7) ≠ 1))
  ∧ run.1 = Return (-1) ∧ received run.2 = 2%nat ∧ sent run.2 = 0%nat.
Proof.
  intros os run.
  assert (H1 : (1 < received run.2)%nat)
    by (unfold run; rewrite main_received; lazy; lia).
  assert (H2 : os_recvfrom os 1 = Some (lab_frame magic 7)) by reflexivity.
  assert (H3 : (frame_max_size ≤ length (lab_frame magic 7))%nat)
    by (vm_compute; lia).
  assert (H4 : payload_word os 0 (lab_frame magic 7) ≠ magic
               ∨ payload_word os 1 (lab_frame magic 7) ≠ Z.of_nat 1)
    by (right; vm_compute; discriminate).
  split; [exact (conj H1 (conj H2 (conj H3 H4)))|].
  destruct (sequence_mismatch_is_fatal os (lab_config "eth0" 3 flag_target) 1
              (lab_frame magic 7) H1 H2 H3 H4) as (Hr & Hn & Hs & _).
  exact (conj Hr (conj Hn Hs)).
Defined.

Lemma sendto_full_exact (os : OS) (k : nat) :
  - 2 ^ 63 <= os_sendto os k < 2 ^ 63 →
  sendto_full os k = true → os_sendto os k = Z.of_nat frame_max_size.
Proof.
  unfold sendto_full, size_t_of_ssize_t, u64, frame_max_size, ETH_FRAME_LEN.
  intros Hr H%Z.eqb_eq. destruct (Z.neg_nonneg_cases (os_sendto os k)) as [Hn|Hn].
  - rewrite <- (Z_mod_plus_full _ 1), Z.mod_small in H; lia.
  - rewrite Z.mod_small in H; lia.
Qed.

Lemma recv_short_iff (os : OS) (k : nat) :
  recv_ret os k ≠ Z.of_nat frame_max_size ↔ recv_full os k = false.
Proof.
  split.
  - intros H. destruct (recv_full os k) eqn:E; [|done].
    by apply recv_ret_full in E.
  - intros H E. unfold recv_full in H. rewrite E in H.
    by vm_compute in H.
Qed.

(** C2. In both roles and at every index, a [sendto] or a [recvfrom]
    that returns anything but the length of a whole frame ends the run
    at once: [main] returns -1 right after that call and its diagnostic,
    and the call is not made again. *)
Theorem short_io_is_fatal (os : OS) (cfg : config) (dir : direction) (k : nat) :
  let run := main os cfg in
  (k < calls dir run.2)%nat →
  - 2 ^ 63 <= returned os dir k < 2 ^ 63 →
  returned os dir k ≠ Z.of_nat frame_max_size →
  run.1 = Return (-1)
  ∧ calls dir run.2 = S k
  ∧ ∃ pre e, trace run.2 = pre ++ [e; ev_stderr (short_message dir)]
             ∧ transfer dir (returned os dir k) e.
Proof.
  cbv zeta. run_cases os cfg r m Hshape. intros Hk Hrange Hshort.
  destruct dir; cbn [calls returned short_message] in *.
  - (* sendto *)
    assert (Hnfull : sendto_full os k ≠ true).
    { intros H. by apply sendto_full_exact in H. }
    assert (Hprefix : ∀ j, (k < S j)%nat →
              (∀ j', (j' < j)%nat → sendto_full os j' = true) → k = j).
    { intros j Hkj Hpre. destruct (decide (k = j)); [done|].
      exfalso. apply Hnfull, Hpre. lia. }
    destruct Hshape as [| | | | | |g idx hw r m Hdone Hrole Hr|g idx hw r m Hdone Hrole Hr];
      ends; try lia; destruct Hr; ends; try lia;
      try solve [exfalso; apply Hnfull; auto with lia].
    + assert (k = j) as -> by (apply Hprefix; [lia|done]).
      repeat split; [done..|].
      rewrite Htrace, send_events_snoc.
      rewrite <- !app_assoc. cbn [app]. rewrite !app_assoc.
      by do 2 eexists.
    + assert (k = j) as -> by (apply Hprefix; [lia|done]).
      repeat split; [done..|].
      rewrite Htrace, send_events_snoc.
      rewrite <- !app_assoc. cbn [app]. rewrite !app_assoc.
      by do 2 eexists.
  - (* recvfrom *)
    apply recv_short_iff in Hshort.
    assert (Hnacc : ∀ i, accepts os k i ≠ true).
    { intros i H%accepts_full. congruence. }
    assert (Hprefix : ∀ j, (k < S j)%nat →
              (∀ j', (j' < j)%nat → accepts os j' (Z.of_nat j') = true) → k = j).
    { intros j Hkj Hpre. destruct (decide (k = j)); [done|].
      exfalso. apply (Hnacc (Z.of_nat k)), Hpre. lia. }
    destruct Hshape as [| | | | | |g idx hw r m Hdone Hrole Hr|g idx hw r m Hdone Hrole Hr];
      ends; try lia; destruct Hr; ends; try lia;
      try solve [exfalso; apply (Hnacc (Z.of_nat k)); auto with lia].
    + assert (k = j) as -> by (apply Hprefix; [lia|done]).
      repeat split; [done..|].
      rewrite Htrace, recv_events_snoc.
      rewrite <- !app_assoc. cbn [app]. rewrite !app_assoc.
      by do 2 eexists.
    + assert (k = j) as -> by (apply Hprefix; [lia|done]).
      exfalso. erewrite recv_full_length in Hshort by done.
      apply Nat.leb_gt in Hshort. lia.
    + assert (k = j) as -> by (apply Hprefix; [lia|done]).
      repeat split; [done..|].
      rewrite Htrace, recv_events_snoc.
      rewrite <- !app_assoc. cbn [app]. rewrite !app_assoc.
      by do 2 eexists.
    + assert (k = j) as -> by (apply Hprefix; [lia|done]).
      exfalso. erewrite recv_full_length in Hshort by done.
      apply Nat.leb_gt in Hshort. lia.
Qed.

(** The run of the laboratory where the third [sendto] of the
    transmitter sends 100 octets. *)
Lemma short_io_is_fatal_witness :
  let os := lab (λ k, if (k =? 2)%nat then 100 else 1514) lab_peer lab_clock in
  let run := main os (lab_config "eth0" 5 (Z.lor flag_transmitter flag_target)) in
  ((2 < calls Sending run.2)%nat
   ∧ - 2 ^ 63 <= returned os Sending 2 < 2 ^ 63
   ∧ returned os Sending 2 ≠ Z.of_nat frame_max_size)
  ∧ run.1 = Return (-1) ∧ calls Sending run.2 = 3%nat.
Proof.
  intros os run.
  assert (H1 : (2 < calls Sending run.2)%nat)
    by (unfold run; cbn [calls]; rewrite main_sent; lazy; lia).
  assert (H2 : - 2 ^ 63 <= returned os Sending 2 < 2 ^ 63) by (vm_compute; split; [discriminate|reflexivity]).
  assert (H3 : returned os Sending 2 ≠ Z.of_nat frame_max_size) by (vm_compute; discriminate).
  split; [exact (conj H1 (conj H2 H3))|].
  destruct (short_io_is_fatal os (lab_config "eth0" 5 (Z.lor flag_transmitter flag_target))
              Sending 2 H1 H2 H3) as (Hr & Hn & _).
  exact (conj Hr Hn).
Defined.

(** ** Traces *)

Section TraceShapes.
Context (os : OS).

Lemma Forall_send_events (P : event → Prop) f0 p0 sa h i k n :
  (∀ f sa' r, P (ev_sendto f sa' r)) →
  Forall P (send_events os f0 p0 sa h i k n).
Proof. intros HP. unfold send_events. apply Forall_fmap, Forall_forall. intros j _. apply HP. Qed.

Lemma Forall_recv_events (P : event → Prop) k n :
  (∀ len r, P (ev_recvfrom len r)) →
  Forall P (recv_events os k n).
Proof. intros HP. unfold recv_events. apply Forall_fmap, Forall_forall. intros j _. apply HP. Qed.

Lemma length_send_events f0 p0 sa h i k n :
  length (send_events os f0 p0 sa h i k n) = n.
Proof. unfold send_events. by rewrite length_fmap, length_seq. Qed.

Lemma length_recv_events k n : length (recv_events os k n) = n.
Proof. unfold recv_events. by rewrite length_fmap, length_seq. Qed.
End TraceShapes.

(** Proves that every event of a trace of known shape satisfies a
    decidable test. *)
Ltac trace_all :=
  unfold setup_trace, tx_prologue, rx_prologue;
  repeat first
    [ apply Forall_send_events; intros; reflexivity
    | apply Forall_recv_events; intros; reflexivity
    | apply Forall_nil_2
    | apply Forall_app; split
    | apply Forall_cons; split; [reflexivity|] ].

(** An event that passes a test is not in the part of the trace where
    no event passes it. *)
Lemma prefix_before (P : event → bool) (A S pre post : list event) (e : event) :
  A ++ S = pre ++ e :: post →
  P e = true →
  Forall (λ x, P x = false) A →
  ∃ k, pre = A ++ k ∧ S = k ++ e :: post.
Proof.
  revert pre. induction A as [|a A IH]; intros pre Heq He HA.
  - by exists pre.
  - apply Forall_cons in HA as [Ha HA]. destruct pre as [|b pre]; cbn in Heq.
    + injection Heq as -> _. congruence.
    + injection Heq as -> Heq. destruct (IH pre Heq He HA) as (k & -> & ->).
      by exists k.
Qed.

Lemma not_in_trace (P : event → bool) (t pre post : list event) (e : event) :
  t = pre ++ e :: post →
  P e = true →
  Forall (λ x, P x = false) t →
  False.
Proof.
  intros -> He Ht. apply Forall_app in Ht as [_ Ht].
  apply Forall_cons in Ht as [Ht _]. congruence.
Qed.

(** C8. A run in which a query about the interface fails ends at once
    with the diagnostic of that query and -1, without a single call of
    [sendto] or [recvfrom]; and in every run, a call of [sendto] or
    [recvfrom] comes after both queries have succeeded. *)
Theorem interface_lookup_precedes_io (os : OS) (cfg : config) :
  let run := main os cfg in
  (∀ req name,
     ev_ioctl req name (-1) ∈ trace run.2 →
     run.1 = Return (-1)
     ∧ Forall (λ e, is_io e = false) (trace run.2)
     ∧ sent run.2 = 0%nat ∧ received run.2 = 0%nat
     ∧ ∃ pre errno,
         trace run.2 = pre ++ [ev_ioctl req name (-1);
                               ev_stderr (lookup_message req errno)])
  ∧ (∀ pre e post,
       trace run.2 = pre ++ e :: post →
       is_io e = true →
       ev_ioctl SIOCGIFINDEX (iface cfg) 0 ∈ pre
       ∧ ev_ioctl SIOCGIFHWADDR (iface cfg) 0 ∈ pre).
Proof.
  cbv zeta. run_cases os cfg r m Hshape. split.
  - intros req name Hin.
    assert (Hno : Forall (λ e, is_failed_ioctl e = false) (trace m) → False).
    { intros H. rewrite Forall_forall in H. by apply H in Hin. }
    destruct Hshape as [| | | | | |g idx hw r m Hdone Hrole Hr|g idx hw r m Hdone Hrole Hr];
      ends.
    1-3,6: exfalso; apply Hno; rewrite Htrace; trace_all.
    3,4: destruct Hr; ends; exfalso; apply Hno; rewrite Htrace; trace_all.
    + rewrite Htrace in Hin |- *.
      repeat (apply elem_of_cons in Hin as [Hin|Hin]; [try discriminate|]);
        [|by apply elem_of_nil in Hin].
      injection Hin as -> ->.
      repeat split; [trace_all|done..|].
      by exists [ev_malloc (frame_max_size * 2) true; ev_socket (os_socket os)], errno.
    + rewrite Htrace in Hin |- *.
      repeat (apply elem_of_cons in Hin as [Hin|Hin]; [try discriminate|]);
        [|by apply elem_of_nil in Hin].
      injection Hin as -> ->.
      repeat split; [trace_all|done..|].
      by exists [ev_malloc (frame_max_size * 2) true; ev_socket (os_socket os);
                 ev_ioctl SIOCGIFINDEX (iface cfg) 0], errno.
  - intros pre e post Heq He.
    assert (Hno : Forall (λ e, is_io e = false) (trace m) → False).
    { by apply (not_in_trace is_io _ pre post e). }
    destruct Hshape as [| | | | | |g idx hw r m Hdone Hrole Hr|g idx hw r m Hdone Hrole Hr];
      ends.
    1-6: exfalso; apply Hno; rewrite Htrace; trace_all.
    all: assert (∃ rest, trace m = setup_trace os cfg idx ++ rest) as [rest Hrest]
           by (destruct Hr; ends; eauto).
    all: rewrite Hrest in Heq;
         apply (prefix_before is_io) in Heq as (k & -> & _); [|done|trace_all].
    all: split; apply elem_of_app; left; unfold setup_trace;
         rewrite !elem_of_cons; auto 10.
Qed.

(** The run of the laboratory on an interface that does not exist. *)
Lemma interface_lookup_precedes_io_witness :
  let os := lab (λ _, 1514) lab_peer lab_clock in
  let run := main os (lab_config "wlan9" 4 flag_target) in
  ev_ioctl SIOCGIFINDEX "wlan9" (-1) ∈ trace run.2
  ∧ run.1 = Return (-1) ∧ sent run.2 = 0%nat ∧ received run.2 = 0%nat.
Proof.
  intros os run.
  assert (H : ev_ioctl SIOCGIFINDEX "wlan9" (-1) ∈ trace run.2).
  { assert (Ht : trace run.2 =
              [ev_malloc 3028 true; ev_socket 3; ev_ioctl SIOCGIFINDEX "wlan9" (-1);
               ev_stderr (msg_cannot_obtain_iface_name 19)])
      by (unfold run; rewrite main_trace; reflexivity).
    rewrite Ht, !elem_of_cons. auto. }
  split; [exact H|].
  destruct (proj1 (interface_lookup_precedes_io os (lab_config "wlan9" 4 flag_target))
              SIOCGIFINDEX "wlan9"%string H) as (Hr & _ & Hs & Hn & _).
  exact (conj Hr (conj Hs Hn)).
Defined.

(** ** Frames on the wire *)

Section Frames.
Context (os : OS).
Let bo := os_byte_order os.
Implicit Types (h : list byte) (t : list event).

Lemma sent_frames_app t1 t2 :
  sent_frames (t1 ++ t2) = sent_frames t1 ++ sent_frames t2.
Proof. apply omap_app. Qed.

Lemma sent_frames_send_events sa h n :
  sent_frames (send_events os 0 ETH_HLEN sa h 0 0 n) = out_frame os h <$> seq 0 n.
Proof.
  unfold sent_frames, send_events. generalize (seq 0 n). intros l.
  induction l as [|j l IH]; [done|].
  cbn [fmap list_fmap omap list_omap send_event]. rewrite drop_0. f_equal. apply IH.
Qed.

Lemma sent_frames_recv_events k n : sent_frames (recv_events os k n) = [].
Proof.
  unfold sent_frames, recv_events. generalize (seq 0 n). intros l.
  by induction l.
Qed.

Lemma length_out_frame h k :
  (frame_max_size ≤ length h)%nat → length (out_frame os h k) = frame_max_size.
Proof.
  intros Hh. unfold out_frame. rewrite length_take, stamp_length. lia.
Qed.

Lemma out_frame_eq h k :
  out_frame os h k =
    list_inserts ETH_HLEN (native_bytes bo 4 (u32 magic)
                           ++ native_bytes bo 4 (u32 (Z.of_nat k)))
                 (take frame_max_size h).
Proof.
  unfold out_frame. rewrite stamp_eq. apply take_list_inserts_le.
  rewrite length_app, !native_bytes_length.
  unfold frame_max_size, ETH_FRAME_LEN, ETH_HLEN. lia.
Qed.

(** The header of the frame is the header left by the setup. *)
Lemma out_frame_header h k : take ETH_HLEN (out_frame os h k) = take ETH_HLEN h.
Proof.
  rewrite out_frame_eq, take_list_inserts_ge, take_take by done.
  reflexivity.
Qed.

(** Beyond the first 8 octets of the payload, so is the rest. *)
Lemma out_frame_rest h k :
  drop (ETH_HLEN + 8) (out_frame os h k) = drop (ETH_HLEN + 8) (take frame_max_size h).
Proof.
  rewrite out_frame_eq. apply drop_list_inserts_le.
  by rewrite length_app, !native_bytes_length.
Qed.

Lemma out_frame_words h k :
  (frame_max_size ≤ length h)%nat →
  take 4 (drop ETH_HLEN (out_frame os h k)) = native_bytes bo 4 (u32 magic)
  ∧ take 4 (drop (ETH_HLEN + 4) (out_frame os h k))
    = native_bytes bo 4 (u32 (Z.of_nat k)).
Proof.
  intros Hh. rewrite out_frame_eq.
  assert (Hl : (ETH_HLEN + length (native_bytes bo 4 (u32 magic)
                                    ++ native_bytes bo 4 (u32 (Z.of_nat k)))
                ≤ length (take frame_max_size h))%nat).
  { rewrite length_app, !native_bytes_length, length_take.
    unfold frame_max_size, ETH_FRAME_LEN, ETH_HLEN in *. lia. }
  split.
  - rewrite <- (Nat.add_0_r ETH_HLEN) at 1.
    rewrite read_list_inserts; [|rewrite length_app, !native_bytes_length; lia|done].
    rewrite drop_0. apply take_app_length'. by rewrite native_bytes_length.
  - rewrite read_list_inserts; [|rewrite length_app, !native_bytes_length; lia|done].
    rewrite drop_app_length' by by rewrite native_bytes_length.
    apply take_ge. by rewrite native_bytes_length.
Qed.

(** Read back in the byte order of the processor, the payload of the
    frame starts with [(magic, k)]. *)
Lemma out_frame_payload h k :
  (frame_max_size ≤ length h)%nat →
  payload_word os 0 (out_frame os h k) = magic
  ∧ payload_word os 1 (out_frame os h k) = u32 (Z.of_nat k).
Proof.
  intros Hh. destruct (out_frame_words h k Hh) as [H0 H1].
  unfold payload_word. rewrite Nat.mul_0_r, Nat.add_0_r, H0.
  change (ETH_HLEN + 4 * 1)%nat with (ETH_HLEN + 4)%nat. rewrite H1.
  split; apply native_value_native_bytes; [done|apply u32_range].
Qed.
End Frames.

(** In every run the frames handed to [sendto] are, in order, the frame
    of the setup stamped with the indices 0, 1, 2, ... *)
Lemma run_sent_frames (os : OS) (cfg : config) :
  let run := main os cfg in
  (sent run.2 = 0%nat ∧ sent_frames (trace run.2) = [])
  ∨ ∃ g idx hw,
      setup_done os cfg g idx hw
      ∧ (sent run.2 ≤ rounds cfg)%nat
      ∧ sent_frames (trace run.2)
        = out_frame os (setup_heap os cfg g hw) <$> seq 0 (sent run.2).
Proof.
  cbv zeta. run_cases os cfg r m Hshape.
  destruct Hshape as [| | | | | |g idx hw r m Hdone Hrole Hr|g idx hw r m Hdone Hrole Hr];
    ends.
  1-6: left; split; [done|]; by rewrite Htrace.
  all: right; exists g, idx, hw; split; [done|].
  all: destruct Hr; ends; (split; [lia|]).
  all: rewrite Htrace, Hsent, !sent_frames_app, ?sent_frames_send_events,
         ?sent_frames_recv_events.
  all: by rewrite ?app_nil_r.
Qed.

(** Once the setup has succeeded, the run is the run of a role. *)
Lemma shape_after_setup (os : OS) (cfg : config) g idx hw (r : step Z) (m : machine) :
  setup_done os cfg g idx hw →
  run_shape os cfg r m →
  ∃ r', r = finish r'
    ∧ if is_transmitter cfg
      then tx_shape os cfg (setup_trace os cfg idx) (setup_heap os cfg g hw)
                    (setup_saddr os cfg idx) r' m
      else rx_shape os cfg (setup_trace os cfg idx) (setup_heap os cfg g hw)
                    (setup_saddr os cfg idx) r' m.
Proof.
  intros (Hg & Hfd & Hlen & Hidx & Hhw & Hbind) Hshape.
  destruct Hshape as [| | | | | |g' idx' hw' r m Hdone Hrole Hr|g' idx' hw' r m Hdone Hrole Hr];
    try congruence; try lia.
  - assert (idx0 = idx) as -> by congruence. lia.
  - destruct Hdone as (Hg' & _ & _ & Hidx' & Hhw' & _).
    assert (g' = g) as -> by congruence.
    assert (idx' = idx) as -> by congruence.
    assert (hw' = hw) as -> by congruence.
    exists r. by rewrite Hrole.
  - destruct Hdone as (Hg' & _ & _ & Hidx' & Hhw' & _).
    assert (g' = g) as -> by congruence.
    assert (idx' = idx) as -> by congruence.
    assert (hw' = hw) as -> by congruence.
    exists r. by rewrite Hrole.
Qed.

Lemma rounds_u32 (cfg : config) (i : nat) :
  packet_count cfg < 2 ^ 32 → (i < rounds cfg)%nat → u32 (Z.of_nat i) = Z.of_nat i.
Proof.
  unfold rounds. intros Hpc Hi. apply u32_small. lia.
Qed.

(** C4. The frames the transmitter hands to [sendto] are, in the order
    of the calls, whole frames whose payload starts with the four octets
    of [magic] and the four octets of the index 0, 1, 2, ..., both as
    the processor stores a 32-bit word; when the setup succeeds and no
    [sendto] is short there is one such frame for every index below
    [packet_count]. *)
Theorem transmitter_stamps_each_frame (os : OS) (cfg : config) :
  let run := main os cfg in
  is_transmitter cfg = true →
  packet_count cfg < 2 ^ 32 →
  length (sent_frames (trace run.2)) = sent run.2
  ∧ (sent run.2 ≤ rounds cfg)%nat
  ∧ (∀ i f,
       sent_frames (trace run.2) !! i = Some f →
       length f = frame_max_size
       ∧ take 4 (drop ETH_HLEN f) = native_bytes (os_byte_order os) 4 magic
       ∧ take 4 (drop (ETH_HLEN + 4) f)
         = native_bytes (os_byte_order os) 4 (Z.of_nat i))
  ∧ (∀ g idx hw,
       setup_done os cfg g idx hw →
       (∀ j, (j < rounds cfg)%nat → sendto_full os j = true) →
       sent run.2 = rounds cfg).
Proof.
  cbv zeta. intros Htx Hpc.
  pose proof (run_sent_frames os cfg) as Hframes.
  run_cases os cfg r m Hshape.
  split; [|split; [|split]].
  - destruct Hframes as [[-> ->]|(g & idx & hw & _ & _ & ->)]; [done|].
    by rewrite length_fmap, length_seq.
  - destruct Hframes as [[-> _]|(g & idx & hw & _ & Hle & _)]; [lia|done].
  - intros i f Hf.
    destruct Hframes as [[_ Hnil]|(g & idx & hw & _ & Hle & Heq)];
      [by rewrite Hnil in Hf|].
    rewrite Heq in Hf. apply list_lookup_fmap_Some in Hf as (j & Hf & Hj).
    apply lookup_seq in Hj as [-> Hj]. cbn [Nat.add] in Hf. subst f.
    pose proof (setup_heap_length os cfg g hw) as Hh.
    assert (Hlen : (frame_max_size ≤ length (setup_heap os cfg g hw))%nat) by lia.
    destruct (out_frame_words os _ i Hlen) as [H0 H1].
    rewrite (rounds_u32 cfg) in H1 by (done || lia).
    split; [by apply length_out_frame|]. by split.
  - intros g idx hw Hdone Hfull.
    destruct (shape_after_setup _ _ _ _ _ _ _ Hdone Hshape) as (r' & -> & Hr).
    rewrite Htx in Hr. destruct Hr; ends; try done.
    rewrite Hfull in * by done. discriminate.
Qed.

(** The run of the laboratory where the transmitter sends four frames
    and the peer answers them. *)
Lemma transmitter_stamps_each_frame_witness :
  let os := lab (λ _, 1514) lab_peer lab_clock in
  let cfg := lab_config "eth0" 4 (Z.lor flag_transmitter flag_target) in
  let run := main os cfg in
  (is_transmitter cfg = true ∧ packet_count cfg < 2 ^ 32)
  ∧ length (sent_frames (trace run.2)) = sent run.2
  ∧ (sent run.2 ≤ rounds cfg)%nat.
Proof.
  intros os cfg run.
  assert (H1 : is_transmitter cfg = true) by reflexivity.
  assert (H2 : packet_count cfg < 2 ^ 32) by reflexivity.
  split; [exact (conj H1 H2)|].
  destruct (transmitter_stamps_each_frame os cfg H1 H2) as (Hl & Hs & _).
  exact (conj Hl Hs).
Defined.

(** ** The header *)

Lemma mac_of_length (l : list byte) : length (mac_of l) = ETH_ALEN.
Proof. unfold mac_of. by rewrite length_fmap, length_seq. Qed.

Lemma lookup_mac_of (l : list byte) (i : nat) :
  (i < ETH_ALEN)%nat → mac_of l !! i = Some (l !!! i).
Proof.
  intros Hi. unfold mac_of. by rewrite list_lookup_fmap, lookup_seq_lt.
Qed.

(** The first 14 octets of the buffer after [init_ethhdr_and_saddr]:
    destination, source, protocol. *)
Lemma init_header_octets (bo : byte_order) (tg hw : list byte) (ethhead : nat)
    (h : list byte) :
  (ethhead + ETH_HLEN ≤ length h)%nat →
  take ETH_HLEN (drop ethhead (init_header bo tg hw ethhead h))
  = mac_of tg ++ mac_of hw ++ [x08; x00].
Proof.
  intros Hh. unfold init_header, init_dest, h_proto, h_source, h_dest.
  rewrite h_proto_octets. apply list_eq. intros j.
  rewrite lookup_take, lookup_drop, !lookup_inserts_window, !length_inserts.
  rewrite !mac_of_length. cbn [length].
  pose proof (mac_of_length tg) as Htg. pose proof (mac_of_length hw) as Hhw.
  unfold ETH_HLEN, ETH_ALEN in *.
  assert ((j < 6) ∨ (6 ≤ j < 12) ∨ (12 ≤ j < 14) ∨ (14 ≤ j))%nat
    as [?|[?|[?|?]]] by lia.
  - rewrite lookup_app_l by lia.
    repeat case_decide; try lia. f_equal. lia.
  - rewrite lookup_app_r, lookup_app_l by lia.
    repeat case_decide; try lia. f_equal. lia.
  - rewrite !lookup_app_r by lia.
    repeat case_decide; try lia. f_equal. lia.
  - case_decide; [lia|]. symmetry. apply lookup_ge_None_2.
    rewrite !length_app. cbn [length]. lia.
Qed.

Lemma setup_heap_header (os : OS) (cfg : config) g hw :
  take ETH_HLEN (setup_heap os cfg g hw)
  = mac_of (target cfg) ++ mac_of hw ++ [x08; x00].
Proof.
  unfold setup_heap. rewrite <- (drop_0 (init_header _ _ _ _ _)).
  apply init_header_octets. unfold fresh_heap.
  rewrite length_fmap, length_seq.
  unfold ETH_HLEN, frame_max_size, ETH_FRAME_LEN. lia.
Qed.

(** C3. When both queries about the interface succeed,
    [init_ethhdr_and_saddr] returns true and leaves a frame header whose
    destination is the target, whose source is the hardware address of
    the interface and whose protocol is ETH_P_IP in network order, and a
    socket address whose six octets are those of the destination of the
    header. *)
Theorem header_and_address_bind_the_target (os : OS) (fd : Z) (name : string)
    (namelen : nat) (tg : list byte) (ethhead : nat) (m : machine)
    (idx : Z) (hw : list byte) :
  (namelen < IFNAMSIZ)%nat →
  os_ifindex os (substring 0 namelen name) = ioctl_ok idx →
  os_ifhwaddr os (substring 0 namelen name) = ioctl_ok hw →
  (ethhead + ETH_HLEN ≤ length (heap m))%nat →
  ∃ saddr m',
    init_ethhdr_and_saddr os fd name namelen tg ethhead m = (Next (true, saddr), m')
    ∧ (∀ i, (i < ETH_ALEN)%nat →
         heap m' !! (h_dest ethhead + i)%nat = Some (tg !!! i)
         ∧ heap m' !! (h_source ethhead + i)%nat = Some (hw !!! i)
         ∧ sll_addr saddr !! i = heap m' !! (h_dest ethhead + i)%nat)
    ∧ take 2 (drop (h_proto ethhead) (heap m')) = [x08; x00]
    ∧ native_value (os_byte_order os) (take 2 (drop (h_proto ethhead) (heap m')))
      = htons (os_byte_order os) ETH_P_IP
    ∧ sll_ifindex saddr = idx
    ∧ sll_halen saddr = Z.of_nat ETH_ALEN.
Proof.
  intros Hlen Hidx Hhw Hh. do 2 eexists. split; [by apply init_succeeds|].
  cbn [heap sll_addr sll_ifindex sll_halen init_saddr].
  pose proof (init_header_octets (os_byte_order os) tg hw ethhead (heap m) Hh) as Hoct.
  set (h' := init_header (os_byte_order os) tg hw ethhead (heap m)) in *.
  assert (Hlook : ∀ j, (j < ETH_HLEN)%nat →
            h' !! (ethhead + j)%nat = (mac_of tg ++ mac_of hw ++ [x08; x00]) !! j).
  { intros j Hj. by rewrite <- Hoct, lookup_take_lt, lookup_drop. }
  pose proof (mac_of_length tg) as Htg. pose proof (mac_of_length hw) as Hhwl.
  assert (Hproto : take 2 (drop (h_proto ethhead) h') = [x08; x00]).
  { unfold h_proto. rewrite <- drop_drop, <- (take_drop_take _ _ _ ETH_HLEN) by done.
    rewrite Hoct. change (2 * ETH_ALEN)%nat with (ETH_ALEN + ETH_ALEN)%nat.
    by rewrite <- drop_drop, !drop_app_length' by done. }
  split; [|split; [done|split; [|done]]].
  - intros i Hi. unfold h_dest, h_source.
    rewrite <- Nat.add_assoc, !Hlook by (unfold ETH_HLEN, ETH_ALEN in *; lia).
    rewrite lookup_app_l by lia.
    rewrite lookup_app_r, lookup_app_l by lia.
    rewrite Htg, Nat.add_comm, Nat.add_sub, !lookup_mac_of by done.
    split; [done|split; [done|]].
    rewrite lookup_inserts_window, Htg, length_replicate.
    case_decide as Hc; [by rewrite Nat.sub_0_r, lookup_mac_of|].
    unfold ETH_ALEN in *. lia.
  - rewrite Hproto. by destruct (os_byte_order os).
Qed.

(** [init_ethhdr_and_saddr] on the interface of the laboratory, with the
    header at the start of a block of 64 octets. *)
Lemma header_and_address_bind_the_target_witness :
  let os := lab (λ _, 1514) lab_peer lab_clock in
  let m := Machine (replicate 64 xff) 0 0 0 [] in
  let tg := [x02; x00; x00; x11; x22; x33; x00; x00] in
  ((4 < IFNAMSIZ)%nat
   ∧ os_ifindex os (substring 0 4 "eth0") = ioctl_ok 2
   ∧ os_ifhwaddr os (substring 0 4 "eth0")
     = ioctl_ok [x02; x00; x00; xaa; xbb; xcc; x00; x00; x00; x00; x00; x00; x00; x00]
   ∧ (0 + ETH_HLEN ≤ length (heap m))%nat)
  ∧ ∃ saddr m',
      init_ethhdr_and_saddr os 3 "eth0" 4 tg 0 m = (Next (true, saddr), m')
      ∧ take 2 (drop (h_proto 0) (heap m')) = [x08; x00].
Proof.
  intros os m tg.
  assert (H1 : (4 < IFNAMSIZ)%nat) by (vm_compute; lia).
  assert (H2 : os_ifindex os (substring 0 4 "eth0") = ioctl_ok 2) by reflexivity.
  assert (H3 : os_ifhwaddr os (substring 0 4 "eth0")
               = ioctl_ok [x02; x00; x00; xaa; xbb; xcc; x00; x00; x00; x00; x00; x00; x00; x00])
    by reflexivity.
  assert (H4 : (0 + ETH_HLEN ≤ length (heap m))%nat) by (vm_compute; lia).
  split; [exact (conj H1 (conj H2 (conj H3 H4)))|].
  destruct (header_and_address_bind_the_target os 3 "eth0" 4 tg 0 m 2 _ H1 H2 H3 H4)
    as (saddr & m' & Hrun & _ & Hproto & _).
  exists saddr, m'. exact (conj Hrun Hproto).
Defined.

(** ** What a sending loop changes *)

Lemma stamp_frame (os : OS) (p0 : nat) (i : Z) (h : list byte) :
  take p0 (stamp os p0 i h) = take p0 h
  ∧ drop (p0 + 8) (stamp os p0 i h) = drop (p0 + 8) h.
Proof.
  rewrite stamp_eq. split.
  - by apply take_list_inserts_ge.
  - apply drop_list_inserts_le. by rewrite length_app, !native_bytes_length.
Qed.

(** C9. A sending loop, run for any number of iterations from any state,
    leaves every octet of the block as it was except the first 8 octets
    of the payload of the outgoing frame; so every frame that a run of
    either role hands to [sendto] has the header written by the setup
    (destination, source, protocol) and, after those 8 octets, the
    contents the block had when the setup ended. *)
Theorem send_loop_changes_only_the_stamp (os : OS) (cfg : config)
    (g : nat → byte) (idx : Z) (hw : list byte) :
  setup_done os cfg g idx hw →
  (∀ fd sa i n m,
     let after := for_range i n (send_step os fd 0 ETH_HLEN sa) m in
     length (heap after.2) = length (heap m)
     ∧ take ETH_HLEN (heap after.2) = take ETH_HLEN (heap m)
     ∧ drop (ETH_HLEN + 8) (heap after.2) = drop (ETH_HLEN + 8) (heap m))
  ∧ (∀ k f,
       sent_frames (trace (main os cfg).2) !! k = Some f →
       take ETH_HLEN f = mac_of (target cfg) ++ mac_of hw ++ [x08; x00]
       ∧ drop (ETH_HLEN + 8) f
         = drop (ETH_HLEN + 8) (take frame_max_size (setup_heap os cfg g hw))).
Proof.
  intros Hdone. split.
  - intros fd sa i n m. cbv zeta.
    destruct (first_failure (λ j, sendto_full os (sent m + j)) n)
      as [Hs|(j & Hj & Hpre & Hfail)].
    + rewrite send_loop_done by done. cbn [snd heap].
      destruct n as [|n]; [done|]. cbn [stamps].
      rewrite stamp_length. split; [done|]. apply stamp_frame.
    + rewrite (send_loop_fail _ _ _ _ _ _ j) by done. cbn [snd heap].
      rewrite stamp_length. split; [done|]. apply stamp_frame.
  - intros k f Hf.
    destruct (run_sent_frames os cfg) as [[_ Hnil]|(g' & idx' & hw' & Hdone' & _ & Heq)];
      [by rewrite Hnil in Hf|].
    assert (g' = g ∧ hw' = hw) as [-> ->].
    { destruct Hdone as (Hg & _ & _ & _ & Hhw & _).
      destruct Hdone' as (Hg' & _ & _ & _ & Hhw' & _). split; congruence. }
    rewrite Heq in Hf. apply list_lookup_fmap_Some in Hf as (j & -> & _).
    rewrite out_frame_header, out_frame_rest. split; [|done].
    apply setup_heap_header.
Qed.

(** The run of the laboratory where the responder receives and sends
    three frames. *)
Lemma send_loop_changes_only_the_stamp_witness :
  let os := lab (λ _, 1514) lab_peer lab_clock in
  let cfg := lab_config "eth0" 3 flag_target in
  let hw := [x02; x00; x00; xaa; xbb; xcc; x00; x00; x00; x00; x00; x00; x00; x00] in
  setup_done os cfg (λ _, x00) 2 hw
  ∧ ∀ k f,
      sent_frames (trace (main os cfg).2) !! k = Some f →
      take ETH_HLEN f = mac_of (target cfg) ++ mac_of hw ++ [x08; x00].
Proof.
  intros os cfg hw.
  assert (H : setup_done os cfg (λ _, x00) 2 hw).
  { repeat split; try reflexivity; vm_compute; (lia || discriminate). }
  split; [exact H|].
  intros k f Hf.
  exact (proj1 (proj2 (send_loop_changes_only_the_stamp os cfg _ 2 hw H) k f Hf)).
Defined.

(** ** Counting the calls of [recvfrom] in a trace *)

Lemma recv_count_app (t1 t2 : list event) :
  recv_count (t1 ++ t2) = (recv_count t1 + recv_count t2)%nat.
Proof. unfold recv_count. by rewrite List.filter_app, length_app. Qed.

Lemma recv_count_none (t : list event) :
  Forall (λ e, is_recvfrom e = false) t → recv_count t = 0%nat.
Proof.
  unfold recv_count. induction 1 as [|e t He _ IH]; [done|].
  cbn [List.filter]. by rewrite He.
Qed.

Lemma recv_count_recv_events (os : OS) (k n : nat) :
  recv_count (recv_events os k n) = n.
Proof.
  unfold recv_count, recv_events.
  assert (H : ∀ l, length (List.filter is_recvfrom (recv_event os k <$> l)) = length l).
  { intros l. induction l as [|j l IH]; [done|]. cbn. by rewrite IH. }
  by rewrite H, length_seq.
Qed.

(** C5. The responder makes no call of [sendto] before it has received
    and accepted [packet_count] frames with payloads [(magic, 0)],
    [(magic, 1)], ..., and no call of [recvfrom] after its first
    [sendto]; the frames it sends carry [(magic, 0)], [(magic, 1)], ...;
    when the setup succeeds, the peer's frames are accepted and no
    [sendto] is short, it receives and then sends exactly
    [packet_count] frames and returns 0; and it never reads the clock
    nor prints statistics. *)
Theorem responder_receives_then_sends (os : OS) (cfg : config) :
  let run := main os cfg in
  is_transmitter cfg = false →
  packet_count cfg < 2 ^ 32 →
  (∀ pre e post,
     trace run.2 = pre ++ e :: post →
     is_sendto e = true →
     recv_count pre = rounds cfg
     ∧ (∀ j, (j < rounds cfg)%nat → accepts os j (Z.of_nat j) = true)
     ∧ Forall (λ x, is_recvfrom x = false) post)
  ∧ (∀ k f,
       sent_frames (trace run.2) !! k = Some f →
       length f = frame_max_size
       ∧ payload_word os 0 f = magic ∧ payload_word os 1 f = Z.of_nat k)
  ∧ (sent run.2 ≤ rounds cfg ∧ received run.2 ≤ rounds cfg)%nat
  ∧ (∀ g idx hw,
       setup_done os cfg g idx hw →
       (∀ j, (j < rounds cfg)%nat → accepts os j (Z.of_nat j) = true) →
       (∀ j, (j < rounds cfg)%nat → sendto_full os j = true) →
       run.1 = Next 0 ∧ received run.2 = rounds cfg ∧ sent run.2 = rounds cfg)
  ∧ Forall (λ e, is_timing e = false) (trace run.2).
Proof.
  cbv zeta. intros Hrx Hpc.
  pose proof (run_sent_frames os cfg) as Hframes.
  run_cases os cfg r m Hshape.
  split; [|split; [|split; [|split]]].
  - intros pre e post Heq He.
    assert (Hno : Forall (λ e, is_sendto e = false) (trace m) → False).
    { by apply (not_in_trace is_sendto _ pre post e). }
    destruct Hshape as [| | | | | |g idx hw r m Hdone Hrole Hr|g idx hw r m Hdone Hrole Hr];
      ends; [exfalso; apply Hno; rewrite Htrace; trace_all..|congruence|].
    destruct Hr; ends;
      [exfalso; apply Hno; rewrite Htrace; trace_all..| |].
    + rewrite Htrace, !app_assoc, <- (app_assoc _ (send_events _ _ _ _ _ _ _ _)) in Heq.
      apply (prefix_before is_sendto) in Heq as (k & -> & Hk); [|done|trace_all].
      assert (Hnr : Forall (λ x, is_recvfrom x = false) (k ++ e :: post)).
      { rewrite <- Hk. trace_all. }
      apply Forall_app in Hnr as [Hnk Hnp]. apply Forall_cons in Hnp as [_ Hnp].
      split; [|by split].
      rewrite !recv_count_app, recv_count_recv_events, (recv_count_none k) by done.
      rewrite !recv_count_none by trace_all. lia.
    + rewrite Htrace, !app_assoc in Heq.
      apply (prefix_before is_sendto) in Heq as (k & -> & Hk); [|done|trace_all].
      assert (Hnr : Forall (λ x, is_recvfrom x = false) (k ++ e :: post)).
      { rewrite <- Hk. trace_all. }
      apply Forall_app in Hnr as [Hnk Hnp]. apply Forall_cons in Hnp as [_ Hnp].
      split; [|by split].
      rewrite !recv_count_app, recv_count_recv_events, (recv_count_none k) by done.
      rewrite !recv_count_none by trace_all. lia.
  - intros k f Hf.
    destruct Hframes as [[_ Hnil]|(g & idx & hw & _ & Hle & Heq)];
      [by rewrite Hnil in Hf|].
    rewrite Heq in Hf. apply list_lookup_fmap_Some in Hf as (j & Hf & Hj).
    apply lookup_seq in Hj as [-> Hj]. cbn [Nat.add] in Hf. subst f.
    pose proof (setup_heap_length os cfg g hw) as Hh.
    assert (Hlen : (frame_max_size ≤ length (setup_heap os cfg g hw))%nat) by lia.
    destruct (out_frame_payload os _ k Hlen) as [H0 H1].
    rewrite (rounds_u32 cfg) in H1 by (done || lia).
    split; [by apply length_out_frame|]. by split.
  - destruct Hshape as [| | | | | |g idx hw r m Hdone Hrole Hr|g idx hw r m Hdone Hrole Hr];
      ends; try lia; destruct Hr; ends; lia.
  - intros g idx hw Hdone Hacc Hfull.
    destruct (shape_after_setup _ _ _ _ _ _ _ Hdone Hshape) as (r' & -> & Hr).
    rewrite Hrx in Hr.
    destruct Hr as [j m Hj Hpre Hfail Hend|j d m Hj Hpre E Hd Hpay Hend
                   |j m Hacc' Hj Hpre Hfail Hend|m Hacc' Hfull' Hend]; ends.
    + pose proof (accepts_full _ _ _ (Hacc j Hj)). congruence.
    + destruct (accepts_payload _ _ _ _ (Hacc j Hj) E) as (_ & H0 & H1).
      apply payload_bad in Hpay. destruct Hpay; congruence.
    + rewrite Hfull in Hfail by done. discriminate.
    + done.
  - destruct Hshape as [| | | | | |g idx hw r m Hdone Hrole Hr|g idx hw r m Hdone Hrole Hr];
      ends; [rewrite Htrace; trace_all..|congruence|].
    destruct Hr; ends; rewrite Htrace; trace_all.
Qed.

(** ** Exact products of doubles *)

Section Digits.
Implicit Types (p n : positive) (d j k e : Z).

Lemma digits_size p : digits2_pos p = Pos.size p.
Proof. induction p as [p IH|p IH|]; cbn; by rewrite ?IH. Qed.

Lemma digits_bounds p :
  2 ^ (Zpos (digits2_pos p) - 1) <= Zpos p < 2 ^ Zpos (digits2_pos p).
Proof.
  rewrite digits_size. split.
  - pose proof (Pos.size_le p) as H.
    apply Pos2Z.pos_le_pos in H. rewrite Pos2Z.inj_pow in H.
    replace (Zpos (Pos.size p)) with (Z.succ (Zpos (Pos.size p) - 1)) in H by lia.
    rewrite Z.pow_succ_r in H by lia. change (Zpos p~0) with (2 * Zpos p) in H. lia.
  - pose proof (Pos.size_gt p) as H.
    apply Pos2Z.pos_lt_pos in H. by rewrite Pos2Z.inj_pow in H.
Qed.

Lemma digits_unique p d :
  2 ^ (d - 1) <= Zpos p < 2 ^ d → Zpos (digits2_pos p) = d.
Proof.
  intros [Hlo Hhi]. destruct (digits_bounds p) as [Hlo' Hhi'].
  assert (0 < d).
  { destruct (Z.lt_ge_cases 0 d); [done|].
    assert (2 ^ d <= 2 ^ 0) by (destruct (Z.eq_dec d 0) as [->|];
      [done|rewrite Z.pow_neg_r by lia; done]). cbn in *. lia. }
  assert (Zpos (digits2_pos p) - 1 < d).
  { apply (Z.pow_lt_mono_r_iff 2); lia. }
  assert (d - 1 < Zpos (digits2_pos p)).
  { apply (Z.pow_lt_mono_r_iff 2); lia. }
  lia.
Qed.

Lemma digits_le p j : Zpos p < 2 ^ j → Zpos (digits2_pos p) <= j.
Proof.
  intros H. destruct (digits_bounds p) as [Hlo _].
  destruct (Z.lt_ge_cases j 0) as [Hj|Hj]; [rewrite Z.pow_neg_r in H; lia|].
  assert (Zpos (digits2_pos p) - 1 < j) by (apply (Z.pow_lt_mono_r_iff 2); lia).
  lia.
Qed.

Lemma digits_shift p j :
  0 <= j →
  Zpos (digits2_pos (Z.to_pos (Zpos p * 2 ^ j))) = Zpos (digits2_pos p) + j.
Proof.
  intros Hj. destruct (digits_bounds p) as [Hlo Hhi].
  assert (0 < 2 ^ j) by (apply Z.pow_pos_nonneg; lia).
  apply digits_unique. rewrite Z2Pos.id by lia.
  replace (Zpos (digits2_pos p) + j - 1) with (Zpos (digits2_pos p) - 1 + j) by lia.
  rewrite !Z.pow_add_r by lia. split.
  - apply Z.mul_le_mono_nonneg_r; lia.
  - apply Z.mul_lt_mono_pos_r; lia.
Qed.

Lemma digits_mul p n :
  Zpos (digits2_pos p) + Zpos (digits2_pos n) - 1 <= Zpos (digits2_pos (p * n)).
Proof.
  destruct (digits_bounds p) as [Hp _]. destruct (digits_bounds n) as [Hn _].
  destruct (digits_bounds (p * n)) as [_ Hpn]. rewrite Pos2Z.inj_mul in Hpn.
  assert (0 < 2 ^ (Zpos (digits2_pos p) - 1)) by (apply Z.pow_pos_nonneg; lia).
  assert (0 < 2 ^ (Zpos (digits2_pos n) - 1)) by (apply Z.pow_pos_nonneg; lia).
  assert (2 ^ (Zpos (digits2_pos p) - 1 + (Zpos (digits2_pos n) - 1))
          < 2 ^ Zpos (digits2_pos (p * n))).
  { rewrite Z.pow_add_r by lia. nia. }
  assert (Zpos (digits2_pos p) - 1 + (Zpos (digits2_pos n) - 1)
          < Zpos (digits2_pos (p * n))) by (apply (Z.pow_lt_mono_r_iff 2); lia).
  lia.
Qed.

Lemma iter_xO p (k : positive) :
  Zpos (Pos.iter xO p k) = Zpos p * 2 ^ Zpos k.
Proof.
  induction k as [|k IH] using Pos.peano_ind.
  - cbn. lia.
  - rewrite Pos.iter_succ, Pos2Z.inj_succ, Z.pow_succ_r by lia.
    change (Zpos (Pos.iter xO p k)~0) with (2 * Zpos (Pos.iter xO p k)). lia.
Qed.
End Digits.

Section Rounding.
Implicit Types (m n : positive) (e k : Z) (s : bool).

Lemma iter_pos_nat {A} (f : A → A) (p : positive) (x : A) :
  SpecFloat.iter_pos f p x = Nat.iter (Pos.to_nat p) f x.
Proof.
  revert x. induction p as [p IH|p IH|]; intros x; cbn [SpecFloat.iter_pos].
  - rewrite !IH, Pos2Nat.inj_xI, <- Nat.iter_add, <- Nat.iter_succ_r.
    f_equal. lia.
  - rewrite !IH, Pos2Nat.inj_xO, <- Nat.iter_add. f_equal. lia.
  - done.
Qed.

Lemma shr_1_even (M : Z) :
  0 < M →
  shr_1 (Build_shr_record (2 * M) false false) = Build_shr_record M false false.
Proof. by destruct M. Qed.

Lemma iter_shr_1 (j : nat) (M : Z) :
  0 < M →
  Nat.iter j shr_1 (Build_shr_record (M * 2 ^ Z.of_nat j) false false)
  = Build_shr_record M false false.
Proof.
  revert M. induction j as [|j IH]; intros M HM.
  - cbn. by rewrite Z.mul_1_r.
  - rewrite Nat2Z.inj_succ, Z.pow_succ_r, Nat.iter_succ by lia.
    replace (M * (2 * 2 ^ Z.of_nat j)) with (2 * M * 2 ^ Z.of_nat j) by lia.
    rewrite IH by lia. by apply shr_1_even.
Qed.

(** Shifting out [k] zero bits is exact. *)
Lemma shr_exact (M : Z) e k :
  0 < M → 0 <= k →
  shr (Build_shr_record (M * 2 ^ k) false false) e k
  = (Build_shr_record M false false, e + k).
Proof.
  intros HM Hk. destruct k as [|k|k]; [| |lia].
  - cbn. by rewrite Z.mul_1_r, Z.add_0_r.
  - cbn [shr]. rewrite iter_pos_nat. f_equal.
    rewrite <- (iter_shr_1 (Pos.to_nat k) M HM). by rewrite positive_nat_Z.
Qed.

(** A mantissa of 53 digits followed by [k] zero bits is rounded to
    that mantissa. *)
Lemma round_exact_shift s m e k :
  Zpos (digits2_pos m) = dprec →
  0 <= k →
  -1074 <= e + k <= 971 →
  binary_round_aux dprec demax s (Zpos m * 2 ^ k) e loc_Exact
  = S754_finite s m (e + k).
Proof.
  intros Hd Hk He.
  assert (Hfe : ∀ e', -1074 <= e' → fexp dprec demax (dprec + e') - e' = 0).
  { intros e' He'. unfold fexp, emin, dprec, demax. lia. }
  assert (H2 : shr_fexp dprec demax (Zpos m) (e + k) loc_Exact
               = (Build_shr_record (Zpos m) false false, e + k)).
  { unfold shr_fexp. cbn [Zdigits2 shr_record_of_loc]. rewrite Hd, Hfe by lia. done. }
  assert (H1 : shr_fexp dprec demax (Zpos m * 2 ^ k) e loc_Exact
               = (Build_shr_record (Zpos m) false false, e + k)).
  { unfold shr_fexp. cbn [shr_record_of_loc].
    assert (0 < 2 ^ k) by (apply Z.pow_pos_nonneg; lia).
    replace (Zdigits2 (Zpos m * 2 ^ k)) with (dprec + k).
    2: { rewrite <- Hd, <- digits_shift by done.
         destruct (Zpos m * 2 ^ k) eqn:E; try lia. by rewrite Pos2Z.id. }
    replace (fexp dprec demax (dprec + k + e) - e) with k.
    2: { unfold fexp, emin, dprec, demax. lia. }
    by apply shr_exact. }
  unfold binary_round_aux. rewrite H1. cbn [shr_m loc_of_shr_record round_nearest_even].
  rewrite H2. cbn [shr_m].
  replace (e + k <=? demax - dprec) with true; [done|].
  symmetry. apply Z.leb_le. unfold demax, dprec. lia.
Qed.

Lemma canon_digits n :
  Zpos (digits2_pos n) <= dprec →
  Zpos (digits2_pos (Z.to_pos (Zpos n * 2 ^ (dprec - Zpos (digits2_pos n))))) = dprec.
Proof. intros Hd. rewrite digits_shift by lia. lia. Qed.

(** Converting an integer of at most 53 digits to a double is exact. *)
Lemma double_of_Z_canon n :
  Zpos (digits2_pos n) <= dprec → double_of_Z (Zpos n) = canon n.
Proof.
  intros Hd. unfold double_of_Z, binary_normalize, binary_round, canon.
  set (d := Zpos (digits2_pos n)) in *.
  assert (Hfexp : fexp dprec demax (d + 0) = d - dprec).
  { unfold fexp, emin, dprec, demax in *. lia. }
  rewrite Hfexp. unfold shl_align. rewrite Z.sub_0_r.
  assert (0 < 2 ^ (dprec - d)) by (apply Z.pow_pos_nonneg; lia).
  destruct (d - dprec) as [|q|q] eqn:E; [|lia|].
  - replace (dprec - d) with 0 by lia. rewrite Z.mul_1_r, Pos2Z.id.
    rewrite <- (Z.add_0_r 0) at 1. rewrite <- (Z.mul_1_r (Zpos n)) at 1.
    change 1 with (2 ^ 0) at 1. apply round_exact_shift; unfold dprec in *; lia.
  - replace (dprec - d) with (Zpos q) by lia.
    rewrite <- iter_xO, Pos2Z.id.
    rewrite <- (Z.add_0_r (Zneg q)), <- (Z.mul_1_r (Zpos _)).
    change 1 with (2 ^ 0) at 1. apply round_exact_shift; [|lia|unfold dprec in *; lia].
    pose proof (canon_digits n Hd) as Hc. fold d in Hc.
    replace (dprec - d) with (Zpos q) in Hc by lia.
    by rewrite <- iter_xO, Pos2Z.id in Hc.
Qed.

(** The product of two such doubles is exact when it has at most 53
    digits. *)
Lemma dmul_canon n1 n2 :
  Zpos (digits2_pos (n1 * n2)) <= dprec →
  dmul (canon n1) (canon n2) = canon (n1 * n2)%positive.
Proof.
  intros Hd. unfold dmul, canon, SFmul. cbn [xorb].
  pose proof (digits_mul n1 n2) as Hmul.
  destruct (digits_bounds n1) as [_ Hb1]. destruct (digits_bounds n2) as [_ Hb2].
  set (d1 := Zpos (digits2_pos n1)) in *. set (d2 := Zpos (digits2_pos n2)) in *.
  set (d := Zpos (digits2_pos (n1 * n2))) in *.
  assert (Hd1 : 0 < d1) by done. assert (Hd2 : 0 < d2) by done.
  assert (Hle1 : d1 <= d).
  { apply digits_le. destruct (digits_bounds (n1 * n2)) as [_ H].
    fold d in H. rewrite Pos2Z.inj_mul in H. nia. }
  assert (Hle2 : d2 <= d).
  { apply digits_le. destruct (digits_bounds (n1 * n2)) as [_ H].
    fold d in H. rewrite Pos2Z.inj_mul in H. nia. }
  set (k := d + dprec - d1 - d2).
  assert (Hp1 : 0 < 2 ^ (dprec - d1)) by (apply Z.pow_pos_nonneg; lia).
  assert (Hp2 : 0 < 2 ^ (dprec - d2)) by (apply Z.pow_pos_nonneg; lia).
  assert (Hp : 0 < 2 ^ (dprec - d)) by (apply Z.pow_pos_nonneg; lia).
  replace (Zpos (Z.to_pos (Zpos n1 * 2 ^ (dprec - d1))
                 * Z.to_pos (Zpos n2 * 2 ^ (dprec - d2))))
    with (Zpos (Z.to_pos (Zpos (n1 * n2) * 2 ^ (dprec - d))) * 2 ^ k).
  2: { rewrite !Pos2Z.inj_mul, !Z2Pos.id by (apply Z.mul_pos_pos; lia).
       replace (dprec - d1) with (dprec - d + (d - d1)) by lia.
       replace (dprec - d2) with (k - (d - d1)) by lia.
       replace k with ((d - d1) + (k - (d - d1))) at 1 by lia.
       rewrite !Z.pow_add_r by (unfold k, dprec in *; lia). ring. }
  replace (d - dprec) with (d1 - dprec + (d2 - dprec) + k) by lia.
  apply round_exact_shift; [by apply canon_digits|..]; unfold k, dprec in *; lia.
Qed.

Lemma integer_value_canon n :
  Zpos (digits2_pos n) <= dprec → integer_value (canon n) = Some (Zpos n).
Proof.
  intros Hd. unfold canon, integer_value. cbn [cond_Zopp].
  set (d := Zpos (digits2_pos n)) in *.
  assert (0 < 2 ^ (dprec - d)) by (apply Z.pow_pos_nonneg; lia).
  rewrite Z2Pos.id by lia.
  destruct (Z.leb_spec 0 (d - dprec)).
  - replace (dprec - d) with 0 by lia. replace (d - dprec) with 0 by lia.
    f_equal. lia.
  - replace (- (d - dprec)) with (dprec - d) by lia.
    rewrite Z.mod_mul, Z.div_mul by lia. done.
Qed.
End Rounding.

(** The number of octets the transmitter reports is exactly twice the
    payload size times the number of packets. *)
Lemma transceived_exact (cfg : config) :
  0 < packet_count cfg < 2 ^ 32 →
  integer_value (transceived cfg)
  = Some (2 * Z.of_nat packet_size * packet_count cfg).
Proof.
  intros [Hlo Hhi]. unfold transceived.
  destruct (packet_count cfg) as [|pc|pc] eqn:E; try lia.
  change (Z.of_nat packet_size) with (Zpos 1500).
  change two_point_0 with (canon 2).
  assert (H1 : Zpos (digits2_pos (1500 * pc)) <= dprec).
  { apply digits_le. rewrite Pos2Z.inj_mul. unfold dprec. lia. }
  assert (H2 : Zpos (digits2_pos (1500 * pc * 2)) <= dprec).
  { apply digits_le. rewrite !Pos2Z.inj_mul. unfold dprec. lia. }
  rewrite !double_of_Z_canon, !dmul_canon, integer_value_canon; try done.
  - f_equal. lia.
  - apply digits_le. unfold dprec. lia.
Qed.

(** The run of the laboratory where the responder receives and then
    sends three frames. *)
Lemma responder_receives_then_sends_witness :
  let os := lab (λ _, 1514) lab_peer lab_clock in
  let cfg := lab_config "eth0" 3 flag_target in
  let run := main os cfg in
  (is_transmitter cfg = false ∧ packet_count cfg < 2 ^ 32)
  ∧ (sent run.2 ≤ rounds cfg ∧ received run.2 ≤ rounds cfg)%nat
  ∧ Forall (λ e, is_timing e = false) (trace run.2).
Proof.
  intros os cfg run.
  assert (H1 : is_transmitter cfg = false) by reflexivity.
  assert (H2 : packet_count cfg < 2 ^ 32) by reflexivity.
  split; [exact (conj H1 H2)|].
  destruct (responder_receives_then_sends os cfg H1 H2) as (_ & _ & Hle & _ & Ht).
  exact (conj Hle Ht).
Defined.

(** ** The report of the transmitter *)

(** A transmitter that returns 0 has sent and received every frame, read
    the clock twice and printed its report last. *)
Lemma transmitter_completed (os : OS) (cfg : config) :
  let run := main os cfg in
  is_transmitter cfg = true →
  run.1 = Next 0 →
  ∃ g idx hw,
    setup_done os cfg g idx hw
    ∧ ends_with run.2 (rounds cfg) (rounds cfg) 2
        (setup_trace os cfg idx ++ tx_prologue os cfg
         ++ sends os cfg g idx hw (rounds cfg) ++ recvs os (rounds cfg)
         ++ [ev_clock_gettime (os_clock os 1); ev_stdout (report_message os cfg)]).
Proof.
  cbv zeta. run_cases os cfg r m Hshape. intros Htx Hr.
  destruct Hshape as [| | | | | |g idx hw r m Hdone Hrole Hs|g idx hw r m Hdone Hrole Hs];
    try discriminate; [|congruence].
  exists g, idx, hw. split; [done|].
  by destruct Hs; try discriminate.
Qed.

(** C6. When a transmitter has completed both phases, the number of
    octets it prints as transceived is exactly twice the payload size
    times [packet_count]: 3000000 for 1000 packets of 1500 octets.  The
    figure is the last thing printed whenever the measured duration is
    not zero. *)
Theorem transceived_is_exact (os : OS) (cfg : config) :
  let run := main os cfg in
  is_transmitter cfg = true →
  0 < packet_count cfg < 2 ^ 32 →
  run.1 = Next 0 →
  (∀ s bytes bandwidth,
     ev_stdout (msg_statistics s bytes bandwidth) ∈ trace run.2 →
     integer_value bytes = Some (2 * Z.of_nat packet_size * packet_count cfg)
     ∧ (packet_count cfg = 1000 → integer_value bytes = Some 3000000))
  ∧ (elapsed os ≠ 0 →
     ∃ s bytes bandwidth,
       last (trace run.2) = Some (ev_stdout (msg_statistics s bytes bandwidth))).
Proof.
  cbv zeta. intros Htx Hpc Hr.
  destruct (transmitter_completed os cfg Htx Hr)
    as (g & idx & hw & Hdone & _ & _ & _ & Htrace).
  split.
  - intros s bytes bandwidth Hin.
    assert (Hbytes : bytes = transceived cfg).
    { rewrite Htrace, !app_assoc in Hin.
      apply elem_of_app in Hin as [Hin|Hin].
      - exfalso.
        assert (Hno : Forall (λ e, is_statistics e = false)
                  ((((setup_trace os cfg idx ++ tx_prologue os cfg)
                     ++ sends os cfg g idx hw (rounds cfg)) ++ recvs os (rounds cfg))))
          by (unfold sends, recvs; trace_all).
        rewrite Forall_forall in Hno. by apply Hno in Hin.
      - rewrite !elem_of_cons in Hin.
        destruct Hin as [Hin|[Hin|Hin]]; [discriminate| |by apply elem_of_nil in Hin].
        unfold report_message in Hin. destruct (0 =? elapsed os); [discriminate|].
        by injection Hin as _ -> _. }
    subst bytes. rewrite transceived_exact by done.
    split; [done|]. intros ->. reflexivity.
  - intros Hdt. rewrite Htrace, !app_assoc, last_app_cons, last_cons_cons, last_singleton.
    unfold report_message. apply Z.eqb_neq in Hdt.
    rewrite Z.eqb_sym, Hdt. by do 3 eexists.
Qed.

(** The figure printed for 1000 packets. *)
Example transceived_1000 :
  integer_value (transceived (lab_config "eth0" 1000 (Z.lor flag_transmitter flag_target)))
  = Some 3000000.
Proof. by vm_compute. Qed.

(** A round trip of four frames in the laboratory. *)
Lemma transceived_is_exact_witness :
  let os := lab (λ _, 1514) lab_peer lab_clock in
  let cfg := lab_config "eth0" 4 (Z.lor flag_transmitter flag_target) in
  let run := main os cfg in
  (is_transmitter cfg = true ∧ 0 < packet_count cfg < 2 ^ 32 ∧ run.1 = Next 0)
  ∧ ∃ s bytes bandwidth,
      last (trace run.2) = Some (ev_stdout (msg_statistics s bytes bandwidth))
      ∧ integer_value bytes = Some 12000.
Proof.
  intros os cfg run.
  assert (H1 : is_transmitter cfg = true) by reflexivity.
  assert (H2 : 0 < packet_count cfg < 2 ^ 32) by (split; reflexivity).
  assert (H3 : run.1 = Next 0) by (unfold run; rewrite main_status; reflexivity).
  split; [exact (conj H1 (conj H2 H3))|].
  destruct (transceived_is_exact os cfg H1 H2 H3) as [Hall Hlast].
  assert (Hdt : elapsed os ≠ 0) by (vm_compute; discriminate).
  destruct (Hlast Hdt) as (s & bytes & bandwidth & Hl).
  exists s, bytes, bandwidth. split; [exact Hl|].
  apply (Hall s bytes bandwidth).
  apply last_Some_elem_of. exact Hl.
Defined.

(** C7. A transmitter that has completed both phases read the clock
    once before its first [sendto] and once after its last [recvfrom].
    If the two readings give a duration of zero it prints "session
    failed" and no statistics at all; otherwise it prints, as bandwidth,
    the quotient of the octets transceived by the duration in seconds. *)
Theorem zero_duration_reports_session_failed (os : OS) (cfg : config) :
  let run := main os cfg in
  is_transmitter cfg = true →
  run.1 = Next 0 →
  let dt := u64 (timestamp os 1 - timestamp os 0) in
  let bytes := dmul (dmul (double_of_Z (Z.of_nat packet_size))
                          (double_of_Z (packet_count cfg))) two_point_0 in
  let s := dmul (double_of_Z dt) one_e_minus_9 in
  (∃ pre io report,
     trace run.2 = pre ++ [ev_clock_gettime (os_clock os 0)] ++ io
                       ++ [ev_clock_gettime (os_clock os 1); report]
     ∧ Forall (λ e, is_io e = false) pre
     ∧ Forall (λ e, is_io e = true) io
     ∧ length io = (rounds cfg + rounds cfg)%nat)
  ∧ (dt = 0 →
     last (trace run.2) = Some (ev_stdout msg_session_failed)
     ∧ Forall (λ e, is_statistics e = false) (trace run.2))
  ∧ (dt ≠ 0 →
     last (trace run.2) = Some (ev_stdout (msg_statistics s bytes (ddiv bytes s)))
     ∧ ev_stdout msg_session_failed ∉ trace run.2).
Proof.
  cbv zeta. intros Htx Hr.
  destruct (transmitter_completed os cfg Htx Hr)
    as (g & idx & hw & Hdone & _ & _ & _ & Htrace).
  fold (elapsed os). split; [|split].
  - exists (setup_trace os cfg idx ++ [ev_stdout (msg_transmitter_at (iface cfg))]),
      (sends os cfg g idx hw (rounds cfg) ++ recvs os (rounds cfg)),
      (ev_stdout (report_message os cfg)).
    split; [|split; [|split]].
    + rewrite Htrace. unfold tx_prologue. by rewrite <- !app_assoc.
    + trace_all.
    + unfold sends, recvs. trace_all.
    + unfold sends, recvs.
      by rewrite length_app, length_send_events, length_recv_events.
  - intros Hdt. rewrite Htrace.
    unfold report_message. rewrite Hdt. cbn [Z.eqb]. split.
    + by rewrite !app_assoc, last_app_cons, last_cons_cons, last_singleton.
    + unfold sends, recvs. trace_all.
  - intros Hdt. rewrite Htrace.
    unfold report_message, seconds, transceived.
    apply Z.eqb_neq in Hdt. rewrite Z.eqb_sym, Hdt. split.
    + by rewrite !app_assoc, last_app_cons, last_cons_cons, last_singleton.
    + intros Hin.
      assert (Hno : Forall (λ e, e ≠ ev_stdout msg_session_failed)
                (setup_trace os cfg idx ++ tx_prologue os cfg
                 ++ sends os cfg g idx hw (rounds cfg) ++ recvs os (rounds cfg)
                 ++ [ev_clock_gettime (os_clock os 1);
                     ev_stdout (msg_statistics
                       (dmul (double_of_Z (elapsed os)) one_e_minus_9)
                       (dmul (dmul (double_of_Z (Z.of_nat packet_size))
                                   (double_of_Z (packet_count cfg))) two_point_0)
                       (ddiv (dmul (dmul (double_of_Z (Z.of_nat packet_size))
                                         (double_of_Z (packet_count cfg))) two_point_0)
                             (dmul (double_of_Z (elapsed os)) one_e_minus_9)))])).
      { unfold setup_trace, tx_prologue, sends, recvs.
        repeat first
          [ apply Forall_send_events; intros; discriminate
          | apply Forall_recv_events; intros; discriminate
          | apply Forall_nil_2
          | apply Forall_app; split
          | apply Forall_cons; split; [discriminate|] ]. }
      rewrite Forall_forall in Hno. by apply Hno in Hin.
Qed.

(** A round trip of four frames in the laboratory, where the clock shows
    a quarter of a second more at the second reading. *)
Lemma zero_duration_reports_session_failed_witness :
  let os := lab (λ _, 1514) lab_peer lab_clock in
  let cfg := lab_config "eth0" 4 (Z.lor flag_transmitter flag_target) in
  let run := main os cfg in
  (is_transmitter cfg = true ∧ run.1 = Next 0)
  ∧ (u64 (timestamp os 1 - timestamp os 0) ≠ 0 →
     ev_stdout msg_session_failed ∉ trace run.2).
Proof.
  intros os cfg run.
  assert (H1 : is_transmitter cfg = true) by reflexivity.
  assert (H2 : run.1 = Next 0) by (unfold run; rewrite main_status; reflexivity).
  split; [exact (conj H1 H2)|].
  intros Hdt.
  exact (proj2 (proj2 (proj2 (zero_duration_reports_session_failed os cfg H1 H2)) Hdt)).
Defined.

(** The same round trip when the clock does not advance between the two
    readings: the transmitter prints "session failed". *)
Example zero_duration_run :
  let os := lab (λ _, 1514) lab_peer (λ _, Timespec 7 0) in
  let cfg := lab_config "eth0" 4 (Z.lor flag_transmitter flag_target) in
  (main os cfg).1 = Next 0
  ∧ last (trace (main os cfg).2) = Some (ev_stdout msg_session_failed).
Proof.
  intros os cfg. rewrite main_status, main_trace. split; reflexivity.
Qed.

(** ** Frames that differ in what the program does not read *)

Lemma first_bad_ext (P Q : nat → bool) (n : nat) :
  (∀ j, P j = Q j) → first_bad P n = first_bad Q n.
Proof.
  intros H. induction n as [|n IH]; [done|]. cbn. by rewrite IH, H.
Qed.

(** A word of the payload is read in its first 8 octets. *)
Lemma payload_word_stamp (os : OS) (idx : nat) (d : list byte) :
  (idx < 2)%nat →
  payload_word os idx d
  = native_value (os_byte_order os) (take 4 (drop (4 * idx) (take 8 (drop ETH_HLEN d)))).
Proof.
  intros Hidx. unfold payload_word. f_equal.
  rewrite take_drop_take by lia. by rewrite drop_drop.
Qed.

Section Deliveries.
Context (os : OS) (rcv : nat → option (list byte)).
Hypothesis agree : ∀ k, same_count_and_stamp (os_recvfrom os k) (rcv k).
Let os' := with_recvfrom os rcv.

Lemma recv_ret_agree k : recv_ret os' k = recv_ret os k.
Proof.
  unfold recv_ret. cbn [os' with_recvfrom os_recvfrom].
  specialize (agree k). destruct (os_recvfrom os k), (rcv k); try done.
  destruct agree as [-> _]. done.
Qed.

Lemma recv_full_agree k : recv_full os' k = recv_full os k.
Proof. unfold recv_full. by rewrite recv_ret_agree. Qed.

Lemma accepts_agree k i : accepts os' k i = accepts os k i.
Proof.
  pose proof (recv_full_agree k) as Hfull.
  unfold accepts. cbn [os' with_recvfrom os_recvfrom].
  specialize (agree k).
  destruct (os_recvfrom os k) as [d|] eqn:E, (rcv k) as [d'|] eqn:E'; try done.
  destruct agree as [_ Hstamp].
  rewrite (recv_full_length os' k d'), (recv_full_length os k d) in Hfull by done.
  rewrite Hfull. destruct (Nat.leb_spec frame_max_size (length d)) as [Hd|Hd]; [|done].
  cbn [andb]. unfold payload_ok.
  rewrite !(payload_word_stamp os'), !(payload_word_stamp os) by lia.
  by rewrite Hstamp.
Qed.

Lemma recv_events_agree k n : recv_events os' k n = recv_events os k n.
Proof.
  unfold recv_events. apply list_fmap_ext. intros _ j _.
  unfold recv_event. by rewrite recv_ret_agree.
Qed.

Lemma tx_expected_agree cfg t0 h0 sa :
  tx_expected os' cfg t0 h0 sa = tx_expected os cfg t0 h0 sa.
Proof.
  unfold tx_expected, refusal.
  rewrite (first_bad_ext (λ j, accepts os' j (Z.of_nat j))
                         (λ j, accepts os j (Z.of_nat j)))
    by (intros; apply accepts_agree).
  change (sendto_full os') with (sendto_full os).
  destruct (first_bad (sendto_full os) (rounds cfg)); [done|].
  destruct (first_bad _ (rounds cfg)); rewrite !recv_events_agree, ?recv_full_agree; done.
Qed.

Lemma rx_expected_agree cfg t0 h0 sa :
  rx_expected os' cfg t0 h0 sa = rx_expected os cfg t0 h0 sa.
Proof.
  unfold rx_expected, refusal.
  rewrite (first_bad_ext (λ j, accepts os' j (Z.of_nat j))
                         (λ j, accepts os j (Z.of_nat j)))
    by (intros; apply accepts_agree).
  change (sendto_full os') with (sendto_full os).
  destruct (first_bad _ (rounds cfg));
    [by rewrite !recv_events_agree, ?recv_full_agree|].
  destruct (first_bad (sendto_full os) (rounds cfg)); by rewrite !recv_events_agree.
Qed.

Lemma run_expected_agree cfg : run_expected os' cfg = run_expected os cfg.
Proof.
  unfold run_expected. cbn [os' with_recvfrom os_malloc os_socket os_ifindex os_ifhwaddr os_bind].
  destruct (os_malloc os _) as [g|]; [|done].
  destruct (os_socket os <? 0); [done|].
  destruct (IFNAMSIZ <=? _)%nat; [done|].
  destruct (os_ifindex os _) as [idx|]; [|done].
  destruct (os_ifhwaddr os _) as [hw|]; [|done].
  change (setup_saddr (with_recvfrom os rcv) cfg idx) with (setup_saddr os cfg idx).
  change (setup_trace (with_recvfrom os rcv) cfg idx) with (setup_trace os cfg idx).
  change (setup_heap (with_recvfrom os rcv) cfg g hw) with (setup_heap os cfg g hw).
  destruct (os_bind os _ <? 0); [done|].
  fold os'. by rewrite tx_expected_agree, rx_expected_agree.
Qed.
End Deliveries.

Lemma lab_frame_with_spec (hdr : list byte) (fill : byte) (w0 w1 : Z) :
  length hdr = ETH_HLEN →
  length (lab_frame_with hdr fill w0 w1) = frame_max_size
  ∧ take 8 (drop ETH_HLEN (lab_frame_with hdr fill w0 w1))
    = native_bytes LittleEndian 4 w0 ++ native_bytes LittleEndian 4 w1.
Proof.
  intros Hh. unfold lab_frame_with. split.
  - rewrite !length_app, !native_bytes_length, length_replicate, Hh. done.
  - rewrite drop_app_length' by done. rewrite app_assoc.
    apply take_app_length'. by rewrite length_app, !native_bytes_length.
Qed.

(** C10. Whether a received frame is accepted depends on the number of
    octets received and on the first 8 octets of its payload only: when
    the frames delivered to a run are replaced by frames with the same
    counts and the same 8 octets, whatever their headers, the run
    returns the same status and makes the same calls and prints; and a
    whole frame whose payload starts with [(magic, i)] is accepted at
    index [i] whatever its header. *)
Theorem acceptance_ignores_the_header (os : OS) (cfg : config)
    (rcv : nat → option (list byte)) :
  (∀ k, same_count_and_stamp (os_recvfrom os k) (rcv k)) →
  let run := main os cfg in
  let run' := main (with_recvfrom os rcv) cfg in
  (run'.1 = run.1 ∧ observe run'.2 = observe run.2)
  ∧ (∀ fd bad i m d,
       os_recvfrom os (received m) = Some d →
       (frame_max_size ≤ length d)%nat →
       take 8 (drop ETH_HLEN d)
       = native_bytes (os_byte_order os) 4 magic ++ native_bytes (os_byte_order os) 4 i →
       0 <= i < 2 ^ 32 →
       (frame_max_size + frame_max_size ≤ length (heap m))%nat →
       (recv_step os fd frame_max_size (frame_max_size + ETH_HLEN) bad i m).1 = Next ()).
Proof.
  intros Hagree. cbv zeta. split.
  - pose proof (main_expected (with_recvfrom os rcv) cfg) as H'.
    pose proof (main_expected os cfg) as H.
    rewrite run_expected_agree in H' by done. rewrite <- H in H'.
    by apply pair_equal_spec in H'.
  - intros fd bad i m d E Hd Hstamp Hi Hh.
    rewrite recv_step_accept; [done| |lia].
    unfold accepts, payload_ok. rewrite E.
    apply Nat.leb_le in Hd as ->. cbn [andb].
    rewrite !payload_word_stamp, Hstamp by lia.
    rewrite Nat.mul_0_r, drop_0, take_app_length' by by rewrite native_bytes_length.
    change (4 * 1)%nat with 4%nat.
    rewrite drop_app_length', take_ge by by rewrite native_bytes_length.
    rewrite !native_value_native_bytes by done.
    by rewrite !Z.eqb_refl.
Qed.

(** The responder of the laboratory, served by the stranger instead of
    its peer. *)
Lemma acceptance_ignores_the_header_witness :
  let os := lab (λ _, 1514) lab_peer lab_clock in
  let cfg := lab_config "eth0" 3 flag_target in
  (∀ k, same_count_and_stamp (os_recvfrom os k) (lab_stranger k))
  ∧ (main (with_recvfrom os lab_stranger) cfg).1 = (main os cfg).1
  ∧ (main os cfg).1 = Next 0.
Proof.
  intros os cfg.
  assert (H : ∀ k, same_count_and_stamp (os_recvfrom os k) (lab_stranger k)).
  { intros k. cbn [os lab os_recvfrom lab_peer lab_stranger same_count_and_stamp].
    unfold lab_frame.
    destruct (lab_frame_with_spec
                [x02; x00; x00; xaa; xbb; xcc; x02; x00; x00; x11; x22; x33; x08; x00]
                x00 magic (Z.of_nat k) eq_refl) as [Hl1 Hs1].
    destruct (lab_frame_with_spec
                [xff; xff; xff; xff; xff; xff; x06; x05; x04; x03; x02; x01; x86; xdd]
                xee magic (Z.of_nat k) eq_refl) as [Hl2 Hs2].
    split.
    - by rewrite !length_take, Hl1, Hl2.
    - intros _. by rewrite Hs1, Hs2. }
  split; [exact H|].
  split; [exact (proj1 (proj1 (acceptance_ignores_the_header os cfg lab_stranger H)))|].
  rewrite main_status. reflexivity.
Defined.
(** * The rest of [main]: setup, output, timing and the two peers *)

(** ** When the setup fails *)

(** X1. The three calls of the setup that [main] checks itself end the
    run when they fail.  If [malloc] returns a null pointer the run is
    that call and the diagnostic "cannot allocate buffer", and no socket
    is asked for.  If [socket] returns a negative descriptor the run is
    [malloc], [socket] and "cannot create socket", and the interface is
    not queried.  If [bind] fails the run is the five calls of the setup
    and "cannot bind to iface": nothing is printed on the standard output,
    the clock is not read and no frame is sent or received.  In each case
    [main] returns -1. *)
Theorem setup_failure_ends_the_run (os : OS) (cfg : config) :
  let run := main os cfg in
  (os_malloc os (frame_max_size * 2) = None →
   run.1 = Return (-1)
   ∧ trace run.2 = [ev_malloc (frame_max_size * 2) false; ev_stderr msg_cannot_allocate])
  ∧ (∀ g,
       os_malloc os (frame_max_size * 2) = Some g →
       os_socket os < 0 →
       run.1 = Return (-1)
       ∧ trace run.2 = [ev_malloc (frame_max_size * 2) true; ev_socket (os_socket os);
                        ev_stderr msg_cannot_create_socket])
  ∧ (∀ g idx hw,
       os_malloc os (frame_max_size * 2) = Some g →
       0 <= os_socket os →
       (String.length (iface cfg) < IFNAMSIZ)%nat →
       os_ifindex os (iface cfg) = ioctl_ok idx →
       os_ifhwaddr os (iface cfg) = ioctl_ok hw →
       os_bind os (setup_saddr os cfg idx) < 0 →
       run.1 = Return (-1)
       ∧ trace run.2 =
           [ev_malloc (frame_max_size * 2) true; ev_socket (os_socket os);
            ev_ioctl SIOCGIFINDEX (iface cfg) 0; ev_ioctl SIOCGIFHWADDR (iface cfg) 0;
            ev_bind (setup_saddr os cfg idx) (os_bind os (setup_saddr os cfg idx));
            ev_stderr msg_cannot_bind]
       ∧ sent run.2 = 0%nat ∧ received run.2 = 0%nat ∧ clock_reads run.2 = 0%nat).
Proof.
  cbv zeta. pose proof (main_expected os cfg) as H. unfold run_expected in H.
  split; [|split].
  - intros Hg. rewrite Hg in H. apply pair_equal_spec in H as [-> H].
    unfold observe in H. by injection H as _ _ _ ->.
  - intros g Hg Hfd. rewrite Hg in H. apply Z.ltb_lt in Hfd. rewrite Hfd in H.
    apply pair_equal_spec in H as [-> H]. unfold observe in H. by injection H as _ _ _ ->.
  - intros g idx hw Hg Hfd Hlen Hidx Hhw Hbind.
    rewrite Hg, Hidx, Hhw in H.
    apply Z.ltb_ge in Hfd. apply Nat.leb_gt in Hlen. apply Z.ltb_lt in Hbind.
    rewrite Hfd, Hlen, Hbind in H.
    apply pair_equal_spec in H as [-> H]. unfold observe in H.
    by injection H as -> -> -> ->.
Qed.

(** The laboratory without memory, without descriptors, and with an
    interface that cannot be bound. *)
Lemma setup_failure_ends_the_run_witness :
  let cfg := lab_config "eth0" 4 1 in
  (main (lab_kernel false 3 0) cfg).1 = Return (-1)
  ∧ last (trace (main (lab_kernel true (-1) 0) cfg).2)
    = Some (ev_stderr msg_cannot_create_socket)
  ∧ last (trace (main (lab_kernel true 3 (-1)) cfg).2) = Some (ev_stderr msg_cannot_bind).
Proof.
  intros cfg. split; [|split].
  - exact (proj1 (proj1 (setup_failure_ends_the_run (lab_kernel false 3 0) cfg) eq_refl)).
  - destruct (proj1 (proj2 (setup_failure_ends_the_run (lab_kernel true (-1) 0) cfg))
                (λ _, x00) eq_refl eq_refl) as [_ Ht].
    rewrite Ht. reflexivity.
  - assert (Hlen : (String.length (iface cfg) < IFNAMSIZ)%nat)
      by (cbn; unfold IFNAMSIZ; lia).
    assert (Hfd : 0 <= os_socket (lab_kernel true 3 (-1))) by discriminate.
    destruct (proj2 (proj2 (setup_failure_ends_the_run (lab_kernel true 3 (-1)) cfg))
                (λ _, x00) 2
                [x02; x00; x00; xaa; xbb; xcc; x00; x00; x00; x00; x00; x00; x00; x00]
                eq_refl Hfd Hlen eq_refl eq_refl eq_refl) as (_ & Ht & _).
    rewrite Ht. reflexivity.
Defined.

(** ** The address of the peer *)

Lemma address_of_send_events (os : OS) f0 p0 sa h i k n :
  Forall (λ e, address_of e = Some sa) (send_events os f0 p0 sa h i k n).
Proof. unfold send_events. apply Forall_fmap, Forall_forall. by intros j _. Qed.

Lemma address_of_recv_events (os : OS) (P : option sockaddr_ll → Prop) k n :
  P None → Forall (λ e, P (address_of e)) (recv_events os k n).
Proof. intros HP. unfold recv_events. apply Forall_fmap, Forall_forall. by intros j _. Qed.

(** The eight octets of [sll_addr] once the target is copied. *)
Lemma init_saddr_addr (bo : byte_order) (tg : list byte) (idx : Z) :
  sll_addr (init_saddr bo tg idx) = mac_of tg ++ [x00; x00].
Proof. reflexivity. Qed.

(** X2. [bind] and every [sendto] of a run are given one and the same
    socket address, the one [init_ethhdr_and_saddr] has filled in: family
    [AF_PACKET], protocol [htons(ETH_P_IP)], the index the kernel gave for
    the interface, hardware type [ARPHRD_ETHER], packet type
    [PACKET_OTHERHOST], address length 6, and the six octets of the target
    followed by the two zero octets left by [memset]. *)
Theorem one_address_for_bind_and_sendto (os : OS) (cfg : config) (idx : Z) :
  os_ifindex os (iface cfg) = ioctl_ok idx →
  ∀ e sa,
    e ∈ trace (main os cfg).2 →
    address_of e = Some sa →
    sa = SockaddrLL AF_PACKET (htons (os_byte_order os) ETH_P_IP) idx ARPHRD_ETHER
                    PACKET_OTHERHOST (Z.of_nat ETH_ALEN)
                    (mac_of (target cfg) ++ [x00; x00]).
Proof.
  intros Hidx e sa He Ha.
  assert (Hall : Forall (λ e, ∀ sa', address_of e = Some sa' →
                              sa' = setup_saddr os cfg idx) (trace (main os cfg).2)).
  { run_cases os cfg r m Hshape.
    assert (Hsend : ∀ idx' h n,
              os_ifindex os (iface cfg) = ioctl_ok idx' →
              Forall (λ e, ∀ sa', address_of e = Some sa' → sa' = setup_saddr os cfg idx)
                     (send_events os 0 ETH_HLEN (setup_saddr os cfg idx') h 0 0 n)).
    { intros idx' h n Hidx'. assert (idx' = idx) as -> by congruence.
      eapply Forall_impl; [apply address_of_send_events|].
      intros x Hx sa' Hsa. congruence. }
    assert (Hrecv : ∀ n,
              Forall (λ e, ∀ sa', address_of e = Some sa' → sa' = setup_saddr os cfg idx)
                     (recv_events os 0 n)).
    { intros n. apply (address_of_recv_events os (λ o, ∀ sa', o = Some sa' → _)).
      intros; discriminate. }
    assert (Hsetup : ∀ idx',
              os_ifindex os (iface cfg) = ioctl_ok idx' →
              Forall (λ e, ∀ sa', address_of e = Some sa' → sa' = setup_saddr os cfg idx)
                     (setup_trace os cfg idx')).
    { intros idx' Hidx'. assert (idx' = idx) as -> by congruence.
      unfold setup_trace. repeat (apply Forall_cons; split; [intros ? [=]; done|]).
      apply Forall_nil_2. }
    destruct Hshape as [| | | | | |g idx' hw r m Hdone Hrole Hr|g idx' hw r m Hdone Hrole Hr];
      ends.
    1-5: rewrite Htrace; repeat (apply Forall_cons; split; [intros ? [=]|]);
         apply Forall_nil_2.
    - rewrite Htrace. apply Forall_app; split; [by apply Hsetup|].
      apply Forall_cons; split; [intros ? [=]|apply Forall_nil_2].
    - destruct Hdone as (_ & _ & _ & Hidx' & _).
      destruct Hr; ends; rewrite Htrace; unfold tx_prologue;
        repeat first
          [ apply Hsetup; assumption | apply Hsend; assumption | apply Hrecv
          | apply Forall_nil_2 | apply Forall_app; split
          | apply Forall_cons; split; [intros ? [=]|] ].
    - destruct Hdone as (_ & _ & _ & Hidx' & _).
      destruct Hr; ends; rewrite Htrace; unfold rx_prologue;
        repeat first
          [ apply Hsetup; assumption | apply Hsend; assumption | apply Hrecv
          | apply Forall_nil_2 | apply Forall_app; split
          | apply Forall_cons; split; [intros ? [=]|] ]. }
  rewrite Forall_forall in Hall. rewrite (Hall e He sa Ha). reflexivity.
Qed.

(** In the laboratory, the second call of [sendto] of a transmitter. *)
Lemma one_address_for_bind_and_sendto_witness :
  let os := lab (λ _, 1514) lab_peer lab_clock in
  let cfg := lab_config "eth0" 2 1 in
  ∃ f sa, trace (main os cfg).2 !! 8%nat = Some (ev_sendto f sa 1514)
          ∧ sa = SockaddrLL 17 8 2 1 3 6 [x02; x00; x00; x11; x22; x33; x00; x00].
Proof.
  intros os cfg.
  assert (Hl : ∃ f sa, trace (main os cfg).2 !! 8%nat = Some (ev_sendto f sa 1514)).
  { rewrite main_trace. do 2 eexists. reflexivity. }
  destruct Hl as (f & sa & Hl). exists f, sa. split; [exact Hl|].
  exact (one_address_for_bind_and_sendto os cfg 2 eq_refl (ev_sendto f sa 1514) sa
           (list_elem_of_lookup_2 _ _ _ Hl) eq_refl).
Defined.

(** ** The order of the two phases of the transmitter *)

Lemma sent_frames_none (t : list event) :
  Forall (λ e, is_sendto e = false) t → sent_frames t = [].
Proof.
  unfold sent_frames. induction 1 as [|e t He _ IH]; [done|].
  cbn [omap list_omap]. rewrite IH. by destruct e.
Qed.

(** X3. The transmitter makes no call of [recvfrom] before all
    [packet_count] calls of [sendto] have been made and have returned the
    length of a whole frame, and it makes no call of [sendto] once it has
    started to receive. *)
Theorem transmitter_sends_then_receives (os : OS) (cfg : config) :
  let run := main os cfg in
  is_transmitter cfg = true →
  (∀ pre e post,
     trace run.2 = pre ++ e :: post →
     is_recvfrom e = true →
     length (sent_frames pre) = rounds cfg
     ∧ (∀ j, (j < rounds cfg)%nat → sendto_full os j = true)
     ∧ Forall (λ x, is_sendto x = false) post)
  ∧ (received run.2 ≤ rounds cfg)%nat
  ∧ (received run.2 ≠ 0%nat → sent run.2 = rounds cfg).
Proof.
  cbv zeta. intros Htx.
  run_cases os cfg r m Hshape.
  split; [|split].
  - intros pre e post Heq He.
    assert (Hno : Forall (λ e, is_recvfrom e = false) (trace m) → False).
    { by apply (not_in_trace is_recvfrom _ pre post e). }
    destruct Hshape as [| | | | | |g idx hw r m Hdone Hrole Hr|g idx hw r m Hdone Hrole Hr];
      ends; [exfalso; apply Hno; rewrite Htrace; trace_all..| |congruence].
    destruct Hr; ends;
      [exfalso; apply Hno; rewrite Htrace; trace_all| | |].
    all: rewrite Htrace, !app_assoc, <- (app_assoc _ (recv_events _ _ _)) in Heq.
    all: apply (prefix_before is_recvfrom) in Heq as (k & -> & Hk); [|done|trace_all].
    all: assert (Hns : Forall (λ x, is_sendto x = false) (k ++ e :: post))
           by (rewrite <- Hk; trace_all).
    all: apply Forall_app in Hns as [Hnk Hnp]; apply Forall_cons in Hnp as [_ Hnp].
    all: split; [|by split].
    all: rewrite !sent_frames_app, sent_frames_send_events, (sent_frames_none k) by done.
    all: rewrite !sent_frames_none by trace_all.
    all: by rewrite !length_app, length_fmap, length_seq.
  - destruct Hshape as [| | | | | |g idx hw r m Hdone Hrole Hr|g idx hw r m Hdone Hrole Hr];
      ends; try lia; [|congruence]. destruct Hr; ends; lia.
  - destruct Hshape as [| | | | | |g idx hw r m Hdone Hrole Hr|g idx hw r m Hdone Hrole Hr];
      ends; try lia; [|congruence]. destruct Hr; ends; lia.
Qed.

Lemma transmitter_sends_then_receives_witness :
  let os := lab (λ _, 1514) lab_peer lab_clock in
  let cfg := lab_config "eth0" 3 (flag_target + flag_transmitter) in
  let run := main os cfg in
  is_transmitter cfg = true
  ∧ (received run.2 ≤ rounds cfg)%nat
  ∧ (received run.2 ≠ 0%nat → sent run.2 = rounds cfg).
Proof.
  intros os cfg run.
  assert (H1 : is_transmitter cfg = true) by reflexivity.
  split; [exact H1|].
  exact (proj2 (transmitter_sends_then_receives os cfg H1)).
Defined.

(** ** The two output streams *)

Section Streams.
Context (os : OS).

Lemma stdout_of_app (t1 t2 : list event) :
  stdout_of (t1 ++ t2) = stdout_of t1 ++ stdout_of t2.
Proof. apply omap_app. Qed.

Lemma stderr_of_app (t1 t2 : list event) :
  stderr_of (t1 ++ t2) = stderr_of t1 ++ stderr_of t2.
Proof. apply omap_app. Qed.

Lemma stdout_of_send_events f0 p0 sa h i k n :
  stdout_of (send_events os f0 p0 sa h i k n) = [].
Proof. unfold stdout_of, send_events. generalize (seq 0 n). intros l. by induction l. Qed.

Lemma stderr_of_send_events f0 p0 sa h i k n :
  stderr_of (send_events os f0 p0 sa h i k n) = [].
Proof. unfold stderr_of, send_events. generalize (seq 0 n). intros l. by induction l. Qed.

Lemma stdout_of_recv_events k n : stdout_of (recv_events os k n) = [].
Proof. unfold stdout_of, recv_events. generalize (seq 0 n). intros l. by induction l. Qed.

Lemma stderr_of_recv_events k n : stderr_of (recv_events os k n) = [].
Proof. unfold stderr_of, recv_events. generalize (seq 0 n). intros l. by induction l. Qed.
End Streams.

(** Computes the lines of a trace of known shape. *)
Ltac streams :=
  unfold setup_trace, tx_prologue, rx_prologue;
  rewrite ?stdout_of_app, ?stderr_of_app, ?stdout_of_send_events, ?stderr_of_send_events,
    ?stdout_of_recv_events, ?stderr_of_recv_events;
  cbn [stdout_of stderr_of omap list_omap app].

(** X4. The standard output of a run: nothing at all when the setup
    fails; otherwise the line of the role, "transmitter at interface ..."
    or "responder at interface ...", printed right after [bind] and
    before any frame is sent or received, followed by the report when the
    run is that of a transmitter which completes, and by nothing
    else. *)
Theorem standard_output_of_a_run (os : OS) (cfg : config) :
  let run := main os cfg in
  ((∀ g idx hw, ¬ setup_done os cfg g idx hw) → stdout_of (trace run.2) = [])
  ∧ (∀ g idx hw,
       setup_done os cfg g idx hw →
       (∃ post,
          trace run.2
          = [ev_malloc (frame_max_size * 2) true; ev_socket (os_socket os);
             ev_ioctl SIOCGIFINDEX (iface cfg) 0; ev_ioctl SIOCGIFHWADDR (iface cfg) 0;
             ev_bind (setup_saddr os cfg idx) (os_bind os (setup_saddr os cfg idx))]
            ++ ev_stdout (banner cfg) :: post)
       ∧ stdout_of (trace run.2)
         = banner cfg ::
           match run.1 with
           | Next _ => if is_transmitter cfg then [report_message os cfg] else []
           | _ => []
           end).
Proof.
  cbv zeta. run_cases os cfg r m Hshape. split.
  - intros Hnot.
    destruct Hshape as [| | | | | |g idx hw r m Hdone Hrole Hr|g idx hw r m Hdone Hrole Hr];
      ends; try (rewrite Htrace; by streams); by destruct (Hnot g idx hw).
  - intros g idx hw Hdone.
    destruct (shape_after_setup _ _ _ _ _ _ _ Hdone Hshape) as (r' & -> & Hr).
    unfold banner. destruct (is_transmitter cfg).
    + destruct Hr; ends; rewrite Htrace; (split; [|by streams]); unfold tx_prologue;
        eexists; reflexivity.
    + destruct Hr; ends; rewrite Htrace; (split; [|by streams]); unfold rx_prologue;
        eexists; reflexivity.
Qed.

(** The transmitter of the laboratory prints its banner and its
    report. *)
Lemma standard_output_of_a_run_witness :
  let os := lab (λ _, 1514) lab_peer lab_clock in
  let cfg := lab_config "eth0" 2 (flag_target + flag_transmitter) in
  stdout_of (trace (main os cfg).2) = [msg_transmitter_at "eth0"; report_message os cfg].
Proof.
  intros os cfg.
  assert (Hdone : setup_done os cfg (λ _, x00) 2
            [x02; x00; x00; xaa; xbb; xcc; x00; x00; x00; x00; x00; x00; x00; x00]).
  { split; [reflexivity|]. split; [discriminate|]. split; [cbn; unfold IFNAMSIZ; lia|].
    split; [reflexivity|]. split; [reflexivity|discriminate]. }
  destruct (proj2 (standard_output_of_a_run os cfg) _ _ _ Hdone) as [_ H].
  rewrite H, main_status. reflexivity.
Defined.


(** ** Runs whose setup succeeds *)

Lemma run_expected_after_setup (os : OS) (cfg : config) g idx hw :
  setup_done os cfg g idx hw →
  run_expected os cfg =
    let role :=
      if is_transmitter cfg
      then tx_expected os cfg (setup_trace os cfg idx) (setup_heap os cfg g hw)
                       (setup_saddr os cfg idx)
      else rx_expected os cfg (setup_trace os cfg idx) (setup_heap os cfg g hw)
                       (setup_saddr os cfg idx) in
    (finish role.1, role.2).
Proof.
  intros (Hg & Hfd & Hlen & Hidx & Hhw & Hbind). unfold run_expected.
  apply Z.ltb_ge in Hfd, Hbind. apply Nat.leb_gt in Hlen.
  by rewrite Hg, Hfd, Hlen, Hidx, Hhw, Hbind.
Qed.

Lemma setup_done_unique (os : OS) (cfg : config) g idx hw g' idx' hw' :
  setup_done os cfg g idx hw → setup_done os cfg g' idx' hw' →
  g' = g ∧ idx' = idx ∧ hw' = hw.
Proof.
  intros (Hg & _ & _ & Hidx & Hhw & _) (Hg' & _ & _ & Hidx' & Hhw' & _).
  repeat split; congruence.
Qed.

(** A run in which nothing goes wrong. *)
Lemma main_succeeds (os : OS) (cfg : config) g idx hw :
  setup_done os cfg g idx hw →
  (∀ j, (j < rounds cfg)%nat → sendto_full os j = true) →
  (∀ j, (j < rounds cfg)%nat → accepts os j (Z.of_nat j) = true) →
  (main os cfg).1 = Next 0
  ∧ sent (main os cfg).2 = rounds cfg
  ∧ received (main os cfg).2 = rounds cfg
  ∧ trace (main os cfg).2
    = setup_trace os cfg idx
      ++ (if is_transmitter cfg
          then tx_prologue os cfg ++ sends os cfg g idx hw (rounds cfg)
               ++ recvs os (rounds cfg)
               ++ [ev_clock_gettime (os_clock os 1); ev_stdout (report_message os cfg)]
          else rx_prologue cfg ++ recvs os (rounds cfg)
               ++ sends os cfg g idx hw (rounds cfg)).
Proof.
  intros Hdone Hfull Hacc.
  rewrite main_status, main_sent, main_received, main_trace.
  rewrite (run_expected_after_setup os cfg g idx hw Hdone). cbv zeta.
  unfold tx_expected, rx_expected.
  rewrite !(first_bad_None (sendto_full os)), !(first_bad_None (λ j, accepts os j _)) by done.
  by destruct (is_transmitter cfg).
Qed.

(** When no [sendto] is short, every frame is handed to [sendto],
    whatever is received. *)
Lemma sent_frames_when_full (os : OS) (cfg : config) g idx hw :
  setup_done os cfg g idx hw →
  is_transmitter cfg = true →
  (∀ j, (j < rounds cfg)%nat → sendto_full os j = true) →
  sent_frames (trace (main os cfg).2)
  = out_frame os (setup_heap os cfg g hw) <$> seq 0 (rounds cfg).
Proof.
  intros Hdone Htx Hfull.
  assert (Hs : sent (main os cfg).2 = rounds cfg).
  { rewrite main_sent, (run_expected_after_setup os cfg g idx hw Hdone), Htx. cbv zeta.
    unfold tx_expected. rewrite (first_bad_None (sendto_full os)) by done.
    by destruct (first_bad _ _). }
  destruct (run_sent_frames os cfg) as [[H0 Hnil]|(g' & idx' & hw' & Hdone' & _ & Heq)].
  - rewrite Hnil. rewrite <- Hs, H0. done.
  - destruct (setup_done_unique _ _ _ _ _ _ _ _ Hdone Hdone') as (-> & -> & ->).
    by rewrite Heq, Hs.
Qed.

(** X6. [main] returns 0 exactly when the setup succeeds, every
    [sendto] returns the length of a whole frame and the k-th datagram
    received is a whole frame whose payload starts with [(magic, k)], for
    every k below [packet_count]; it has then sent and received
    [packet_count] frames. *)
Theorem success_iff_every_transfer_is_whole (os : OS) (cfg : config) :
  let run := main os cfg in
  (run.1 = Next 0 ↔
     (∃ g idx hw, setup_done os cfg g idx hw)
     ∧ (∀ j, (j < rounds cfg)%nat → sendto_full os j = true)
     ∧ (∀ j, (j < rounds cfg)%nat → accepts os j (Z.of_nat j) = true))
  ∧ (run.1 = Next 0 → sent run.2 = rounds cfg ∧ received run.2 = rounds cfg).
Proof.
  cbv zeta. split; [split|].
  - pose proof (main_shape os cfg) as Hshape. intros Hr.
    destruct (main os cfg) as [r m]; cbn [fst snd] in *.
    destruct Hshape as [| | | | | |g idx hw r m Hdone Hrole Hs|g idx hw r m Hdone Hrole Hs];
      try discriminate.
    all: split; [by exists g, idx, hw|]; by destruct Hs.
  - intros ((g & idx & hw & Hdone) & Hfull & Hacc).
    pose proof (main_succeeds os cfg g idx hw Hdone Hfull Hacc) as [H _]. exact H.
  - run_cases os cfg r m Hshape. intros Hr.
    destruct Hshape as [| | | | | |g idx hw r m Hdone Hrole Hs|g idx hw r m Hdone Hrole Hs];
      try discriminate.
    all: destruct Hs; try discriminate; ends; done.
Qed.

(** Two frames each way in the laboratory. *)
Lemma success_iff_every_transfer_is_whole_witness :
  let os := lab (λ _, 1514) lab_peer lab_clock in
  let cfg := lab_config "eth0" 2 (flag_target + flag_transmitter) in
  (main os cfg).1 = Next 0
  ∧ sent (main os cfg).2 = 2%nat ∧ received (main os cfg).2 = 2%nat.
Proof.
  intros os cfg.
  assert (Hdone : setup_done os cfg (λ _, x00) 2
            [x02; x00; x00; xaa; xbb; xcc; x00; x00; x00; x00; x00; x00; x00; x00]).
  { split; [reflexivity|]. split; [discriminate|]. split; [cbn; unfold IFNAMSIZ; lia|].
    split; [reflexivity|]. split; [reflexivity|discriminate]. }
  assert (Hfull : ∀ j, (j < rounds cfg)%nat → sendto_full os j = true)
    by (intros; reflexivity).
  assert (Hacc : ∀ j, (j < rounds cfg)%nat → accepts os j (Z.of_nat j) = true).
  { intros j Hj. change (rounds cfg) with 2%nat in Hj.
    destruct j as [|[|j]]; [reflexivity|reflexivity|lia]. }
  destruct (success_iff_every_transfer_is_whole os cfg) as [Hiff Hcount].
  assert (Hr : (main os cfg).1 = Next 0).
  { apply Hiff. split; [|by split]. by eexists _, _, _. }
  split; [exact Hr|]. exact (Hcount Hr).
Defined.

(** ** The clock *)

Lemma timestamp_nanoseconds (os : OS) (k : nat) :
  timestamp os k = nanoseconds (os_clock os k) mod 2 ^ 64.
Proof.
  unfold timestamp, nanoseconds, u64.
  rewrite Z.mul_mod_idemp_l, <- Z.add_mod by done. reflexivity.
Qed.

Lemma elapsed_nanoseconds (os : OS) :
  elapsed os = (nanoseconds (os_clock os 1) - nanoseconds (os_clock os 0)) mod 2 ^ 64.
Proof.
  unfold elapsed, u64. rewrite !timestamp_nanoseconds.
  by rewrite <- Zminus_mod.
Qed.

(** X7. [timer_nsec] reads the clock once and returns the reading in
    nanoseconds modulo 2^64.  The duration the transmitter measures is
    therefore the true difference of its two readings whenever the second
    is not earlier than the first and less than 2^64 ns later, whatever
    the readings themselves are: a completed transmitter prints "session
    failed" exactly when the two readings are equal, and otherwise the
    statistics for that difference. *)
Theorem elapsed_is_the_clock_difference (os : OS) (cfg : config) :
  let run := main os cfg in
  let t0 := nanoseconds (os_clock os 0) in
  let t1 := nanoseconds (os_clock os 1) in
  let bytes := dmul (dmul (double_of_Z (Z.of_nat packet_size))
                          (double_of_Z (packet_count cfg))) two_point_0 in
  let s := dmul (double_of_Z (t1 - t0)) one_e_minus_9 in
  (∀ m, timer_nsec os m
        = (Next (nanoseconds (os_clock os (clock_reads m)) mod 2 ^ 64),
           Machine (heap m) (sent m) (received m) (S (clock_reads m))
                   (trace m ++ [ev_clock_gettime (os_clock os (clock_reads m))])))
  ∧ (is_transmitter cfg = true →
     run.1 = Next 0 →
     t0 <= t1 < t0 + 2 ^ 64 →
     last (trace run.2)
     = Some (ev_stdout (if t1 =? t0 then msg_session_failed
                        else msg_statistics s bytes (ddiv bytes s)))).
Proof.
  cbv zeta. split.
  - intros m. unfold timer_nsec. exec. do 2 f_equal.
    apply (timestamp_nanoseconds os (clock_reads m)).
  - intros Htx Hr Ht.
    destruct (transmitter_completed os cfg Htx Hr)
      as (g & idx & hw & Hdone & _ & _ & _ & Htrace).
    rewrite Htrace, !app_assoc, last_app_cons, last_cons_cons, last_singleton.
    do 2 f_equal. unfold report_message, seconds, transceived.
    rewrite elapsed_nanoseconds, Z.mod_small by lia.
    destruct (Z.eqb_spec (nanoseconds (os_clock os 1)) (nanoseconds (os_clock os 0)))
      as [->|Hne].
    + by rewrite Z.sub_diag.
    + destruct (Z.eqb_spec 0 (nanoseconds (os_clock os 1) - nanoseconds (os_clock os 0)));
        [lia|done].
Qed.

(** A clock whose first reading is so late that [timer_nsec] wraps
    between the two readings: 18446744073 s and 709551615 ns, then one
    nanosecond and then two more. *)
Lemma elapsed_is_the_clock_difference_witness :
  let clk := λ k : nat, Timespec 18446744073 (709551615 + Z.of_nat k * 2) in
  let os := lab (λ _, 1514) lab_peer clk in
  let cfg := lab_config "eth0" 2 (flag_target + flag_transmitter) in
  timer_nsec os boot = (Next (2 ^ 64 - 1), Machine [] 0 0 1 [ev_clock_gettime (clk 0%nat)])
  ∧ ∃ s bw, last (trace (main os cfg).2)
            = Some (ev_stdout (msg_statistics s (S754_finite false 0x17700000000000 (-40)) bw))
              ∧ s = S754_finite false 0x112e0be826d695 (-81).
Proof.
  intros clk os cfg.
  destruct (elapsed_is_the_clock_difference os cfg) as [H1 H2].
  split; [exact (H1 boot)|].
  assert (Hr : (main os cfg).1 = Next 0) by (rewrite main_status; reflexivity).
  assert (Htx : is_transmitter cfg = true) by reflexivity.
  assert (Ht : nanoseconds (os_clock os 0) <= nanoseconds (os_clock os 1)
               < nanoseconds (os_clock os 0) + 2 ^ 64) by (split; reflexivity || discriminate).
  specialize (H2 Htx Hr Ht).
  do 2 eexists. split; [exact H2|reflexivity].
Defined.

(** ** The incoming frame *)

Lemma recv_step_heap (os : OS) fd f1 p1 bad i m :
  heap (recv_step os fd f1 p1 bad i m).2 = recv_heap os (received m) f1 (heap m)
  ∧ received (recv_step os fd f1 p1 bad i m).2 = S (received m).
Proof.
  rewrite recv_step_run. cbv zeta.
  destruct (negb _); [done|]. by destruct (_ || _).
Qed.

Lemma recv_heap_beyond (os : OS) k f1 h n :
  (f1 + frame_max_size ≤ n)%nat → drop n (recv_heap os k f1 h) = drop n h.
Proof.
  intros Hn. unfold recv_heap. destruct (os_recvfrom os k) as [d|]; [|done].
  apply drop_list_inserts_le. rewrite length_take. lia.
Qed.

(** X8. A receiving loop writes to the second frame of the block and
    nowhere else: whatever is delivered, and however the loop ends, the
    block keeps its length, its first [frame_max_size] octets (the
    outgoing frame with its header and stamp) and whatever lies beyond
    the second frame.  An iteration that is delivered a whole frame
    leaves the first [frame_max_size] octets of that datagram in the
    second frame. *)
Theorem receive_writes_only_the_second_frame (os : OS) (fd : Z) (bad : Z → message) :
  let body := recv_step os fd frame_max_size (frame_max_size + ETH_HLEN) bad in
  (∀ i n m,
     let after := (for_range i n body m).2 in
     length (heap after) = length (heap m)
     ∧ take frame_max_size (heap after) = take frame_max_size (heap m)
     ∧ drop (frame_max_size * 2) (heap after) = drop (frame_max_size * 2) (heap m))
  ∧ (∀ i m d,
       os_recvfrom os (received m) = Some d →
       (frame_max_size ≤ length d)%nat →
       (frame_max_size * 2 ≤ length (heap m))%nat →
       take frame_max_size (drop frame_max_size (heap (body i m).2))
       = take frame_max_size d).
Proof.
  cbv zeta. split.
  - intros i n. revert i. induction n as [|n IH]; intros i m; [done|].
    cbn [for_range]. rewrite bind_run.
    destruct (recv_step_heap os fd frame_max_size (frame_max_size + ETH_HLEN) bad i m)
      as [Hh _].
    destruct (recv_step _ _ _ _ _ _ _) as [[[]|st|] m'] eqn:E; cbn [snd] in Hh |- *.
    + destruct (IH (i + 1) m') as (H1 & H2 & H3).
      rewrite H1, H2, H3, Hh.
      by rewrite recv_heap_length, recv_heap_frame0, recv_heap_beyond by lia.
    + rewrite Hh.
      by rewrite recv_heap_length, recv_heap_frame0, recv_heap_beyond by lia.
    + rewrite Hh.
      by rewrite recv_heap_length, recv_heap_frame0, recv_heap_beyond by lia.
  - intros i m d E Hd Hm.
    rewrite (proj1 (recv_step_heap os fd _ _ bad i m)). unfold recv_heap. rewrite E.
    rewrite <- (Nat.add_0_r frame_max_size) at 2.
    rewrite read_list_inserts.
    + by rewrite drop_0, take_take, Nat.min_id.
    + rewrite length_take. lia.
    + rewrite length_take. lia.
Qed.

(** The first frame of the peer of the laboratory, received into a
    block of zeros. *)
Lemma receive_writes_only_the_second_frame_witness :
  let os := lab (λ _, 1514) lab_peer lab_clock in
  let m := Machine (replicate (frame_max_size * 2) x00) 0 0 0 [] in
  let m' := (recv_step os 3 frame_max_size (frame_max_size + ETH_HLEN) msg_bad_request 0 m).2 in
  take frame_max_size (drop frame_max_size (heap m')) = lab_frame magic 0.
Proof.
  intros os m m'.
  destruct (lab_frame_with_spec
              [x02; x00; x00; xaa; xbb; xcc; x02; x00; x00; x11; x22; x33; x08; x00]
              x00 magic 0 eq_refl) as [Hlen _].
  fold (lab_frame magic 0) in Hlen.
  assert (Hd : (frame_max_size ≤ length (lab_frame magic 0))%nat) by (rewrite Hlen; lia).
  assert (Hm : (frame_max_size * 2 ≤ length (heap m))%nat)
    by (cbn [heap m]; rewrite length_replicate; lia).
  rewrite <- (take_ge (lab_frame magic 0) frame_max_size) by lia.
  exact (proj2 (receive_writes_only_the_second_frame os 3 msg_bad_request)
           0 m (lab_frame magic 0) eq_refl Hd Hm).
Defined.

(** ** Two hosts on one link *)

Lemma payload_word_byte_order (os os' : OS) idx d :
  os_byte_order os' = os_byte_order os → payload_word os' idx d = payload_word os idx d.
Proof. unfold payload_word. by intros ->. Qed.

(** A host accepts at index [k] the k-th frame sent by a host of the
    same byte order. *)
Lemma accepts_out_frame (os os' : OS) (h : list byte) (j k : nat) :
  os_byte_order os' = os_byte_order os →
  (frame_max_size ≤ length h)%nat →
  Z.of_nat k < 2 ^ 32 →
  os_recvfrom os' j = Some (out_frame os h k) →
  accepts os' j (Z.of_nat k) = true.
Proof.
  intros Hbo Hh Hk E. unfold accepts, payload_ok. rewrite E.
  rewrite length_out_frame, Nat.leb_refl by done.
  rewrite !(payload_word_byte_order os os') by done.
  destruct (out_frame_payload os h k Hh) as [-> ->].
  rewrite u32_small by lia. by rewrite !Z.eqb_refl.
Qed.

Lemma sent_frames_of_success (os : OS) (cfg : config) g idx hw :
  setup_done os cfg g idx hw →
  (∀ j, (j < rounds cfg)%nat → sendto_full os j = true) →
  (∀ j, (j < rounds cfg)%nat → accepts os j (Z.of_nat j) = true) →
  sent_frames (trace (main os cfg).2)
  = out_frame os (setup_heap os cfg g hw) <$> seq 0 (rounds cfg).
Proof.
  intros Hdone Hfull Hacc.
  destruct (main_succeeds os cfg g idx hw Hdone Hfull Hacc) as (_ & Hs & _).
  destruct (run_sent_frames os cfg) as [[H0 Hnil]|(g' & idx' & hw' & Hdone' & _ & Heq)].
  - rewrite Hnil. rewrite <- Hs, H0. done.
  - destruct (setup_done_unique _ _ _ _ _ _ _ _ Hdone Hdone') as (-> & -> & ->).
    by rewrite Heq, Hs.
Qed.

Lemma delivers_out_frames (os os' : OS) (h : list byte) (n j : nat) :
  delivers os' (out_frame os h <$> seq 0 n) →
  (j < n)%nat →
  os_recvfrom os' j = Some (out_frame os h j).
Proof.
  intros Hd Hj. apply Hd. rewrite list_lookup_fmap, lookup_seq_lt by done. done.
Qed.

(** X9. A transmitter and a responder of the same byte order, started
    with the same [packet_count], whose setups succeed and whose frames
    reach the other side whole and in order, both complete: each one
    accepts every frame of the other, both return 0 after sending and
    receiving [packet_count] frames, and the transmitter ends with its
    report. *)
Theorem same_endian_peers_complete (os_t os_r : OS) (cfg_t cfg_r : config)
    (g_t g_r : nat → byte) (idx_t idx_r : Z) (hw_t hw_r : list byte) :
  let tx := main os_t cfg_t in
  let rx := main os_r cfg_r in
  os_byte_order os_t = os_byte_order os_r →
  is_transmitter cfg_t = true →
  is_transmitter cfg_r = false →
  packet_count cfg_r = packet_count cfg_t →
  packet_count cfg_t < 2 ^ 32 →
  setup_done os_t cfg_t g_t idx_t hw_t →
  setup_done os_r cfg_r g_r idx_r hw_r →
  (∀ j, (j < rounds cfg_t)%nat → sendto_full os_t j = true) →
  (∀ j, (j < rounds cfg_r)%nat → sendto_full os_r j = true) →
  delivers os_r (sent_frames (trace tx.2)) →
  delivers os_t (sent_frames (trace rx.2)) →
  (tx.1 = Next 0 ∧ sent tx.2 = rounds cfg_t ∧ received tx.2 = rounds cfg_t)
  ∧ (rx.1 = Next 0 ∧ sent rx.2 = rounds cfg_t ∧ received rx.2 = rounds cfg_t)
  ∧ last (trace tx.2) = Some (ev_stdout (report_message os_t cfg_t)).
Proof.
  cbv zeta. intros Hbo Htx Hrx Hpc Hlt Hdone_t Hdone_r Hfull_t Hfull_r Hto_r Hto_t.
  assert (Hn : rounds cfg_r = rounds cfg_t) by (unfold rounds; by rewrite Hpc).
  pose proof (setup_heap_length os_t cfg_t g_t hw_t) as Hh_t.
  pose proof (setup_heap_length os_r cfg_r g_r hw_r) as Hh_r.
  (* the responder accepts what the transmitter sends *)
  rewrite (sent_frames_when_full os_t cfg_t g_t idx_t hw_t) in Hto_r by done.
  assert (Hacc_r : ∀ j, (j < rounds cfg_r)%nat → accepts os_r j (Z.of_nat j) = true).
  { intros j Hj.
    apply (accepts_out_frame os_t os_r (setup_heap os_t cfg_t g_t hw_t)); try done.
    - lia.
    - unfold rounds in Hj, Hn. lia.
    - apply (delivers_out_frames _ _ _ (rounds cfg_t)); [done|lia]. }
  destruct (main_succeeds os_r cfg_r g_r idx_r hw_r Hdone_r Hfull_r Hacc_r)
    as (Hr1 & Hr2 & Hr3 & _).
  (* and the transmitter what the responder sends *)
  rewrite (sent_frames_of_success os_r cfg_r g_r idx_r hw_r) in Hto_t by done.
  assert (Hacc_t : ∀ j, (j < rounds cfg_t)%nat → accepts os_t j (Z.of_nat j) = true).
  { intros j Hj.
    apply (accepts_out_frame os_r os_t (setup_heap os_r cfg_r g_r hw_r)); try done.
    - lia.
    - unfold rounds in Hj. lia.
    - apply (delivers_out_frames _ _ _ (rounds cfg_r)); [done|lia]. }
  destruct (main_succeeds os_t cfg_t g_t idx_t hw_t Hdone_t Hfull_t Hacc_t)
    as (Ht1 & Ht2 & Ht3 & Ht4).
  split; [done|]. split; [by rewrite <- Hn|].
  rewrite Ht4, Htx, !app_assoc.
  by rewrite last_app_cons, last_cons_cons, last_singleton.
Qed.

(** The two hosts of the laboratory exchange two frames each way. *)
Lemma same_endian_peers_complete_witness :
  let os_t := lab (λ _, 1514) (λ k, Some (lab_other_sends LittleEndian k)) lab_clock in
  let os_r := lab_other LittleEndian (λ _, 1514) (λ k, Some (lab_sends k)) in
  let cfg_t := lab_config "eth0" 2 (flag_target + flag_transmitter) in
  let cfg_r := lab_other_config 2 flag_target in
  (main os_t cfg_t).1 = Next 0 ∧ (main os_r cfg_r).1 = Next 0
  ∧ sent (main os_r cfg_r).2 = 2%nat ∧ received (main os_t cfg_t).2 = 2%nat.
Proof.
  intros os_t os_r cfg_t cfg_r.
  set (hw_t := [x02; x00; x00; xaa; xbb; xcc; x00; x00; x00; x00; x00; x00; x00; x00]).
  set (hw_r := [x02; x00; x00; x11; x22; x33; x00; x00; x00; x00; x00; x00; x00; x00]).
  assert (Hdone_t : setup_done os_t cfg_t (λ _, x00) 2 hw_t).
  { split; [reflexivity|]. split; [discriminate|]. split; [cbn; unfold IFNAMSIZ; lia|].
    split; [reflexivity|]. split; [reflexivity|discriminate]. }
  assert (Hdone_r : setup_done os_r cfg_r (λ _, x00) 3 hw_r).
  { split; [reflexivity|]. split; [discriminate|]. split; [cbn; unfold IFNAMSIZ; lia|].
    split; [reflexivity|]. split; [reflexivity|discriminate]. }
  assert (Hfull_t : ∀ j, (j < rounds cfg_t)%nat → sendto_full os_t j = true)
    by (intros; reflexivity).
  assert (Hfull_r : ∀ j, (j < rounds cfg_r)%nat → sendto_full os_r j = true)
    by (intros; reflexivity).
  assert (Hto_r : delivers os_r (sent_frames (trace (main os_t cfg_t).2))).
  { rewrite (sent_frames_when_full os_t cfg_t _ _ _ Hdone_t eq_refl Hfull_t).
    intros k f Hk. apply list_lookup_fmap_Some in Hk as (j & -> & Hj).
    apply lookup_seq in Hj as [-> _]. reflexivity. }
  assert (Hacc_r : ∀ j, (j < rounds cfg_r)%nat → accepts os_r j (Z.of_nat j) = true).
  { intros j Hj.
    assert (Hbo : os_byte_order os_r = os_byte_order os_t) by (lazy; reflexivity).
    assert (Hh : (frame_max_size ≤ length (setup_heap os_t cfg_t (λ _, x00) hw_t))%nat)
      by (rewrite setup_heap_length; lia).
    assert (Hj' : Z.of_nat j < 2 ^ 32) by (change (rounds cfg_r) with 2%nat in Hj; lia).
    assert (E : os_recvfrom os_r j = Some (out_frame os_t (setup_heap os_t cfg_t (λ _, x00) hw_t) j))
      by reflexivity.
    exact (accepts_out_frame os_t os_r _ j j Hbo Hh Hj' E). }
  assert (Hto_t : delivers os_t (sent_frames (trace (main os_r cfg_r).2))).
  { rewrite (sent_frames_of_success os_r cfg_r _ _ _ Hdone_r Hfull_r Hacc_r).
    intros k f Hk. apply list_lookup_fmap_Some in Hk as (j & -> & Hj).
    apply lookup_seq in Hj as [-> _]. reflexivity. }
  assert (Hbo : os_byte_order os_t = os_byte_order os_r) by (lazy; reflexivity).
  assert (Hpc : packet_count cfg_r = packet_count cfg_t) by (lazy; reflexivity).
  destruct (same_endian_peers_complete os_t os_r cfg_t cfg_r (λ _, x00) (λ _, x00) 2 3
              hw_t hw_r Hbo eq_refl eq_refl Hpc eq_refl
              Hdone_t Hdone_r Hfull_t Hfull_r Hto_r Hto_t)
    as ((H1 & _ & H2) & (H3 & H4 & _) & _).
  exact (conj H1 (conj H3 (conj H4 H2))).
Defined.

(** The word [magic] read in the other byte order is another word. *)
Lemma magic_in_the_other_order (bo bo' : byte_order) :
  bo ≠ bo' → native_value bo' (native_bytes bo 4 (u32 magic)) ≠ magic.
Proof. destruct bo, bo'; intros H; try done; by vm_compute. Qed.

(** X10. The two hosts must store a 32-bit word the same way: a
    responder whose byte order differs from that of the sender refuses
    the very first frame, because the first word of its payload does not
    read as [magic].  It prints "bad request package 0" and returns -1
    without sending anything. *)
Theorem other_endian_peer_is_refused (os_t os_r : OS) (cfg_t cfg_r : config)
    (g : nat → byte) (idx : Z) (hw : list byte) (f : list byte) :
  let rx := main os_r cfg_r in
  os_byte_order os_t ≠ os_byte_order os_r →
  sent_frames (trace (main os_t cfg_t).2) !! 0%nat = Some f →
  os_recvfrom os_r 0 = Some f →
  setup_done os_r cfg_r g idx hw →
  is_transmitter cfg_r = false →
  0 < packet_count cfg_r →
  rx.1 = Return (-1)
  ∧ trace rx.2
    = [ev_malloc (frame_max_size * 2) true; ev_socket (os_socket os_r);
       ev_ioctl SIOCGIFINDEX (iface cfg_r) 0; ev_ioctl SIOCGIFHWADDR (iface cfg_r) 0;
       ev_bind (setup_saddr os_r cfg_r idx) (os_bind os_r (setup_saddr os_r cfg_r idx));
       ev_stdout (msg_responder_at (iface cfg_r));
       ev_recvfrom frame_max_size (Z.of_nat frame_max_size);
       ev_stderr (msg_bad_request 0)]
  ∧ sent rx.2 = 0%nat ∧ received rx.2 = 1%nat.
Proof.
  cbv zeta. intros Hbo Hf E Hdone Hrx Hpc.
  (* the frame is the first frame of the sender *)
  assert (Hframe : ∃ h, (frame_max_size ≤ length h)%nat ∧ f = out_frame os_t h 0).
  { destruct (run_sent_frames os_t cfg_t) as [[_ Hnil]|(g' & idx' & hw' & _ & _ & Heq)].
    - by rewrite Hnil in Hf.
    - rewrite Heq in Hf. apply list_lookup_fmap_Some in Hf as (j & -> & Hj).
      apply lookup_seq in Hj as [-> _].
      exists (setup_heap os_t cfg_t g' hw'). split; [|done].
      rewrite setup_heap_length. lia. }
  destruct Hframe as (h & Hh & ->).
  assert (Hlen : length (out_frame os_t h 0) = frame_max_size) by by apply length_out_frame.
  assert (Hbad : payload_ok os_r (Z.of_nat 0) (out_frame os_t h 0) = false).
  { apply payload_bad. left. unfold payload_word.
    rewrite Nat.mul_0_r, Nat.add_0_r, (proj1 (out_frame_words os_t h 0 Hh)).
    by apply magic_in_the_other_order. }
  assert (Hfull : recv_full os_r 0 = true).
  { apply (full_of_datagram os_r 0 _ E). lia. }
  assert (Hfirst : first_bad (λ j, accepts os_r j (Z.of_nat j)) (rounds cfg_r) = Some 0%nat).
  { apply first_bad_Some.
    - unfold rounds. lia.
    - intros j' Hj'. lia.
    - by apply (not_accepted_mismatch os_r 0 _ _ E). }
  rewrite main_status, main_sent, main_received, main_trace.
  rewrite (run_expected_after_setup os_r cfg_r g idx hw Hdone), Hrx. cbv zeta.
  unfold rx_expected, refusal. rewrite Hfirst, Hfull. cbn [fst snd finish].
  split; [done|]. split; [|done].
  unfold setup_trace, rx_prologue, recv_events, recv_event. cbn [seq fmap list_fmap app].
  change (0 + 0)%nat with 0%nat. by rewrite (recv_ret_full os_r 0 Hfull).
Qed.

(** The little-endian host of the laboratory sends to a big-endian
    peer. *)
Lemma other_endian_peer_is_refused_witness :
  let os_t := lab (λ _, 1514) lab_peer lab_clock in
  let os_r := lab_other BigEndian (λ _, 1514) (λ k, Some (lab_sends k)) in
  let rx := main os_r (lab_other_config 2 flag_target) in
  rx.1 = Return (-1)
  ∧ last (trace rx.2) = Some (ev_stderr (msg_bad_request 0))
  ∧ sent rx.2 = 0%nat ∧ received rx.2 = 1%nat.
Proof.
  intros os_t os_r rx.
  set (cfg_t := lab_config "eth0" 2 (flag_target + flag_transmitter)).
  set (hw_t := [x02; x00; x00; xaa; xbb; xcc; x00; x00; x00; x00; x00; x00; x00; x00]).
  set (hw_r := [x02; x00; x00; x11; x22; x33; x00; x00; x00; x00; x00; x00; x00; x00]).
  assert (Hbo : os_byte_order os_t ≠ os_byte_order os_r) by (lazy; discriminate).
  assert (Hdone_t : setup_done os_t cfg_t (λ _, x00) 2 hw_t).
  { split; [reflexivity|]. split; [discriminate|]. split; [cbn; unfold IFNAMSIZ; lia|].
    split; [reflexivity|]. split; [reflexivity|discriminate]. }
  assert (Hdone_r : setup_done os_r (lab_other_config 2 flag_target) (λ _, x00) 3 hw_r).
  { split; [reflexivity|]. split; [discriminate|]. split; [cbn; unfold IFNAMSIZ; lia|].
    split; [reflexivity|]. split; [reflexivity|discriminate]. }
  assert (Hf : sent_frames (trace (main os_t cfg_t).2) !! 0%nat = Some (lab_sends 0)).
  { rewrite (sent_frames_when_full os_t cfg_t _ _ _ Hdone_t eq_refl)
      by (intros; reflexivity).
    reflexivity. }
  destruct (other_endian_peer_is_refused os_t os_r cfg_t (lab_other_config 2 flag_target)
              (λ _, x00) 3 hw_r (lab_sends 0) Hbo Hf eq_refl Hdone_r eq_refl eq_refl)
    as (H1 & H2 & H3).
  split; [exact H1|]. split; [|exact H3].
  unfold rx. rewrite H2. reflexivity.
Defined.
(** * The command line *)

(** Decides the comparisons of the names of the options. *)
Ltac names :=
  repeat match goal with
  | |- context [String.eqb ?x ?y] =>
      is_closed_term x; is_closed_term y;
      let b := eval vm_compute in (String.eqb x y) in
      change (String.eqb x y) with b
  end;
  cbv iota.

Section CommandLine.
Context (libc : Libc) (argv : list string).
Implicit Types (i fuel : nat) (a : args) (g : option_group) (gs : list option_group).

(** ** The loop *)

Lemma parse_loop_stops fuel i a :
  cmd_err a = true → parse_loop libc argv fuel i a = a.
Proof. destruct fuel; [done|]. cbn [parse_loop]. intros ->. by rewrite andb_false_r. Qed.

Lemma parse_loop_end fuel i a :
  (length argv ≤ i)%nat → parse_loop libc argv fuel i a = a.
Proof.
  destruct fuel; [done|]. cbn [parse_loop]. intros H.
  by apply Nat.ltb_ge in H as ->.
Qed.

Lemma parse_step_index i a :
  (i ≤ (parse_step libc argv i a).1 ≤ S i)%nat.
Proof.
  unfold parse_step. cbv zeta. repeat case_match; cbn [fst]; lia.
Qed.

(** The loop does not depend on the fuel, once there is enough. *)
Lemma parse_loop_fuel fuel fuel' i a :
  (length argv ≤ fuel + i)%nat → (length argv ≤ fuel' + i)%nat →
  parse_loop libc argv fuel i a = parse_loop libc argv fuel' i a.
Proof.
  revert fuel' i a. induction fuel as [|fuel IH]; intros fuel' i a H H'.
  - by rewrite !parse_loop_end by lia.
  - destruct fuel' as [|fuel']; [by rewrite !parse_loop_end by lia|].
    cbn [parse_loop]. destruct (_ && _); [|done].
    pose proof (parse_step_index i a) as Hi.
    destruct (parse_step libc argv i a) as [i' a']. cbn [fst] in Hi.
    apply IH; lia.
Qed.

Lemma parse_loop_step fuel i a :
  (length argv ≤ fuel + i)%nat → (i < length argv)%nat → cmd_err a = false →
  parse_loop libc argv fuel i a
  = parse_loop libc argv fuel (S (parse_step libc argv i a).1) (parse_step libc argv i a).2.
Proof.
  intros H Hi Ha. destruct fuel as [|fuel]; [lia|].
  change (parse_loop libc argv (S fuel) i a)
    with (if (i <? length argv)%nat && negb (cmd_err a)
          then let '(i', a') := parse_step libc argv i a in
               parse_loop libc argv fuel (S i') a'
          else a).
  apply Nat.ltb_lt in Hi as Hi'. rewrite Hi', Ha. cbn [andb negb].
  pose proof (parse_step_index i a) as Hs.
  destruct (parse_step libc argv i a) as [i' a']. cbn [fst snd] in *.
  apply parse_loop_fuel; lia.
Qed.

(** ** One option *)

Lemma drop_lookup_total i (l : list string) j x :
  drop i argv = l → l !! j = Some x →
  argv !!! (i + j)%nat = x ∧ (i + j < length argv)%nat.
Proof.
  intros <- H. rewrite lookup_drop in H. split.
  - by apply list_lookup_total_correct.
  - by apply lookup_lt_Some in H.
Qed.

(** The loop takes an admissible option, and raises [cmd_err] at any
    other. *)
Lemma parse_step_group i a g rest :
  drop i argv = words g ++ rest →
  (parse_step libc argv i a).1 = (i + length (words g) - 1)%nat
  ∧ if admissible libc a g
    then (parse_step libc argv i a).2 = apply_group libc i g a
    else cmd_err (parse_step libc argv i a).2 = true.
Proof.
  intros Hd. unfold parse_step, admissible. cbv zeta.
  destruct g as [name|mac|count|]; cbn [words app fresh well_formed apply_group] in *.
  all: destruct (drop_lookup_total i _ 0 _ Hd eq_refl) as [H0 _].
  all: rewrite Nat.add_0_r in H0; rewrite H0.
  - destruct (drop_lookup_total i _ 1 name Hd eq_refl) as [H1 Hlt].
    rewrite Nat.add_1_r in H1, Hlt. rewrite H1.
    apply Nat.ltb_lt in Hlt as ->. names. cbn [andb].
    cbn [iface_nameidx iface_namelen set_cmd_err set_iface_namelen set_iface_nameidx].
    destruct (_ =? _)%nat; cbn [andb fst snd length]; [|split; [lia|done]].
    destruct (_ <? _); cbn [fst snd]; (split; [lia|done]).
  - destruct (drop_lookup_total i _ 1 mac Hd eq_refl) as [H1 Hlt].
    rewrite Nat.add_1_r in H1, Hlt. rewrite H1.
    apply Nat.ltb_lt in Hlt as ->. names. cbn [andb].
    cbn [arg_flags arg_target set_cmd_err set_arg_target set_arg_flags].
    destruct (Z.land _ _ =? 0); cbn [andb fst snd length]; [|split; [lia|done]].
    destruct (_ =? _)%nat; cbn [fst snd]; (split; [lia|done]).
  - destruct (drop_lookup_total i _ 1 count Hd eq_refl) as [H1 Hlt].
    rewrite Nat.add_1_r in H1, Hlt. rewrite H1.
    apply Nat.ltb_lt in Hlt as ->. names. cbn [andb].
    cbn [arg_packet_count set_cmd_err set_arg_packet_count].
    destruct (arg_packet_count a =? 0); cbn [andb fst snd length]; [|split; [lia|done]].
    unfold count_value. destruct (sscanf_u libc count) as [v|]; cbn [fst snd negb Z.eqb].
    + destruct (u32 v =? 0); cbn [negb fst snd]; (split; [lia|done]).
    + split; [lia|done].
  - names. cbn [andb fst snd length]. split; [lia|done].
Qed.

(** An iteration that leaves [cmd_err] clear has taken an admissible
    option. *)
Lemma parse_step_inv i a :
  (i < length argv)%nat →
  cmd_err (parse_step libc argv i a).2 = false →
  ∃ g rest, drop i argv = words g ++ rest ∧ admissible libc a g = true.
Proof.
  intros Hi. unfold parse_step, admissible. cbv zeta.
  assert (H0 : argv !! i = Some (argv !!! i)) by by apply list_lookup_lookup_total_lt.
  assert (H1 : (S i <? length argv)%nat = true → argv !! S i = Some (argv !!! S i)).
  { intros H%Nat.ltb_lt. by apply list_lookup_lookup_total_lt. }
  assert (Hd : ∀ w, argv !!! i = w → (S i <? length argv)%nat = true →
            drop i argv = w :: argv !!! S i :: drop (S (S i)) argv).
  { intros w <- H. rewrite (drop_S _ _ _ H0). f_equal. by apply drop_S, H1. }
  destruct (String.eqb_spec (argv !!! i) argInterface) as [E|_].
  { destruct (S i <? length argv)%nat eqn:Hlt; cbn [andb]; [|done].
    cbn [iface_nameidx iface_namelen set_cmd_err set_iface_namelen set_iface_nameidx].
    destruct (iface_nameidx a =? 0)%nat eqn:Hf; [|done].
    destruct (_ <? _) eqn:Hw; [|done]. intros _.
    exists (opt_interface (argv !!! S i)), (drop (S (S i)) argv).
    cbn [words app fresh well_formed]. rewrite Hf, Hw. split; [by apply Hd|done]. }
  destruct (String.eqb_spec (argv !!! i) argTarget) as [E|_].
  { destruct (S i <? length argv)%nat eqn:Hlt; cbn [andb]; [|done].
    cbn [arg_flags arg_target set_cmd_err set_arg_target set_arg_flags].
    destruct (Z.land _ _ =? 0) eqn:Hf; [|done].
    destruct (_ =? _)%nat eqn:Hw; [|done]. intros _.
    exists (opt_target (argv !!! S i)), (drop (S (S i)) argv).
    cbn [words app fresh well_formed]. rewrite Hf, Hw. split; [by apply Hd|done]. }
  destruct (String.eqb_spec (argv !!! i) argPacketCount) as [E|_].
  { destruct (S i <? length argv)%nat eqn:Hlt; cbn [andb]; [|done].
    cbn [arg_packet_count set_cmd_err set_arg_packet_count].
    destruct (arg_packet_count a =? 0) eqn:Hf; [|done].
    destruct (sscanf_u libc (argv !!! S i)) as [v|] eqn:Hv; [|done].
    destruct (negb (u32 v =? 0)) eqn:Hw; [|done]. intros _.
    exists (opt_packetcount (argv !!! S i)), (drop (S (S i)) argv).
    cbn [words app fresh well_formed]. unfold count_value. rewrite Hf, Hv, Hw.
    split; [by apply Hd|done]. }
  destruct (String.eqb_spec (argv !!! i) argTransmitter) as [E|_]; [|done].
  intros _. exists opt_transmitter, (drop (S i) argv).
  cbn [words app]. split; [|done]. rewrite <- E. by apply drop_S.
Qed.

(** ** A sequence of options *)

Lemma length_words g : (1 ≤ length (words g))%nat.
Proof. destruct g; cbn; lia. Qed.

(** The loop takes the options of a sequence one after the other as
    long as they are admissible. *)
Lemma parse_groups gs i a fuel rest :
  drop i argv = concat (words <$> gs) ++ rest →
  cmd_err a = false →
  (length argv ≤ fuel + i)%nat →
  if admissible_all libc i gs a
  then parse_loop libc argv fuel i a
       = parse_loop libc argv fuel (i + length (concat (words <$> gs)))
                    (apply_groups libc i gs a)
       ∧ (gs ≠ [] → cmd_err (apply_groups libc i gs a) = false)
  else cmd_err (parse_loop libc argv fuel i a) = true.
Proof.
  revert i a rest. induction gs as [|g gs IH]; intros i a rest Hd Ha Hfuel.
  { cbn. by rewrite Nat.add_0_r. }
  cbn [fmap list_fmap concat admissible_all apply_groups] in *.
  rewrite <- app_assoc in Hd.
  pose proof (length_words g) as Hg.
  assert (Hi : (i < length argv)%nat).
  { apply (f_equal length) in Hd. rewrite length_drop, length_app in Hd. lia. }
  rewrite parse_loop_step by done.
  destruct (parse_step_group i a g _ Hd) as [-> Hstep].
  replace (S (i + length (words g) - 1)) with (i + length (words g))%nat by lia.
  destruct (admissible libc a g); cbn [andb].
  - rewrite Hstep.
    assert (Hd' : drop (i + length (words g)) argv = concat (words <$> gs) ++ rest).
    { rewrite <- drop_drop, Hd. by rewrite drop_app_length. }
    assert (Ha' : cmd_err (apply_group libc i g a) = false) by by destruct g.
    assert (Hfuel' : (length argv ≤ fuel + (i + length (words g)))%nat) by lia.
    specialize (IH _ _ _ Hd' Ha' Hfuel').
    destruct (admissible_all libc _ gs _); [|done].
    destruct IH as [-> IH]. rewrite length_app, Nat.add_assoc. split; [done|].
    intros _. destruct gs; [done|]. by apply IH.
  - by rewrite parse_loop_stops.
Qed.

(** Conversely, a loop that ends with [cmd_err] clear has read a
    sequence of admissible options. *)
Lemma parse_groups_inv n i a fuel :
  (length argv - i ≤ n)%nat →
  cmd_err a = false →
  (length argv ≤ fuel + i)%nat →
  cmd_err (parse_loop libc argv fuel i a) = false →
  ∃ gs, drop i argv = concat (words <$> gs)
        ∧ admissible_all libc i gs a = true
        ∧ parse_loop libc argv fuel i a = apply_groups libc i gs a.
Proof.
  revert i a. induction n as [|n IH]; intros i a Hn Ha Hfuel Hend.
  { exists []. rewrite parse_loop_end, drop_ge by lia. done. }
  destruct (decide (length argv ≤ i)%nat) as [Hi|Hi].
  { exists []. rewrite parse_loop_end, drop_ge by lia. done. }
  rewrite parse_loop_step in Hend |- * by (done || lia).
  destruct (cmd_err (parse_step libc argv i a).2) eqn:Hstep.
  { rewrite parse_loop_stops in Hend by done. congruence. }
  destruct (parse_step_inv i a ltac:(lia) Hstep) as (g & rest & Hd & Hadm).
  destruct (parse_step_group i a g rest Hd) as [Hidx Hstate].
  rewrite Hadm in Hstate. rewrite Hidx, Hstate in Hend |- *.
  pose proof (length_words g) as Hg.
  replace (S (i + length (words g) - 1)) with (i + length (words g))%nat in * by lia.
  destruct (IH (i + length (words g))%nat (apply_group libc i g a))
    as (gs & Hd' & Hadm' & Heq); try done; try lia.
  { by destruct g. }
  exists (g :: gs). cbn [fmap list_fmap concat admissible_all apply_groups].
  rewrite Hadm, Hadm', Heq. split; [|done].
  rewrite <- (take_drop (length (words g)) (drop i argv)), drop_drop, Hd'.
  f_equal. by rewrite Hd, take_app_length.
Qed.

(** ** What a sequence of admissible options leaves in the variables *)

Lemma land_lor_target (f : Z) :
  Z.land (Z.lor f flag_target) flag_target = flag_target
  ∧ Z.land (Z.lor f flag_transmitter) flag_target = Z.land f flag_target.
Proof.
  rewrite !Z.land_lor_distr_l. change (Z.land flag_target flag_target) with 2.
  change (Z.land flag_transmitter flag_target) with 0. rewrite Z.lor_0_r.
  split; [|done]. apply Z.bits_inj'. intros n Hn.
  rewrite Z.lor_spec, Z.land_spec. unfold flag_target.
  by destruct (Z.testbit f n), (Z.testbit 2 n).
Qed.

Lemma groups_state gs i a rest :
  drop i argv = concat (words <$> gs) ++ rest →
  admissible_all libc i gs a = true →
  let a' := apply_groups libc i gs a in
  Forall (λ g, well_formed libc g = true) gs
  ∧ match interfaces gs with
    | [] => iface_nameidx a' = iface_nameidx a
    | [name] =>
        iface_nameidx a = 0%nat ∧ iface_nameidx a' ≠ 0%nat
        ∧ argv !!! iface_nameidx a' = name
    | _ => False
    end
  ∧ match targets gs with
    | [] => arg_target a' = arg_target a
    | [mac] =>
        Z.land (arg_flags a) flag_target = 0
        ∧ arg_target a' = list_inserts 0 (sscanf_hhx6 libc mac) (arg_target a)
    | _ => False
    end
  ∧ match counts gs with
    | [] => arg_packet_count a' = arg_packet_count a
    | [count] => arg_packet_count a = 0 ∧ arg_packet_count a' = count_value libc count
    | _ => False
    end
  ∧ arg_flags a'
    = Z.lor (arg_flags a)
        (Z.lor (match targets gs with [] => 0 | _ => flag_target end)
               (if transmitters gs then flag_transmitter else 0)).
Proof.
  cbv zeta. revert i a rest. induction gs as [|g gs IH]; intros i a rest Hd Hadm.
  { cbn. by rewrite Z.lor_0_r. }
  cbn [fmap list_fmap concat admissible_all apply_groups] in *.
  rewrite <- app_assoc in Hd.
  apply andb_prop in Hadm as [[Hfresh Hwf]%andb_prop Hadm].
  assert (Hd' : drop (i + length (words g)) argv = concat (words <$> gs) ++ rest).
  { rewrite <- drop_drop, Hd. by rewrite drop_app_length. }
  destruct (IH _ _ _ Hd' Hadm) as (IHwf & IHi & IHt & IHc & IHf). clear IH.
  split; [by apply Forall_cons|].
  destruct (land_lor_target (arg_flags a)) as [Hl2 Hl1].
  destruct g as [name|mac|count|];
    cbn [interfaces targets counts transmitters omap list_omap existsb
         is_opt_transmitter orb apply_group fresh
         iface_nameidx iface_namelen arg_target arg_packet_count arg_flags] in *;
    fold (interfaces gs) (targets gs) (counts gs) (transmitters gs) in *.
  - apply Nat.eqb_eq in Hfresh.
    destruct (interfaces gs) as [|n' [|]]; [|by destruct IHi|done].
    rewrite IHi. split; [|done]. split; [done|]. split; [done|].
    destruct (drop_lookup_total i _ 1 name Hd eq_refl) as [H1 _].
    by rewrite Nat.add_1_r in H1.
  - apply Z.eqb_eq in Hfresh. split; [done|].
    destruct (targets gs) as [|m' [|]];
      [|destruct IHt as [IHt _]; rewrite Hl2 in IHt; discriminate|done].
    rewrite IHt, IHf. split; [done|]. split; [done|].
    by rewrite Z.lor_0_l, Z.lor_assoc.
  - apply Z.eqb_eq in Hfresh. split; [done|]. split; [done|].
    destruct (counts gs) as [|c' [|]]; [|destruct IHc as [IHc _]|done].
    + rewrite IHc. done.
    + apply negb_true_iff, Z.eqb_neq in Hwf. done.
  - split; [done|]. rewrite Hl1 in IHt. split; [done|]. split; [done|].
    rewrite IHf, <- Z.lor_assoc. f_equal.
    destruct (targets gs), (transmitters gs); reflexivity.
Qed.

Lemma groups_admissible gs i a :
  Forall (λ g, well_formed libc g = true) gs →
  (interfaces gs = [] ∨ iface_nameidx a = 0%nat ∧ length (interfaces gs) = 1%nat) →
  (targets gs = [] ∨ Z.land (arg_flags a) flag_target = 0 ∧ length (targets gs) = 1%nat) →
  (counts gs = [] ∨ arg_packet_count a = 0 ∧ length (counts gs) = 1%nat) →
  admissible_all libc i gs a = true.
Proof.
  revert i a. induction gs as [|g gs IH]; intros i a Hwf Hi Ht Hc; [done|].
  apply Forall_cons in Hwf as [Hg Hwf].
  cbn [admissible_all]. unfold admissible. rewrite Hg, andb_true_r.
  destruct (land_lor_target (arg_flags a)) as [_ Hl1].
  destruct g as [name|mac|count|];
    cbn [interfaces targets counts omap list_omap apply_group fresh length] in *;
    fold (interfaces gs) (targets gs) (counts gs) in *.
  - destruct Hi as [|[-> Hi]]; [done|]. cbn [Nat.eqb andb].
    apply IH; try done. left. apply nil_length_inv. lia.
  - destruct Ht as [|[-> Ht]]; [done|]. cbn [Z.eqb andb].
    apply IH; try done. left. apply nil_length_inv. lia.
  - destruct Hc as [|[-> Hc]]; [done|]. cbn [Z.eqb andb].
    apply IH; try done. left. apply nil_length_inv. lia.
  - cbn [andb]. apply IH; try done.
    cbn [arg_flags]. by rewrite Hl1.
Qed.

Lemma target_octets (l : list byte) :
  length l = 6%nat → list_inserts 0 l (replicate 8 x00) = l ++ [x00; x00].
Proof. do 7 (destruct l as [|? l]; try done). Qed.

Lemma elem_of_targets gs mac : mac ∈ targets gs → opt_target mac ∈ gs.
Proof.
  unfold targets. rewrite list_elem_of_omap. intros (g & Hg & E).
  destruct g; try done. by injection E as ->.
Qed.

Lemma elem_of_counts gs count : count ∈ counts gs → opt_packetcount count ∈ gs.
Proof.
  unfold counts. rewrite list_elem_of_omap. intros (g & Hg & E).
  destruct g; try done. by injection E as ->.
Qed.

Lemma elem_of_interfaces gs name : name ∈ interfaces gs → opt_interface name ∈ gs.
Proof.
  unfold interfaces. rewrite list_elem_of_omap. intros (g & Hg & E).
  destruct g; try done. by injection E as ->.
Qed.
End CommandLine.

(** ** The command lines [main] accepts *)

Lemma parse_of_groups (libc : Libc) (argv0 : string) (gs : list option_group) :
  admissible_all libc 1 gs args_init = true →
  parse libc (argv0 :: concat (words <$> gs)) = apply_groups libc 1 gs args_init.
Proof.
  intros Hadm. unfold parse.
  pose proof (parse_groups libc (argv0 :: concat (words <$> gs)) gs 1 args_init
                (length (argv0 :: concat (words <$> gs))) []) as H.
  rewrite Hadm in H. destruct H as [-> _].
  - cbn [drop]. by rewrite drop_0, app_nil_r.
  - done.
  - lia.
  - apply parse_loop_end. cbn [length]. lia.
Qed.

Lemma groups_of_parse (libc : Libc) (argv : list string) :
  argv ≠ [] →
  cmd_err (parse libc argv) = false →
  ∃ argv0 gs,
    argv = argv0 :: concat (words <$> gs)
    ∧ admissible_all libc 1 gs args_init = true
    ∧ parse libc argv = apply_groups libc 1 gs args_init.
Proof.
  intros Hne Herr. destruct argv as [|argv0 tl]; [done|]. unfold parse in *.
  destruct (parse_groups_inv libc (argv0 :: tl) (length (argv0 :: tl)) 1 args_init
              (length (argv0 :: tl))) as (gs & Hd & Hadm & Heq); try done; try lia.
  exists argv0, gs. cbn [drop] in Hd. rewrite drop_0 in Hd. by rewrite Hd at 1.
Qed.

Lemma flags_of_groups (t : list string) (tr : bool) :
  Z.lor 0 (Z.lor (match t with [] => 0 | _ => flag_target end)
                 (if tr then flag_transmitter else 0))
  = match t with
    | [] => if tr then flag_transmitter else 0
    | _ => if tr then flag_target + flag_transmitter else flag_target
    end.
Proof. by destruct t, tr. Qed.

Lemma command_line_sound (libc : Libc) (argv : list string) (cfg : config) :
  command_line libc argv = Some cfg →
  ∃ argv0 gs name mac count,
    argv = argv0 :: concat (words <$> gs)
    ∧ interfaces gs = [name] ∧ targets gs = [mac] ∧ counts gs = [count]
    ∧ Forall (λ g, well_formed libc g = true) gs
    ∧ cfg = Config name (sscanf_hhx6 libc mac ++ [x00; x00]) (count_value libc count)
                   (if transmitters gs then flag_target + flag_transmitter
                    else flag_target).
Proof.
  unfold command_line, usage_needed.
  destruct (cmd_err (parse libc argv)) eqn:Herr; [done|].
  destruct (iface_nameidx (parse libc argv) =? 0)%nat eqn:Hidx; [done|].
  destruct (Z.land (arg_flags (parse libc argv)) flag_target =? 0) eqn:Hfl; [done|].
  destruct (arg_packet_count (parse libc argv) =? 0) eqn:Hpc; [done|].
  cbn [orb]. intros [= <-].
  apply Nat.eqb_neq in Hidx. apply Z.eqb_neq in Hfl, Hpc.
  assert (Hne : argv ≠ []) by (by intros ->).
  destruct (groups_of_parse libc argv Hne Herr) as (argv0 & gs & Hargv & Hadm & Heq).
  rewrite Heq in Hidx, Hfl, Hpc |- *.
  destruct (groups_state libc argv gs 1 args_init []) as (Hwf & Hi & Ht & Hc & Hf);
    [by rewrite Hargv, app_nil_r|done|].
  rewrite flags_of_groups in Hf. rewrite Hf in Hfl |- *.
  destruct (interfaces gs) as [|name [|]] eqn:Ei; [done| |done].
  destruct (targets gs) as [|mac [|]] eqn:Et; [by destruct (transmitters gs)| |done].
  destruct (counts gs) as [|count [|]] eqn:Ec; [done| |done].
  destruct Hi as (_ & _ & Hname). destruct Ht as [_ Ht]. destruct Hc as [_ Hc].
  exists argv0, gs, name, mac, count. repeat (split; [done|]).
  f_equal; try done. rewrite Ht. apply target_octets.
  assert (Hin : opt_target mac ∈ gs).
  { apply elem_of_targets. rewrite Et. by left. }
  rewrite Forall_forall in Hwf. apply Hwf in Hin. by apply Nat.eqb_eq in Hin.
Qed.

Lemma command_line_complete (libc : Libc) (argv : list string) (cfg : config) :
  (∃ argv0 gs name mac count,
    argv = argv0 :: concat (words <$> gs)
    ∧ interfaces gs = [name] ∧ targets gs = [mac] ∧ counts gs = [count]
    ∧ Forall (λ g, well_formed libc g = true) gs
    ∧ cfg = Config name (sscanf_hhx6 libc mac ++ [x00; x00]) (count_value libc count)
                   (if transmitters gs then flag_target + flag_transmitter
                    else flag_target)) →
  command_line libc argv = Some cfg.
Proof.
  unfold command_line, usage_needed.
  intros (argv0 & gs & name & mac & count & -> & Ei & Et & Ec & Hwf & ->).
  assert (Hadm : admissible_all libc 1 gs args_init = true).
  { apply groups_admissible; [done|right; by rewrite ?Ei, ?Et, ?Ec..]. }
  rewrite (parse_of_groups libc argv0 gs Hadm).
  destruct (groups_state libc (argv0 :: concat (words <$> gs)) gs 1 args_init [])
    as (_ & Hi & Ht & Hc & Hf); [by rewrite app_nil_r|done|].
  pose proof (parse_groups libc (argv0 :: concat (words <$> gs)) gs 1 args_init
                (length (argv0 :: concat (words <$> gs))) []) as Hp.
  rewrite Hadm in Hp. destruct Hp as [_ Herr]; [by rewrite app_nil_r|done|lia|].
  rewrite flags_of_groups in Hf. rewrite Ei in Hi. rewrite Et in Ht, Hf. rewrite Ec in Hc.
  destruct Hi as (_ & Hidx & Hname). destruct Ht as [_ Ht]. destruct Hc as [_ Hc].
  rewrite Forall_forall in Hwf.
  assert (Hmac : length (sscanf_hhx6 libc mac) = 6%nat).
  { assert (Hin : opt_target mac ∈ gs) by (apply elem_of_targets; rewrite Et; by left).
    apply Hwf in Hin. by apply Nat.eqb_eq in Hin. }
  assert (Hcount : count_value libc count ≠ 0).
  { assert (Hin : opt_packetcount count ∈ gs)
      by (apply elem_of_counts; rewrite Ec; by left).
    apply Hwf in Hin. by apply negb_true_iff, Z.eqb_neq in Hin. }
  rewrite Herr by (intros ->; done).
  apply Nat.eqb_neq in Hidx as ->. rewrite Hf, Hc, Ht, Hname.
  apply Z.eqb_neq in Hcount as ->.
  rewrite target_octets by done.
  by destruct (transmitters gs).
Qed.

(** X11. The command lines [main] accepts are exactly those made of
    the name of the program followed by options in any order, where
    "-interface", "-target" and "-packetcount" each come exactly once
    with a well-formed value (a name shorter than [IFNAMSIZ], an address
    of which [sscanf] converts six octets, a count that [sscanf] converts
    to a number other than 0) and "-transmitter" comes any number of
    times.  The configuration is then the interface name, the six octets
    followed by two zero octets, the count, and the flags 2 or 3
    according to the presence of "-transmitter".  Every other command
    line gets the usage. *)
Theorem accepted_command_lines (libc : Libc) (argv : list string) (cfg : config) :
  command_line libc argv = Some cfg ↔
  ∃ argv0 gs name mac count,
    argv = argv0 :: concat (words <$> gs)
    ∧ interfaces gs = [name] ∧ targets gs = [mac] ∧ counts gs = [count]
    ∧ Forall (λ g, well_formed libc g = true) gs
    ∧ cfg = Config name (sscanf_hhx6 libc mac ++ [x00; x00]) (count_value libc count)
                   (if transmitters gs then flag_target + flag_transmitter
                    else flag_target).
Proof. split; [apply command_line_sound|apply command_line_complete]. Qed.

(** The options in an order of their own, with a value that looks like
    an option. *)
Lemma accepted_command_lines_witness :
  command_line lab_libc
    ["bandw"%string; "-packetcount"%string; "1000"%string; "-transmitter"%string; "-target"%string; "02:00:00:11:22:33"%string;
     "-transmitter"%string; "-interface"%string; "-target"%string]
  = Some (Config "-target"%string [x02; x00; x00; x11; x22; x33; x00; x00] 1000 3).
Proof.
  apply (proj2 (accepted_command_lines lab_libc _ _)).
  exists "bandw"%string,
    [opt_packetcount "1000"%string; opt_transmitter; opt_target "02:00:00:11:22:33"%string;
     opt_transmitter; opt_interface "-target"%string],
    "-target"%string, "02:00:00:11:22:33"%string, "1000"%string.
  split; [reflexivity|]. split; [reflexivity|]. split; [reflexivity|].
  split; [reflexivity|]. split; [|reflexivity].
  repeat (apply Forall_cons; split; [reflexivity|]). apply Forall_nil_2.
Defined.

(** ** What the rest of [main] can rely on *)

Lemma elem_of_words_concat (gs : list option_group) (g : option_group) (w : string) :
  g ∈ gs → w ∈ words g → w ∈ concat (words <$> gs).
Proof.
  intros Hg Hw. apply list_elem_of_In, in_concat. exists (words g).
  split; [|by apply list_elem_of_In].
  apply list_elem_of_In, list_elem_of_fmap. by exists g.
Qed.

(** X12. The configuration [main] draws from an accepted command line
    is one the rest of the program can work with: the interface name is
    an argument that follows "-interface" and is shorter than [IFNAMSIZ],
    so that the assertion of [init_ethhdr_and_saddr] holds and [main] is
    never aborted; the target has eight octets, the last two zero; the
    packet count is a 32-bit number other than 0; the flags are 2 or 3,
    and 3 only if "-transmitter" is among the arguments.  (Every argument
    is taken to be shorter than 2^32 characters, so that its length fits
    the [uint32_t] it is stored in.) *)
Theorem accepted_configuration (os : OS) (libc : Libc) (argv : list string)
    (cfg : config) :
  command_line libc argv = Some cfg →
  Forall (λ w, Z.of_nat (String.length w) < 2 ^ 32) argv →
  (∃ i, argv !! i = Some argInterface ∧ argv !! S i = Some (iface cfg))
  ∧ (String.length (iface cfg) < IFNAMSIZ)%nat
  ∧ length (target cfg) = 8%nat ∧ drop 6 (target cfg) = [x00; x00]
  ∧ 0 < packet_count cfg < 2 ^ 32
  ∧ (flags cfg = flag_target ∨ flags cfg = flag_target + flag_transmitter)
  ∧ (is_transmitter cfg = true → argTransmitter ∈ argv)
  ∧ (main os cfg).1 ≠ Aborted.
Proof.
  intros Hcl Hlen.
  destruct (command_line_sound libc argv cfg Hcl)
    as (argv0 & gs & name & mac & count & -> & Ei & Et & Ec & Hwf & ->).
  cbn [iface target packet_count flags].
  rewrite Forall_forall in Hwf.
  assert (Hgi : opt_interface name ∈ gs) by (apply elem_of_interfaces; rewrite Ei; by left).
  assert (Hgt : opt_target mac ∈ gs) by (apply elem_of_targets; rewrite Et; by left).
  assert (Hgc : opt_packetcount count ∈ gs) by (apply elem_of_counts; rewrite Ec; by left).
  assert (Hname : (String.length name < IFNAMSIZ)%nat).
  { assert (Hin : name ∈ argv0 :: concat (words <$> gs)).
    { right. apply (elem_of_words_concat gs _ _ Hgi). cbn. right. by left. }
    rewrite Forall_forall in Hlen. apply Hlen in Hin.
    apply Hwf in Hgi. cbn [well_formed] in Hgi. apply Z.ltb_lt in Hgi.
    rewrite u32_small in Hgi by lia. lia. }
  apply Hwf in Hgt as Hmac. cbn [well_formed] in Hmac. apply Nat.eqb_eq in Hmac.
  apply Hwf in Hgc as Hcount. cbn [well_formed] in Hcount.
  apply negb_true_iff, Z.eqb_neq in Hcount.
  split; [|split; [done|split; [|split; [|split; [|split; [|split]]]]]].
  - apply list_elem_of_split in Hgi as (g1 & g2 & ->).
    exists (S (length (concat (words <$> g1)))).
    rewrite fmap_app, concat_app. cbn [fmap list_fmap concat words app].
    split.
    + exact (list_lookup_middle (concat (words <$> g1)) _ argInterface _ eq_refl).
    + change ((concat (words <$> g1) ++ argInterface :: name :: concat (words <$> g2))
                !! S (length (concat (words <$> g1))) = Some name).
      rewrite lookup_app_r by lia.
      by replace (S (length (concat (words <$> g1))) - length (concat (words <$> g1)))%nat
        with 1%nat by lia.
  - rewrite length_app, Hmac. done.
  - by rewrite drop_app_length' by done.
  - unfold count_value in *. destruct (sscanf_u libc count) as [v|]; [|done].
    pose proof (u32_range v). lia.
  - destruct (transmitters gs); auto.
  - unfold is_transmitter. cbn [flags].
    destruct (transmitters gs) eqn:Etr; [|done]. intros _.
    unfold transmitters in Etr. apply existsb_exists in Etr as (g & Hg & Hx).
    destruct g; try done. right.
    apply (elem_of_words_concat gs opt_transmitter); [by apply list_elem_of_In|].
    by left.
  - pose proof (main_shape os
      (Config name (sscanf_hhx6 libc mac ++ [x00; x00]) (count_value libc count)
              (if transmitters gs then flag_target + flag_transmitter else flag_target)))
      as Hshape.
    intros Hab. rewrite Hab in Hshape.
    inversion Hshape as [| |g' m' _ _ Hlong _| | | |g' idx' hw' r' m' _ _ Hr Hf
                        |g' idx' hw' r' m' _ _ Hr Hf];
      subst; cbn [iface] in *; try lia.
    + by destruct Hr.
    + by destruct Hr.
Qed.

Lemma accepted_configuration_witness :
  let argv := ["bandw"%string; "-interface"%string; "eth0"%string;
               "-target"%string; "02:00:00:11:22:33"%string;
               "-packetcount"%string; "1000"%string] in
  let cfg := Config "eth0" [x02; x00; x00; x11; x22; x33; x00; x00] 1000 2 in
  command_line lab_libc argv = Some cfg
  ∧ (main (lab (λ _, 1514) lab_peer lab_clock) cfg).1 ≠ Aborted.
Proof.
  intros argv cfg.
  assert (H : command_line lab_libc argv = Some cfg) by reflexivity.
  split; [exact H|].
  assert (Hlen : Forall (λ w, Z.of_nat (String.length w) < 2 ^ 32) argv).
  { repeat (apply Forall_cons; split; [reflexivity|]). apply Forall_nil_2. }
  exact (proj2 (proj2 (proj2 (proj2 (proj2 (proj2 (proj2
           (accepted_configuration (lab (λ _, 1514) lab_peer lab_clock) lab_libc argv cfg
              H Hlen)))))))).
Defined.

(** ** The command lines [main] refuses *)

Section Refused.
Context (libc : Libc) (argv : list string).

Lemma parse_step_unknown i a :
  argv !!! i ∉ [argInterface; argTarget; argPacketCount; argTransmitter] →
  cmd_err (parse_step libc argv i a).2 = true.
Proof.
  intros Hw. unfold parse_step. cbv zeta.
  rewrite !not_elem_of_cons in Hw. destruct Hw as (H1 & H2 & H3 & H4 & _).
  apply String.eqb_neq in H1, H2, H3, H4. by rewrite H1, H2, H3, H4.
Qed.

Lemma parse_step_missing i a w :
  drop i argv = [w] →
  w ∈ [argInterface; argTarget; argPacketCount] →
  cmd_err (parse_step libc argv i a).2 = true.
Proof.
  intros Hd Hw. unfold parse_step. cbv zeta.
  destruct (drop_lookup_total argv i _ 0 w Hd eq_refl) as [H0 _].
  rewrite Nat.add_0_r in H0. rewrite H0.
  assert (Hlast : (S i <? length argv)%nat = false).
  { apply Nat.ltb_ge. apply (f_equal length) in Hd. rewrite length_drop in Hd.
    cbn in Hd. lia. }
  rewrite Hlast. cbn [andb].
  rewrite !elem_of_cons in Hw. destruct Hw as [->|[->|[->|Hw]]]; [..|by inversion Hw].
  all: names; done.
Qed.
End Refused.

(** After the options [gs], either [cmd_err] is raised for good or the
    loop goes on behind them with the variables they leave. *)
Lemma after_groups (libc : Libc) (argv0 : string) (gs : list option_group)
    (tail : list string) :
  let argv := argv0 :: concat (words <$> gs) ++ tail in
  let i := S (length (concat (words <$> gs))) in
  let a := apply_groups libc 1 gs args_init in
  cmd_err (parse libc argv) = true
  ∨ (parse libc argv = parse_loop libc argv (length argv) i a
     ∧ drop i argv = tail
     ∧ cmd_err a = false
     ∧ admissible_all libc 1 gs args_init = true).
Proof.
  cbv zeta. unfold parse.
  set (argv := argv0 :: concat (words <$> gs) ++ tail).
  pose proof (parse_groups libc argv gs 1 args_init (length argv) tail) as H.
  destruct (admissible_all libc 1 gs args_init); [right|left; apply H; try done; lia].
  destruct H as [H Herr]; [done|done|lia|].
  split; [exact H|]. split; [|split; [|done]].
  - unfold argv. cbn [drop]. by rewrite drop_app_length.
  - destruct gs; [done|]. by apply Herr.
Qed.

(** X13. A command line that goes wrong somewhere gets the usage line
    for [argv[0]] and nothing else: no memory is asked for, no socket is
    opened.  This is so when, after any sequence of options, there comes a
    word that is not an option, one of "-interface", "-target" and
    "-packetcount" as the last word, an option whose value is not well
    formed, one of these three options for the second time, or the end of
    the command line when one of the three has not been given; and also
    when [argv] is empty. *)
Theorem malformed_command_line_gets_usage (os : OS) (libc : Libc) (argv0 : string)
    (gs : list option_group) (tail : list string) :
  (malformed libc gs tail →
   program os libc (argv0 :: concat (words <$> gs) ++ tail) = usage (Some argv0))
  ∧ program os libc [] = usage None.
Proof.
  split; [|done]. intros Hbad.
  set (argv := argv0 :: concat (words <$> gs) ++ tail).
  assert (Hu : usage_needed (parse libc argv) = true);
    [|by unfold program, command_line; rewrite Hu].
  unfold usage_needed.
  pose proof (after_groups libc argv0 gs tail) as Hafter. cbv zeta in Hafter.
  fold argv in Hafter. destruct Hafter as [->|(Hp & Hd & Herr & Hadm)]; [done|].
  rewrite Hp.
  set (i := S (length (concat (words <$> gs)))) in *.
  set (a := apply_groups libc 1 gs args_init) in *.
  destruct (groups_state libc argv gs 1 args_init tail) as (Hwf & Hi & Ht & Hc & Hf);
    [done|done|]. fold a in Hi, Ht, Hc, Hf. rewrite flags_of_groups in Hf.
  assert (Hstop : cmd_err (parse_step libc argv i a).2 = true → (i < length argv)%nat →
            cmd_err (parse_loop libc argv (length argv) i a) = true).
  { intros Hs Hlt. rewrite parse_loop_step by (done || lia).
    by rewrite parse_loop_stops. }
  assert (Hlen : tail ≠ [] → (i < length argv)%nat).
  { intros Hne. apply (f_equal length) in Hd. rewrite length_drop in Hd.
    destruct tail; [done|]. cbn [length] in Hd. lia. }
  destruct Hbad as [w rest Hw|w Hw|g rest Hg|g rest Hg|Hmiss].
  - rewrite Hstop; [done| |by apply Hlen].
    apply parse_step_unknown.
    destruct (drop_lookup_total argv i _ 0 w Hd eq_refl) as [H0 _].
    by rewrite Nat.add_0_r in H0; rewrite H0.
  - rewrite Hstop; [done| |by apply Hlen].
    by apply (parse_step_missing libc argv i a w).
  - rewrite Hstop; [done| |apply Hlen; by destruct g].
    destruct (parse_step_group libc argv i a g rest Hd) as [_ Hs].
    unfold admissible in Hs. by rewrite Hg, andb_false_r in Hs.
  - rewrite Hstop; [done| |apply Hlen; by destruct g].
    destruct (parse_step_group libc argv i a g rest Hd) as [_ Hs].
    assert (Hfresh : fresh a g = false); [|by unfold admissible in Hs; rewrite Hfresh in Hs].
    destruct g as [name|mac|count|]; cbn [repeated fresh] in *; [| | |done].
    + destruct (interfaces gs) as [|n' [|]]; [done| |done].
      destruct Hi as (_ & Hi & _). by apply Nat.eqb_neq.
    + rewrite Hf. destruct (targets gs) as [|m' [|]]; [done| |done].
      by destruct (transmitters gs).
    + destruct (counts gs) as [|c' [|]] eqn:Ec; [done| |done].
      destruct Hc as [_ ->]. apply Z.eqb_neq.
      assert (Hin : opt_packetcount c' ∈ gs) by (apply elem_of_counts; rewrite Ec; by left).
      rewrite Forall_forall in Hwf. apply Hwf in Hin.
      by apply negb_true_iff, Z.eqb_neq in Hin.
  - rewrite parse_loop_end.
    2:{ apply (f_equal length) in Hd. rewrite length_drop in Hd. cbn [length] in Hd. lia. }
    rewrite Herr. cbn [orb].
    destruct Hmiss as [E|[E|E]]; rewrite E in *.
    + rewrite Hi. done.
    + rewrite Hf. destruct (iface_nameidx a =? 0)%nat; [done|].
      by destruct (transmitters gs).
    + rewrite Hc. cbn [arg_packet_count args_init Z.eqb]. by rewrite !orb_true_r.
Qed.

(** "-target" given twice, after "-transmitter". *)
Lemma malformed_command_line_gets_usage_witness :
  program (lab (λ _, 1514) lab_peer lab_clock) lab_libc
    ["bandw"%string; "-transmitter"%string; "-target"%string;
     "02:00:00:11:22:33"%string; "-target"%string; "02:00:00:11:22:33"%string;
     "-interface"%string; "eth0"%string; "-packetcount"%string; "1000"%string]
  = usage (Some "bandw"%string).
Proof.
  apply (proj1 (malformed_command_line_gets_usage (lab (λ _, 1514) lab_peer lab_clock)
                  lab_libc "bandw"%string
                  [opt_transmitter; opt_target "02:00:00:11:22:33"%string]
                  ["-target"%string; "02:00:00:11:22:33"%string;
                   "-interface"%string; "eth0"%string;
                   "-packetcount"%string; "1000"%string])).
  apply (repeated_option lab_libc _ (opt_target "02:00:00:11:22:33"%string)). reflexivity.
Defined.
(** * The two scoped objects and the setup of the header *)

Section Acquired.
Context (os : OS).

Lemma acquired_app (t1 t2 : list event) :
  acquired (t1 ++ t2) = acquired t1 ++ acquired t2.
Proof. apply omap_app. Qed.

Lemma acquired_send_events f0 p0 sa h i k n :
  acquired (send_events os f0 p0 sa h i k n) = [].
Proof. unfold acquired, send_events. generalize (seq 0 n). intros l. by induction l. Qed.

Lemma acquired_recv_events k n : acquired (recv_events os k n) = [].
Proof. unfold acquired, recv_events. generalize (seq 0 n). intros l. by induction l. Qed.
End Acquired.

(** [main_prog] is [main_scoped] without the destructors. *)
Lemma main_prog_after_socket (os : OS) (cfg : config) :
  main_prog os cfg
  = (frame ← malloc os (frame_max_size * 2);
     match frame with
     | None => fprintf_stderr msg_cannot_allocate;; return_ (-1)
     | Some frame0 => fd ← socket os; after_socket os cfg frame0 fd
     end).
Proof. reflexivity. Qed.

(** What is acquired in a run of [main]: the block and the descriptor,
    when the kernel grants them. *)
Lemma acquired_in_main (os : OS) (cfg : config) :
  acquired (trace (main os cfg).2)
  = match os_malloc os (frame_max_size * 2) with
    | None => []
    | Some _ => ev_free 0 :: close_file_descriptor (os_socket os)
    end.
Proof.
  pose proof (main_shape os cfg) as Hshape.
  destruct (main os cfg) as [r m]; cbn [fst snd] in *.
  unfold close_file_descriptor.
  destruct Hshape as [m Hm Hend|g m Hm Hfd Hend|g m Hm Hfd Hlen Hend
                     |g e m Hm Hfd Hlen Hidx Hend|g idx e m Hm Hfd Hlen Hidx Hhw Hend
                     |g idx hw m Hm Hfd Hlen Hidx Hhw Hbind Hend
                     |g idx hw r m Hdone Hrole Hr|g idx hw r m Hdone Hrole Hr].
  7-8: destruct Hdone as (Hm & Hfd & _); destruct Hr.
  all: ends; rewrite Htrace.
  all: rewrite Hm.
  all: unfold setup_trace, tx_prologue, rx_prologue.
  all: rewrite ?acquired_app, ?acquired_send_events, ?acquired_recv_events.
  all: cbn [acquired omap list_omap app].
  all: try (apply Z.leb_le in Hfd as ->; done).
  all: try (apply Z.leb_gt in Hfd as ->; done).
  done.
Qed.

(** X14. The two scoped objects of [main] give back what the run has
    obtained.  With its destructors [main] does what it does without
    them, and whenever it returns, with 0 or with -1, it then closes the
    descriptor if [socket] gave one and frees the block if [malloc] gave
    one, in this order and each exactly once: the resources released are
    those acquired, in reverse order.  Nothing is released when the
    assertion fails, since [abort] does not unwind. *)
Theorem acquired_resources_are_released (os : OS) (cfg : config) :
  let run := main_scoped os cfg boot in
  run.1 = main os cfg
  ∧ run.2 = match (main os cfg).1 with
            | Aborted => []
            | _ => reverse (acquired (trace (main os cfg).2))
            end.
Proof.
  cbv zeta. rewrite acquired_in_main.
  unfold main. rewrite main_prog_after_socket.
  unfold main_scoped, then_, scoped, unscoped. rewrite bind_run.
  assert (Hm : malloc os (frame_max_size * 2) boot
               = match os_malloc os (frame_max_size * 2) with
                 | None => (Next None, Machine [] 0 0 0 [ev_malloc (frame_max_size * 2) false])
                 | Some g =>
                     (Next (Some 0%nat),
                      Machine (g <$> seq 0 (frame_max_size * 2)) 0 0 0
                              [ev_malloc (frame_max_size * 2) true])
                 end).
  { unfold malloc, boot. by destruct (os_malloc os (frame_max_size * 2)). }
  rewrite Hm. clear Hm.
  destruct (os_malloc os (frame_max_size * 2)) as [g|]; [|done].
  rewrite bind_run.
  set (m1 := Machine _ _ _ _ _).
  assert (Hs : socket os m1
               = (Next (os_socket os),
                  Machine (heap m1) (sent m1) (received m1) (clock_reads m1)
                          (trace m1 ++ [ev_socket (os_socket os)]))) by reflexivity.
  rewrite Hs.
  destruct (after_socket os cfg 0 (os_socket os) _) as [[st|st|] m2]; cbn [fst snd].
  - split; [done|]. unfold close_file_descriptor.
    by destruct (0 <=? os_socket os).
  - split; [done|]. unfold close_file_descriptor.
    by destruct (0 <=? os_socket os).
  - done.
Qed.

(** ** The footprint of [init_ethhdr_and_saddr] *)

Section Footprint.
Context (bo : byte_order) (tg hw : list byte) (ethhead : nat) (h : list byte).

Lemma init_dest_footprint :
  length (init_dest tg ethhead h) = length h
  ∧ take ethhead (init_dest tg ethhead h) = take ethhead h
  ∧ drop (ethhead + ETH_ALEN) (init_dest tg ethhead h) = drop (ethhead + ETH_ALEN) h.
Proof.
  unfold init_dest, h_dest. split; [by rewrite length_inserts|]. split.
  - by apply take_list_inserts_ge.
  - apply drop_list_inserts_le. by rewrite mac_of_length.
Qed.

Lemma init_header_footprint :
  length (init_header bo tg hw ethhead h) = length h
  ∧ take ethhead (init_header bo tg hw ethhead h) = take ethhead h
  ∧ drop (ethhead + ETH_HLEN) (init_header bo tg hw ethhead h) = drop (ethhead + ETH_HLEN) h.
Proof.
  destruct init_dest_footprint as (Hl & Ht & Hd).
  unfold init_header, h_source, h_proto. split; [by rewrite !length_inserts|]. split.
  - rewrite !take_list_inserts_ge by lia. done.
  - rewrite !drop_list_inserts_le;
      rewrite ?mac_of_length, ?native_bytes_length; unfold ETH_HLEN, ETH_ALEN; try lia.
    unfold init_dest, h_dest. apply drop_list_inserts_le.
    rewrite mac_of_length. unfold ETH_ALEN. lia.
Qed.
End Footprint.

Lemma drop_behind_header (ethhead : nat) (x y : list byte) :
  drop (ethhead + ETH_ALEN) x = drop (ethhead + ETH_ALEN) y →
  drop (ethhead + ETH_HLEN) x = drop (ethhead + ETH_HLEN) y.
Proof.
  intros H. replace (ethhead + ETH_HLEN)%nat with (ethhead + ETH_ALEN + 8)%nat
    by (unfold ETH_HLEN, ETH_ALEN; lia).
  by rewrite <- (drop_drop x), <- (drop_drop y), H.
Qed.

(** X15. [init_ethhdr_and_saddr] touches nothing of the block but the
    14 octets of the frame header it is given: the block keeps its length
    and all octets before and behind the header, whatever the outcome;
    no frame is sent or received and the clock is not read.  It returns
    [true] exactly when the name is shorter than [IFNAMSIZ] and both
    queries succeed, the queries being made for the first
    [iface_namelen] characters of the name; when it returns [false] only
    the destination has been written, the source and the protocol of the
    header are as they were. *)
Theorem init_writes_only_the_header (os : OS) (fd : Z) (name : string) (namelen : nat)
    (tg : list byte) (ethhead : nat) (m : machine) :
  let r := init_ethhdr_and_saddr os fd name namelen tg ethhead m in
  let ifr_name := substring 0 namelen name in
  (length (heap r.2) = length (heap m)
   ∧ take ethhead (heap r.2) = take ethhead (heap m)
   ∧ drop (ethhead + ETH_HLEN) (heap r.2) = drop (ethhead + ETH_HLEN) (heap m)
   ∧ sent r.2 = sent m ∧ received r.2 = received m ∧ clock_reads r.2 = clock_reads m)
  ∧ ((∃ saddr, r.1 = Next (true, saddr))
     ↔ (namelen < IFNAMSIZ)%nat
       ∧ (∃ idx, os_ifindex os ifr_name = ioctl_ok idx)
       ∧ (∃ sa_data, os_ifhwaddr os ifr_name = ioctl_ok sa_data))
  ∧ (∀ saddr, r.1 = Next (false, saddr) →
       drop (ethhead + ETH_ALEN) (heap r.2) = drop (ethhead + ETH_ALEN) (heap m)).
Proof.
  cbv zeta.
  destruct (decide (namelen < IFNAMSIZ)%nat) as [Hlen|Hlen].
  2: { rewrite init_assert_fails by lia. cbn [fst snd].
       split; [done|]. split; [|done]. split; [by intros [? ?]|]. by intros [? _]. }
  destruct (os_ifindex os (substring 0 namelen name)) as [idx|e] eqn:Eidx.
  2: { rewrite (init_no_ifindex os fd name namelen tg ethhead m e) by done.
       cbn [fst snd heap sent received clock_reads].
       destruct (init_dest_footprint tg ethhead (heap m)) as (Hl & Ht & Hd).
       split; [|split; [|done]].
       - repeat split; try done.
         by apply drop_behind_header.
       - split; [by intros [? ?]|]. by intros (_ & [? ?] & _). }
  destruct (os_ifhwaddr os (substring 0 namelen name)) as [sa_data|e] eqn:Ehw.
  2: { rewrite (init_no_ifhwaddr os fd name namelen tg ethhead m idx e) by done.
       cbn [fst snd heap sent received clock_reads].
       destruct (init_dest_footprint tg ethhead (heap m)) as (Hl & Ht & Hd).
       split; [|split; [|done]].
       - repeat split; try done.
         by apply drop_behind_header.
       - split; [by intros [? ?]|]. by intros (_ & _ & [? ?]). }
  rewrite (init_succeeds os fd name namelen tg ethhead m idx sa_data) by done.
  cbn [fst snd heap sent received clock_reads].
  destruct (init_header_footprint (os_byte_order os) tg sa_data ethhead (heap m))
    as (Hl & Ht & Hd).
  split; [done|]. split; [|by intros ? [=]].
  split; [|by eexists]. intros _. split; [done|]. split; by eexists.
Qed.

(** The laboratory asked about an interface it does not have. *)
Lemma init_writes_only_the_header_witness :
  let os := lab (λ _, 1514) lab_peer lab_clock in
  let m := Machine (replicate (frame_max_size * 2) xff) 0 0 0 [] in
  let r := init_ethhdr_and_saddr os 3 "wlan9" 5 [x02; x00; x00; x11; x22; x33; x00; x00] 0 m in
  r.1 = Next (false, init_saddr LittleEndian [x02; x00; x00; x11; x22; x33; x00; x00] 0)
  ∧ drop ETH_ALEN (heap r.2) = drop ETH_ALEN (heap m).
Proof.
  intros os m r.
  assert (Hr : r.1 = Next (false, init_saddr LittleEndian
                                    [x02; x00; x00; x11; x22; x33; x00; x00] 0))
    by reflexivity.
  split; [exact Hr|].
  exact (proj2 (proj2 (init_writes_only_the_header os 3 "wlan9" 5
                         [x02; x00; x00; x11; x22; x33; x00; x00] 0 m)) _ Hr).
Defined.
(** * The statistics are numbers *)

(** ** Rounding a mantissa of 53 digits or more *)

Section Normal.
Implicit Types (M m : positive) (e : Z) (s : bool).

Lemma shr_m_shr_1 (mrs : shr_record) :
  0 <= shr_m mrs → shr_m (shr_1 mrs) = shr_m mrs / 2.
Proof.
  destruct mrs as [x r t]. cbn [shr_m]. intros Hx.
  destruct x as [|[p|p|]|p]; cbn [shr_1 shr_m]; [done| | |done|lia].
  - rewrite Pos2Z.inj_xI. apply (Z.div_unique _ _ _ 1); lia.
  - rewrite Pos2Z.inj_xO. apply (Z.div_unique _ _ _ 0); lia.
Qed.

Lemma shr_m_iter (j : nat) (mrs : shr_record) :
  0 <= shr_m mrs →
  shr_m (Nat.iter j shr_1 mrs) = shr_m mrs / 2 ^ Z.of_nat j.
Proof.
  intros Hx. induction j as [|j IH].
  - cbn. by rewrite Z.div_1_r.
  - rewrite Nat.iter_succ, shr_m_shr_1, IH.
    + rewrite Z.div_div by lia. f_equal. rewrite Nat2Z.inj_succ, Z.pow_succ_r by lia. lia.
    + rewrite IH. apply Z.div_pos; lia.
Qed.

Lemma shr_spec (mrs : shr_record) e (n : Z) :
  0 <= shr_m mrs → 0 <= n →
  shr_m (shr mrs e n).1 = shr_m mrs / 2 ^ n ∧ (shr mrs e n).2 = e + n.
Proof.
  intros Hx Hn. destruct n as [|p|p]; [| |lia].
  - cbn. rewrite Z.div_1_r. split; [done|lia].
  - cbn [shr fst snd]. rewrite iter_pos_nat, shr_m_iter by done.
    by rewrite positive_nat_Z.
Qed.

Lemma shr_fexp_spec M e (l : location) :
  dprec <= Zpos (digits2_pos M) →
  -1074 <= Zpos (digits2_pos M) + e - dprec →
  shr_m (shr_fexp dprec demax (Zpos M) e l).1
  = Zpos M / 2 ^ (Zpos (digits2_pos M) - dprec)
  ∧ (shr_fexp dprec demax (Zpos M) e l).2 = Zpos (digits2_pos M) + e - dprec.
Proof.
  intros Hd He. unfold shr_fexp. cbn [Zdigits2].
  set (d := Zpos (digits2_pos M)) in *.
  replace (fexp dprec demax (d + e) - e) with (d - dprec).
  2: { unfold fexp, emin, dprec, demax in *. lia. }
  assert (Hm : shr_m (shr_record_of_loc (Zpos M) l) = Zpos M) by by destruct l as [|[]].
  destruct (shr_spec (shr_record_of_loc (Zpos M) l) e (d - dprec)) as [H1 H2];
    [rewrite Hm; lia|lia|].
  rewrite H1, H2, Hm. split; [done|lia].
Qed.

(** Such a mantissa is rounded to a normal number when the exponent
    is far from both ends of the range. *)
Lemma round_normal s M e (l : location) :
  dprec <= Zpos (digits2_pos M) →
  -1074 <= Zpos (digits2_pos M) + e - dprec <= 970 →
  ∃ m e',
    binary_round_aux dprec demax s (Zpos M) e l = S754_finite s m e'
    ∧ Zpos (digits2_pos m) = dprec
    ∧ Zpos (digits2_pos M) + e - dprec <= e' <= Zpos (digits2_pos M) + e - dprec + 1.
Proof.
  intros Hd He. unfold binary_round_aux.
  destruct (shr_fexp_spec M e l Hd ltac:(lia)) as [H1 H2].
  destruct (digits_bounds M) as [Hlo Hhi].
  set (d := Zpos (digits2_pos M)) in *.
  destruct (shr_fexp dprec demax (Zpos M) e l) as [mrs1 e1]. cbn [fst snd] in H1, H2.
  subst e1.
  assert (Hp : 0 < 2 ^ (d - dprec)) by (apply Z.pow_pos_nonneg; lia).
  assert (Hm1 : 2 ^ 52 <= shr_m mrs1 < 2 ^ 53).
  { assert (E1 : 2 ^ (d - 1) = 2 ^ 52 * 2 ^ (d - dprec)).
    { rewrite <- Z.pow_add_r by (unfold dprec in *; lia). f_equal. unfold dprec. lia. }
    assert (E2 : 2 ^ d = 2 ^ 53 * 2 ^ (d - dprec)).
    { rewrite <- Z.pow_add_r by (unfold dprec in *; lia). f_equal. unfold dprec. lia. }
    rewrite H1. split.
    - apply Z.div_le_lower_bound; [done|]. lia.
    - apply Z.div_lt_upper_bound; [done|]. lia. }
  set (m2 := round_nearest_even (shr_m mrs1) (loc_of_shr_record mrs1)).
  assert (Hm2 : shr_m mrs1 <= m2 <= shr_m mrs1 + 1).
  { unfold m2, round_nearest_even.
    destruct (loc_of_shr_record mrs1) as [|[]]; try destruct (Z.even _); lia. }
  destruct m2 as [|p2|p2] eqn:Ep2; [lia| |lia].
  destruct (decide (Zpos p2 < 2 ^ 53)) as [Hsmall|Hbig].
  - assert (Hd2 : Zpos (digits2_pos p2) = dprec).
    { apply digits_unique. unfold dprec. lia. }
    destruct (shr_fexp_spec p2 (d + e - dprec) loc_Exact) as [H3 H4];
      [lia|rewrite Hd2; unfold dprec in *; lia|].
    destruct (shr_fexp dprec demax (Zpos p2) (d + e - dprec) loc_Exact) as [mrs2 e2].
    cbn [fst snd] in H3, H4. rewrite Hd2, Z.sub_diag, Z.div_1_r in H3.
    rewrite H3, H4, Hd2.
    replace (dprec + (d + e - dprec) - dprec <=? demax - dprec) with true.
    2: { symmetry. apply Z.leb_le. unfold dprec, demax in *. lia. }
    exists p2, (dprec + (d + e - dprec) - dprec). split; [done|]. split; [done|lia].
  - assert (Hp2 : Zpos p2 = 2 ^ 53) by lia.
    assert (Hd2 : Zpos (digits2_pos p2) = dprec + 1).
    { apply digits_unique. rewrite Hp2. unfold dprec. done. }
    destruct (shr_fexp_spec p2 (d + e - dprec) loc_Exact) as [H3 H4];
      [lia|rewrite Hd2; unfold dprec in *; lia|].
    destruct (shr_fexp dprec demax (Zpos p2) (d + e - dprec) loc_Exact) as [mrs2 e2].
    cbn [fst snd] in H3, H4.
    rewrite Hd2, Hp2 in H3. replace (dprec + 1 - dprec) with 1 in H3 by lia.
    change (2 ^ 53 / 2 ^ 1) with (Zpos (2 ^ 52)) in H3.
    rewrite H3, H4, Hd2.
    replace (dprec + 1 + (d + e - dprec) - dprec <=? demax - dprec) with true.
    2: { symmetry. apply Z.leb_le. unfold dprec, demax in *. lia. }
    exists (2 ^ 52)%positive, (dprec + 1 + (d + e - dprec) - dprec).
    split; [done|]. split; [done|lia].
Qed.

(** ** The operations of the report *)

(** A positive normal number: its mantissa and its exponent. *)
Lemma double_of_Z_normal (z : Z) :
  0 < z < 2 ^ 64 →
  ∃ m e, double_of_Z z = S754_finite false m e
         ∧ Zpos (digits2_pos m) = dprec ∧ -52 <= e <= 12.
Proof.
  intros [Hlo Hhi]. destruct z as [|n|n]; [lia| |lia].
  assert (Hd64 : Zpos (digits2_pos n) <= 64) by by apply digits_le.
  destruct (decide (Zpos (digits2_pos n) <= dprec)) as [Hd|Hd].
  - rewrite double_of_Z_canon by done. unfold canon.
    eexists _, _. split; [done|]. split; [by apply canon_digits|].
    unfold dprec in *. lia.
  - unfold double_of_Z, binary_normalize, binary_round, shl_align.
    replace (fexp dprec demax (Zpos (digits2_pos n) + 0) - 0)
      with (Zpos (digits2_pos n) - dprec).
    2: { unfold fexp, emin, dprec, demax in *. lia. }
    destruct (Zpos (digits2_pos n) - dprec) as [|q|q] eqn:E; [lia| |lia].
    destruct (round_normal false n 0 loc_Exact) as (m & e' & -> & Hm & He');
      [lia|unfold dprec in *; lia|].
    exists m, e'. split; [done|]. split; [done|]. unfold dprec in *. lia.
Qed.

Lemma dmul_normal (mx my : positive) (ex ey : Z) :
  Zpos (digits2_pos mx) = dprec → Zpos (digits2_pos my) = dprec →
  -1000 <= ex + ey <= 800 →
  ∃ m e, dmul (S754_finite false mx ex) (S754_finite false my ey) = S754_finite false m e
         ∧ Zpos (digits2_pos m) = dprec
         ∧ ex + ey + 52 <= e <= ex + ey + 54.
Proof.
  intros Hx Hy He. unfold dmul, SFmul. cbn [xorb].
  pose proof (digits_mul mx my) as Hlo. rewrite Hx, Hy in Hlo.
  assert (Hhi : Zpos (digits2_pos (mx * my)) <= dprec + dprec).
  { apply digits_le. destruct (digits_bounds mx) as [_ H1].
    destruct (digits_bounds my) as [_ H2]. rewrite Hx in H1. rewrite Hy in H2.
    rewrite Pos2Z.inj_mul, Z.pow_add_r by done. nia. }
  destruct (round_normal false (mx * my) (ex + ey) loc_Exact) as (m & e' & -> & Hm & He');
    [unfold dprec in *; lia..|].
  exists m, e'. split; [done|]. split; [done|]. unfold dprec in *. lia.
Qed.

Lemma ddiv_normal (mx my : positive) (ex ey : Z) :
  Zpos (digits2_pos mx) = dprec → Zpos (digits2_pos my) = dprec →
  -1000 <= ex - ey <= 900 →
  ∃ m e, ddiv (S754_finite false mx ex) (S754_finite false my ey) = S754_finite false m e
         ∧ Zpos (digits2_pos m) = dprec.
Proof.
  intros Hx Hy He. unfold ddiv, SFdiv, SFdiv_core_binary. cbn [xorb Zdigits2].
  rewrite Hx, Hy.
  replace (Z.min (fexp dprec demax (dprec + ex - (dprec + ey))) (ex - ey))
    with (ex - ey - dprec).
  2: { unfold fexp, emin, dprec, demax in *. lia. }
  replace (ex - ey - (ex - ey - dprec)) with 53 by (unfold dprec; lia).
  rewrite Z.shiftl_mul_pow2 by done.
  destruct (digits_bounds mx) as [Hx1 Hx2]. destruct (digits_bounds my) as [Hy1 Hy2].
  rewrite Hx in Hx1, Hx2. rewrite Hy in Hy1, Hy2.
  change (2 ^ (dprec - 1)) with (2 ^ 52) in *. change (2 ^ dprec) with (2 ^ 53) in *.
  pose proof (Z.div_eucl_eq (Zpos mx * 2 ^ 53) (Zpos my) ltac:(done)) as Heq.
  pose proof (Z.mod_pos_bound (Zpos mx * 2 ^ 53) (Zpos my) ltac:(done)) as Hmod.
  unfold Z.modulo in Hmod.
  destruct (Z.div_eucl (Zpos mx * 2 ^ 53) (Zpos my)) as [q r].
  assert (Hq : 2 ^ 52 <= q < 2 ^ 54) by nia.
  destruct q as [|pq|pq]; [lia| |lia].
  assert (Hdq : dprec <= Zpos (digits2_pos pq) <= dprec + 1).
  { split.
    - destruct (digits_bounds pq) as [_ H].
      destruct (Z.lt_ge_cases (Zpos (digits2_pos pq)) dprec) as [Hlt|]; [|done].
      assert (2 ^ Zpos (digits2_pos pq) <= 2 ^ 52)
        by (apply Z.pow_le_mono_r; unfold dprec in *; lia).
      lia.
    - apply digits_le. unfold dprec. lia. }
  destruct (round_normal false pq (ex - ey - dprec) (new_location (Zpos my) r))
    as (m & e' & -> & Hm & He'); [lia|unfold dprec in *; lia|].
  by exists m, e'.
Qed.
End Normal.

(** ** The three figures *)

Lemma elem_of_stdout_of (t : list event) (msg : message) :
  ev_stdout msg ∈ t → msg ∈ stdout_of t.
Proof.
  intros H. unfold stdout_of. apply list_elem_of_omap. by exists (ev_stdout msg).
Qed.

(** The statistics are printed by a transmitter that has measured a
    duration other than zero, and are those of that duration. *)
Lemma statistics_in_trace (os : OS) (cfg : config) (s bytes bandwidth : double) :
  ev_stdout (msg_statistics s bytes bandwidth) ∈ trace (main os cfg).2 →
  elapsed os ≠ 0
  ∧ s = seconds os ∧ bytes = transceived cfg
  ∧ bandwidth = ddiv (transceived cfg) (seconds os).
Proof.
  intros Hin%elem_of_stdout_of. revert Hin.
  run_cases os cfg r m Hshape.
  assert (Hreport : msg_statistics s bytes bandwidth = report_message os cfg →
            elapsed os ≠ 0 ∧ s = seconds os ∧ bytes = transceived cfg
            ∧ bandwidth = ddiv (transceived cfg) (seconds os)).
  { unfold report_message. destruct (Z.eqb_spec 0 (elapsed os)); [done|].
    intros [= -> -> ->]. done. }
  destruct Hshape as [| | | | | |g idx hw r m Hdone Hrole Hr|g idx hw r m Hdone Hrole Hr];
    try destruct Hr; ends; rewrite Htrace; streams.
  all: intros Hin.
  all: repeat (apply elem_of_cons in Hin as [Hin|Hin]; [try discriminate|]).
  all: try (by apply elem_of_nil in Hin).
  all: by apply Hreport.
Qed.

Lemma transceived_canon (cfg : config) (pc : positive) :
  packet_count cfg = Zpos pc → Zpos pc < 2 ^ 32 →
  transceived cfg = canon (1500 * pc * 2)
  ∧ Zpos (digits2_pos (1500 * pc * 2)) <= 44.
Proof.
  intros E Hhi. unfold transceived. rewrite E.
  change (Z.of_nat packet_size) with (Zpos 1500).
  change two_point_0 with (canon 2).
  assert (H1 : Zpos (digits2_pos (1500 * pc)) <= dprec).
  { apply digits_le. rewrite Pos2Z.inj_mul. unfold dprec. lia. }
  assert (H2 : Zpos (digits2_pos (1500 * pc * 2)) <= 44).
  { apply digits_le. rewrite !Pos2Z.inj_mul. lia. }
  rewrite !double_of_Z_canon, !dmul_canon; try done; unfold dprec in *; try lia.
  apply digits_le. lia.
Qed.

(** X16. Whatever statistics a run prints are numbers: the elapsed
    time, the octets transceived and the bandwidth are positive normal
    doubles, never a NaN, an infinity, a zero or a subnormal, for every
    packet count [main] accepts and every pair of clock readings. *)
Theorem statistics_are_normal_numbers (os : OS) (cfg : config)
    (s bytes bandwidth : double) :
  0 < packet_count cfg < 2 ^ 32 →
  ev_stdout (msg_statistics s bytes bandwidth) ∈ trace (main os cfg).2 →
  SFclassify dprec s = FloatClass.PNormal
  ∧ SFclassify dprec bytes = FloatClass.PNormal
  ∧ SFclassify dprec bandwidth = FloatClass.PNormal.
Proof.
  intros [Hlo Hhi] Hin.
  destruct (statistics_in_trace os cfg s bytes bandwidth Hin) as (Hdt & -> & -> & ->).
  assert (Hclass : ∀ m e, Zpos (digits2_pos m) = dprec →
            SFclassify dprec (S754_finite false m e) = FloatClass.PNormal).
  { intros m e Hm. cbn [SFclassify]. by rewrite Hm, Z.eqb_refl. }
  (* the duration in seconds *)
  assert (Hel : 0 < elapsed os < 2 ^ 64).
  { assert (0 <= elapsed os < 2 ^ 64) by (apply Z.mod_pos_bound; lia). lia. }
  destruct (double_of_Z_normal (elapsed os) Hel) as (md & ed & Ed & Hmd & Hed).
  destruct (dmul_normal md 0x112e0be826d695 ed (-82)) as (ms & es & Es & Hms & Hes);
    [done|done|lia|].
  assert (Hs : seconds os = S754_finite false ms es).
  { unfold seconds. by rewrite Ed. }
  (* the octets *)
  destruct (packet_count cfg) as [|pc|pc] eqn:Epc; [lia| |lia].
  destruct (transceived_canon cfg pc Epc Hhi) as [Hb Hdb].
  assert (Hmb : Zpos (digits2_pos (Z.to_pos (Zpos (1500 * pc * 2)
                       * 2 ^ (dprec - Zpos (digits2_pos (1500 * pc * 2)))))) = dprec).
  { apply canon_digits. unfold dprec. lia. }
  unfold canon in Hb.
  (* the bandwidth *)
  destruct (ddiv_normal _ ms (Zpos (digits2_pos (1500 * pc * 2)) - dprec) es Hmb Hms)
    as (mw & ew & Ew & Hmw).
  { assert (0 < Zpos (digits2_pos (1500 * pc * 2))) by done. unfold dprec. lia. }
  rewrite Hs, Hb, Ew. auto.
Qed.

(** A round trip of four frames in the laboratory, in a quarter of a
    second. *)
Lemma statistics_are_normal_numbers_witness :
  let os := lab (λ _, 1514) lab_peer lab_clock in
  let cfg := lab_config "eth0" 4 (flag_target + flag_transmitter) in
  ∃ s bytes bandwidth,
    last (trace (main os cfg).2) = Some (ev_stdout (msg_statistics s bytes bandwidth))
    ∧ SFclassify dprec s = FloatClass.PNormal
    ∧ SFclassify dprec bytes = FloatClass.PNormal
    ∧ SFclassify dprec bandwidth = FloatClass.PNormal.
Proof.
  intros os cfg.
  assert (Hl : ∃ s bytes bandwidth,
            last (trace (main os cfg).2)
            = Some (ev_stdout (msg_statistics s bytes bandwidth))).
  { rewrite main_trace. do 3 eexists. reflexivity. }
  destruct Hl as (s & bytes & bandwidth & Hl).
  exists s, bytes, bandwidth. split; [exact Hl|].
  assert (Hpc : 0 < packet_count cfg < 2 ^ 32) by (split; reflexivity).
  exact (statistics_are_normal_numbers os cfg s bytes bandwidth Hpc
           (last_Some_elem_of _ _ Hl)).
Defined.
